(** * MAGIC / maldefender: the control-flow-graph builder (cfg_builder.py)

    A shallow embedding of [Block] and [ControlFlowGraphBuilder] and the
    properties of the listing normaliser, the decoding pass, the control-flow
    visitor, block assembly and the per-block features.

    Conventions of the embedding.
    - A line of the listing, read as bytes, is a [string] of bytes, and
      [bytes.decode("utf-8", "ignore")] is the parameter [decode]. A Python
      [str] is a [string] as well: ASCII text as it is, other text in its
      UTF-8 encoding, in which the ASCII characters and words the builder
      looks for are where they are in the text.
    - [dict] and [OrderedDict] objects that the code iterates over
      ([text], [program], [addr2Inst], [addr2InstAux]) are association lists
      in insertion order ([od_get], [od_set]); dictionaries that are only
      looked up are [gmap]s.
    - An [Instruction] or [Block] object is identified with the key under
      which the builder stores it: [buildInsts] stores every instruction
      under its own [address] and [getBlockAtAddr] every block under its own
      [startAddr], and nothing else ever inserts one.
    - A Python exception ([KeyError], [ValueError], numpy shape mismatch) is
      the result [None]. *)

From Stdlib Require Import ZArith String Ascii Lia.
From stdpp Require Import gmap strings list sorting.

Local Open Scope Z_scope.

(** ** Python string operations used by the builder *)

Module Py.

Definition startswith (s p : string) : bool := String.prefix p s.

(** [s.find(sub)]: the lowest index at which [sub] occurs, or [-1]. *)
Fixpoint find_from (sub s : string) (i : Z) : Z :=
  if String.prefix sub s then i
  else match s with
       | EmptyString => -1
       | String _ s' => find_from sub s' (i + 1)
       end.

Definition find (s sub : string) : Z := find_from sub s 0.

(** [s.rfind(sub)]: the highest such index, or [-1]. *)
Fixpoint rfind_from (sub s : string) (i acc : Z) : Z :=
  let acc' := if String.prefix sub s then i else acc in
  match s with
  | EmptyString => acc'
  | String _ s' => rfind_from sub s' (i + 1) acc'
  end.

Definition rfind (s sub : string) : Z := rfind_from sub s 0 (-1).

Fixpoint endswith (s suf : string) : bool :=
  String.eqb s suf ||
  match s with
  | EmptyString => false
  | String _ s' => endswith s' suf
  end.

Fixpoint drop (n : nat) (s : string) : string :=
  match n, s with
  | O, _ => s
  | S n', String _ s' => drop n' s'
  | S _, EmptyString => EmptyString
  end.

(** [s[k:]] for [k >= 0] and [s[-k:]] for [k > 0]. *)
Definition slice_from (k : Z) (s : string) : string := drop (Z.to_nat k) s.
Definition slice_last (k : nat) (s : string) : string :=
  drop (String.length s - k)%nat s.

(** [s.rstrip(chars)] *)
Fixpoint rstrip (chars : list ascii) (s : string) : string :=
  match s with
  | EmptyString => EmptyString
  | String c s' =>
      match rstrip chars s' with
      | EmptyString =>
          if bool_decide (c ∈ chars) then EmptyString else String c EmptyString
      | r => String c r
      end
  end.

(** [sep.join(l)] *)
Definition join (sep : string) (l : list string) : string := String.concat sep l.

(** [s.split(c)] with an explicit one-character separator: empty fields
    are kept, and the result is never empty. *)
Fixpoint split_on (c : ascii) (s : string) : list string :=
  match s with
  | EmptyString => [EmptyString]
  | String a s' =>
      if Ascii.eqb a c then EmptyString :: split_on c s'
      else match split_on c s' with
           | [] => [String a EmptyString]
           | w :: ws => String a w :: ws
           end
  end.

(** The whitespace of [bytes.split()]: space, tab, newline, carriage
    return, vertical tab, form feed. *)
Definition is_space (a : ascii) : bool :=
  let n := N_of_ascii a in
  (n =? 32)%N || ((9 <=? n)%N && (n <=? 13)%N).

(** [s.split()] without separator: runs of whitespace separate; no empty
    field is produced. *)
Fixpoint split_ws_aux (cur : string) (s : string) : list string :=
  match s with
  | EmptyString => if String.eqb cur EmptyString then [] else [cur]
  | String a s' =>
      if is_space a
      then (if String.eqb cur EmptyString then [] else [cur]) ++ split_ws_aux EmptyString s'
      else split_ws_aux (cur +:+ String a EmptyString) s'
  end.

Definition split_ws (s : string) : list string := split_ws_aux EmptyString s.

Definition hexdigit (d : Z) : string :=
  String (ascii_of_N (Z.to_N (if d <? 10 then 48 + d else 55 + d))) EmptyString.

(** ['%X' % n] for [0 <= n < 256], the only range in which the builder
    formats a number. *)
Definition fmtX (n : Z) : string :=
  if n <? 16 then hexdigit n else hexdigit (n / 16) +:+ hexdigit (n mod 16).

End Py.

(** ** Insertion-ordered dictionaries *)

Section odict.
Context {K V : Type} `{EqDecision K}.

Fixpoint od_get (k : K) (d : list (K * V)) : option V :=
  match d with
  | [] => None
  | (k', v) :: d' => if decide (k = k') then Some v else od_get k d'
  end.

Definition od_mem (k : K) (d : list (K * V)) : bool :=
  match od_get k d with Some _ => true | None => false end.

(** [d[k] = v]: an existing key keeps its position. *)
Fixpoint od_set (k : K) (v : V) (d : list (K * V)) : list (K * V) :=
  match d with
  | [] => [(k, v)]
  | (k', v') :: d' =>
      if decide (k = k') then (k, v) :: d' else (k', v') :: od_set k v d'
  end.

(** [d[k].field = ...]: the stored object is changed in place;
    [KeyError] when the key is absent. *)
Definition od_modify (k : K) (f : V → V) (d : list (K * V)) : option (list (K * V)) :=
  match od_get k d with
  | Some v => Some (od_set k (f v) d)
  | None => None
  end.

(** [d.update(e)] *)
Definition od_update (d e : list (K * V)) : list (K * V) :=
  foldl (λ acc kv, od_set kv.1 kv.2 acc) d e.
End odict.


(** ** Data model *)

(** The five [visit*] methods an instruction's [accept] can dispatch to. *)
Inductive Category :=
| Calling | ConditionalJump | UnconditionalJump | EndHere | DefaultCat.

(** Modelled from the spec: the class [isn.Instruction] (module
    [instructions]) is not part of the sources. The record has the fields
    the builder reads and writes; [category] stands for the [visit*] method
    [accept] dispatches to, and [target] for the value of
    [findAddrInInst()]. *)
Record Instruction := mkInstruction {
  address : Z;
  size : Z;
  operand : string;
  category : Category;
  target : Z;
  bytes : list string;
  rawStrs : list string;
  start : bool;
  fallThrough : bool;
  branchTo : option Z;
  call : bool
}.

Definition set_size (v : Z) (i : Instruction) : Instruction :=
  mkInstruction (address i) v (operand i) (category i) (target i) (bytes i)
    (rawStrs i) (start i) (fallThrough i) (branchTo i) (call i).
Definition set_bytes (v : list string) (i : Instruction) : Instruction :=
  mkInstruction (address i) (size i) (operand i) (category i) (target i) v
    (rawStrs i) (start i) (fallThrough i) (branchTo i) (call i).
Definition set_rawStrs (v : list string) (i : Instruction) : Instruction :=
  mkInstruction (address i) (size i) (operand i) (category i) (target i) (bytes i)
    v (start i) (fallThrough i) (branchTo i) (call i).
Definition set_start (v : bool) (i : Instruction) : Instruction :=
  mkInstruction (address i) (size i) (operand i) (category i) (target i) (bytes i)
    (rawStrs i) v (fallThrough i) (branchTo i) (call i).
Definition set_fallThrough (v : bool) (i : Instruction) : Instruction :=
  mkInstruction (address i) (size i) (operand i) (category i) (target i) (bytes i)
    (rawStrs i) (start i) v (branchTo i) (call i).
Definition set_branchTo (v : option Z) (i : Instruction) : Instruction :=
  mkInstruction (address i) (size i) (operand i) (category i) (target i) (bytes i)
    (rawStrs i) (start i) (fallThrough i) v (call i).
Definition set_call (v : bool) (i : Instruction) : Instruction :=
  mkInstruction (address i) (size i) (operand i) (category i) (target i) (bytes i)
    (rawStrs i) (start i) (fallThrough i) (branchTo i) v.

(** [Block.__init__] leaves both addresses at [-1] and both lists empty. *)
Record Block := mkBlock {
  startAddr : Z;
  endAddr : Z;
  instList : list Instruction;
  edgeList : list Z
}.

Definition Block_init : Block := mkBlock (-1) (-1) [] [].

(** What each call of [enter] did; one record per call, standing for the
    one [log.debug] line every branch of [enter] writes. *)
Inductive EnterKind := EnterExtern | EnterSoftirq | EnterInvalid | EnterInst.

Record EnterRecord := mkEnter {
  enter_kind : EnterKind;
  enter_from : Z;
  enter_addr : Z
}.

(** The fields of [ControlFlowGraphBuilder] the two passes work on. *)
Record Builder := mkBuilder {
  text : list (Z * string);
  program : list (string * string);
  addr2Inst : list (Z * Instruction);
  addr2InstAux : list (Z * Instruction);
  addr2Bytes : gmap Z (list string);
  addr2RawStr : gmap Z (list string);
  addr2Block : gmap Z Block;
  programStart : Z;
  programEnd : Z;
  enterLog : list EnterRecord
}.

(** [ControlFlowGraphBuilder.__init__] *)
Definition Builder_init : Builder :=
  mkBuilder [] [] [] [] ∅ ∅ ∅ (-1) (-1) [].

Definition with_text (v : list (Z * string)) (b : Builder) : Builder :=
  mkBuilder v (program b) (addr2Inst b) (addr2InstAux b) (addr2Bytes b)
    (addr2RawStr b) (addr2Block b) (programStart b) (programEnd b) (enterLog b).
Definition with_program (v : list (string * string)) (b : Builder) : Builder :=
  mkBuilder (text b) v (addr2Inst b) (addr2InstAux b) (addr2Bytes b)
    (addr2RawStr b) (addr2Block b) (programStart b) (programEnd b) (enterLog b).
Definition with_addr2Inst (v : list (Z * Instruction)) (b : Builder) : Builder :=
  mkBuilder (text b) (program b) v (addr2InstAux b) (addr2Bytes b)
    (addr2RawStr b) (addr2Block b) (programStart b) (programEnd b) (enterLog b).
Definition with_addr2InstAux (v : list (Z * Instruction)) (b : Builder) : Builder :=
  mkBuilder (text b) (program b) (addr2Inst b) v (addr2Bytes b)
    (addr2RawStr b) (addr2Block b) (programStart b) (programEnd b) (enterLog b).
Definition with_addr2Bytes (v : gmap Z (list string)) (b : Builder) : Builder :=
  mkBuilder (text b) (program b) (addr2Inst b) (addr2InstAux b) v
    (addr2RawStr b) (addr2Block b) (programStart b) (programEnd b) (enterLog b).
Definition with_addr2RawStr (v : gmap Z (list string)) (b : Builder) : Builder :=
  mkBuilder (text b) (program b) (addr2Inst b) (addr2InstAux b) (addr2Bytes b)
    v (addr2Block b) (programStart b) (programEnd b) (enterLog b).
Definition with_addr2Block (v : gmap Z Block) (b : Builder) : Builder :=
  mkBuilder (text b) (program b) (addr2Inst b) (addr2InstAux b) (addr2Bytes b)
    (addr2RawStr b) v (programStart b) (programEnd b) (enterLog b).
Definition with_programStart (v : Z) (b : Builder) : Builder :=
  mkBuilder (text b) (program b) (addr2Inst b) (addr2InstAux b) (addr2Bytes b)
    (addr2RawStr b) (addr2Block b) v (programEnd b) (enterLog b).
Definition with_programEnd (v : Z) (b : Builder) : Builder :=
  mkBuilder (text b) (program b) (addr2Inst b) (addr2InstAux b) (addr2Bytes b)
    (addr2RawStr b) (addr2Block b) (programStart b) v (enterLog b).
Definition with_enterLog (v : list EnterRecord) (b : Builder) : Builder :=
  mkBuilder (text b) (program b) (addr2Inst b) (addr2InstAux b) (addr2Bytes b)
    (addr2RawStr b) (addr2Block b) (programStart b) (programEnd b) v.

(** What [cfg_builder] imports from modules that are not part of the
    sources, and the two builtins whose grammar is not reproduced here. *)
Class Imports := {
  (** the builtin [int(s, 16)]; [None] for [ValueError] *)
  int16 : string → option Z;
  (** the builtin [x.decode("utf-8", "ignore")] on a token of a line read
      as bytes: the text of the bytes, without those that are no valid
      UTF-8 (ASCII bytes are their own text) *)
  decode : string → string;
  (** [dp_utils.FakeCalleeAddr] and [dp_utils.InvalidAddr] *)
  FakeCalleeAddr : Z;
  InvalidAddr : Z;
  (** [isn.InstBuilder.createInst]; [None] when the decoder rejects *)
  createInst : string → option Instruction;
  (** the constructor call [isn.Instruction(addr, operand=name)] *)
  newInstruction : Z → string → Instruction;
  (** the feature methods of an instruction and the lengths of the class
      lists [operandTypes], [operatorTypes] and [specialChars] *)
  getOperandFeatures : Instruction → list Z;
  getOperatorFeatures : Instruction → list Z;
  getSpecialCharFeatures : Instruction → list Z;
  nOperandTypes : nat;
  nOperatorTypes : nat;
  nSpecialChars : nat
}.

(** ** Listing normaliser: [extractTextSeg], [aggregate], [createProgram] *)

Definition contains (s sub : string) : bool := negb (Py.find s sub =? -1).

Definition LF : ascii := ascii_of_N 10.

Definition segNames : list string :=
  [".text:"; "CODE:"; "UPX1:"; "seg000:"; "qmoyiu:";
   ".UfPOkc:"; ".brick:"; ".icode:"; "seg001:";
   ".Much:"; "iuagwws:"; ".idata:"; ".edata:";
   ".IqR:"; ".data:"; ".bss:"; ".idata:"; ".rsrc:";
   ".tls:"; ".reloc:"; ".unpack:"; "_1:"; ".Upack:"; ".mF:"].

(** The result of [addrInCodeSegment]. The caller tests it with
    [addr is "NotInCodeSeg"], an identity test that only the literal
    returned on the last line passes: an address sliced out of the label is
    a fresh object, also when it spells the same word. *)
Inductive SegAddr :=
| NotInCodeSeg
| InCodeSeg (addr : string).

Fixpoint addrInCodeSegment_from (prefixes : list string) (seg : string) : SegAddr :=
  match prefixes with
  | [] => NotInCodeSeg
  | prefix :: rest =>
      if Py.startswith seg prefix then
        let colonIdx := Py.rfind seg ":" in
        if negb (colonIdx =? -1) then InCodeSeg (Py.slice_from (colonIdx + 1) seg)
        else InCodeSeg (Py.slice_last 8 seg)
      else addrInCodeSegment_from rest seg
  end.

Definition addrInCodeSegment (seg : string) : SegAddr :=
  addrInCodeSegment_from segNames seg.

Definition is_byte_char (a : ascii) : bool :=
  let n := N_of_ascii a in
  ((65 <=? n)%N && (n <=? 70)%N) || ((48 <=? n)%N && (n <=? 57)%N) || (n =? 63)%N.

(** [re.compile(r'^[A-F0-9?][A-F0-9?]\+?$').match]; [$] also matches
    before a final newline. *)
Definition bytePattern_match (s : string) : bool :=
  match s with
  | String a (String b r) =>
      is_byte_char a && is_byte_char b &&
      (String.eqb r "" || String.eqb r "+" ||
       String.eqb r (String LF "") || String.eqb r (String "+" (String LF "")))
  | _ => false
  end.

Section normaliser.
Context `{Imports}.

Definition appendRawBytes (addrStr byte : string) (b : Builder) : option Builder :=
  addr ← int16 addrStr;
  Some (with_addr2Bytes
          (match addr2Bytes b !! addr with
           | Some l => <[addr := l ++ [byte]]> (addr2Bytes b)
           | None => <[addr := [byte]]> (addr2Bytes b)
           end) b).

(** The [while] loop of [indexOfInst], started at index [idx]. *)
Fixpoint indexOfInst_from (decodedElems : list string) (addrStr : string)
    (idx : nat) (b : Builder) : option (nat * Builder) :=
  match decodedElems with
  | elem :: rest =>
      if bytePattern_match elem then
        b' ← appendRawBytes addrStr elem b;
        indexOfInst_from rest addrStr (S idx) b'
      else Some (idx, b)
  | [] => Some (idx, b)
  end.

Definition indexOfInst (decodedElems : list string) (addrStr : string)
    (b : Builder) : option (nat * Builder) :=
  indexOfInst_from decodedElems addrStr 0 b.

Fixpoint indexOfComment_from (decodedElems : list string) (i : nat) : nat :=
  match decodedElems with
  | elem :: rest =>
      if negb (Py.find elem ";" =? -1) then i else indexOfComment_from rest (S i)
  | [] => i
  end.

Definition indexOfComment (decodedElems : list string) : nat :=
  indexOfComment_from decodedElems 0.

(** [[x.decode("utf-8", "ignore") for x in line.split()]] for a line of
    the file, which is read as bytes. *)
Definition decoded_tokens (line : string) : list string :=
  map decode (Py.split_ws line).

(** One iteration of the loop of [extractTextSeg] over the lines of the
    listing; the state is [lineNum] and the builder. *)
Definition extractTextSeg_line (st : Z * Builder) (line : string) : option (Z * Builder) :=
  let '(lineNum, b) := st in
  match decoded_tokens line with
  | [] => Some (lineNum + 1, b)
  | seg :: decodedElems =>
      match addrInCodeSegment seg with
      | NotInCodeSeg => Some (lineNum + 1, b)
      | InCodeSeg addr =>
          '(startIdx, b1) ← indexOfInst decodedElems addr b;
          let endIdx := indexOfComment decodedElems in
          if (startIdx <? endIdx)%nat then
            let instElems := addr :: take (endIdx - startIdx) (drop startIdx decodedElems) in
            Some (lineNum + 1, with_text (od_set lineNum (Py.join " " instElems) (text b1)) b1)
          else Some (lineNum + 1, b1)
      end
  end.

Fixpoint extractTextSeg_loop (lines : list string) (st : Z * Builder) : option (Z * Builder) :=
  match lines with
  | [] => Some st
  | line :: rest => st' ← extractTextSeg_line st line; extractTextSeg_loop rest st'
  end.

Definition extractTextSeg (lines : list string) (b : Builder) : option Builder :=
  snd <$> extractTextSeg_loop lines (1, b).

Definition isHeaderInfo (sameAddrInsts : list string) : bool :=
  existsb (λ inst, Py.startswith inst "_text segment" || contains inst ".mmx")
    sameAddrInsts.

Definition appendRawString (addr : Z) (instRawStrs : list string) (b : Builder) : Builder :=
  foldl (λ b inst,
    with_addr2RawStr
      (match addr2RawStr b !! addr with
       | Some l => <[addr := l ++ [inst]]> (addr2RawStr b)
       | None => <[addr := [inst]]> (addr2RawStr b)
       end) b) b instRawStrs.

(** [re.compile(r'.+=.+ ptr .+').match]: anchored at the start only, and
    [.] does not match a newline, so the match lies within the first line
    of the string: an [=] after at least one character, then at least one
    character, then [" ptr "] followed by at least one character. *)
Fixpoint first_line (s : string) : string :=
  match s with
  | EmptyString => EmptyString
  | String a s' => if Ascii.eqb a LF then EmptyString else String a (first_line s')
  end.

Definition ptrPattern_match (s : string) : bool :=
  match first_line s with
  | EmptyString => false
  | String _ s1 =>
      let i := Py.find s1 "=" in
      if i =? -1 then false
      else
        let s2 := Py.slice_from (i + 2) s1 in
        let j := Py.find s2 " ptr " in
        negb (j =? -1) && (j + 5 <? Z.of_nat (String.length s2))
  end.

(** The lines the loop of [aggregate] drops at its first four tests. *)
Definition is_marker (inst : string) : bool :=
  (contains inst "proc near" || contains inst "proc far")
  || contains inst "public"
  || contains inst "assume"
  || (contains inst "endp" || contains inst "ends").

(** The lines it collects in [foundDataDeclare], once past those tests. *)
Definition is_data_declare (inst : string) : bool :=
  (contains inst " = " || ptrPattern_match inst)
  || (Py.startswith inst "dw " || contains inst " dw ")
  || (Py.startswith inst "dd " || contains inst " dd ")
  || (Py.startswith inst "db " || contains inst " db ")
  || (Py.startswith inst "dt " || contains inst " dt ")
  || Py.startswith inst "unicode ".

(** Body of the [for] loop of [aggregate]; the state is
    [(validInst, foundDataDeclare)]. *)
Definition aggregate_step (acc : list string * string) (inst : string)
    : list string * string :=
  if is_marker inst then acc
  else if is_data_declare inst then (acc.1, acc.2 +:+ inst +:+ " ")
  else if Py.endswith inst ":" then acc
  else (acc.1 ++ [inst], acc.2).

Definition SP : list ascii := [ascii_of_N 32].
Definition LF_BACKSLASH : list ascii := [LF; ascii_of_N 92].

Definition aggregate (addrStr : string) (sameAddrInsts : list string)
    (b : Builder) : option Builder :=
  addr ← int16 addrStr;
  let b := appendRawString addr sameAddrInsts b in
  if isHeaderInfo sameAddrInsts then
    last_inst ← last sameAddrInsts;
    Some (with_program (od_set addrStr last_inst (program b)) b)
  else
    let '(validInst, foundDataDeclare) := foldl aggregate_step ([], "") sameAddrInsts in
    match validInst with
    | [v] =>
        let progLine := v +:+ " " +:+ foundDataDeclare in
        Some (with_program (od_set addrStr (Py.rstrip SP progLine) (program b)) b)
    | _ =>
        if (0 <? String.length (Py.rstrip SP foundDataDeclare))%nat then
          Some (with_program (od_set addrStr (Py.rstrip SP foundDataDeclare) (program b)) b)
        else
          let progLine :=
            foldl (λ acc inst, acc +:+ Py.rstrip LF_BACKSLASH inst +:+ " ") "" validInst in
          Some (with_program (od_set addrStr (Py.rstrip SP progLine) (program b)) b)
    end.

(** The loop of [createProgram]; [currAddr] is [None] while it still holds
    the integer [-1], which no address string is equal to. *)
Definition createProgram_step (st : option string * list string * Builder)
    (entry : Z * string) : option (option string * list string * Builder) :=
  let '(currAddr, sameAddrInsts, b) := st in
  let elems := Py.split_on (ascii_of_N 32) entry.2 in
  let addr := hd "" elems in
  let inst := tl elems in
  match currAddr with
  | None => Some (Some addr, sameAddrInsts ++ [Py.join " " inst], b)
  | Some curr =>
      if negb (String.eqb addr curr) then
        b' ← aggregate curr sameAddrInsts b;
        Some (Some addr, [Py.join " " inst], b')
      else Some (Some addr, sameAddrInsts ++ [Py.join " " inst], b)
  end.

Fixpoint createProgram_loop (entries : list (Z * string))
    (st : option string * list string * Builder)
    : option (option string * list string * Builder) :=
  match entries with
  | [] => Some st
  | e :: rest => st' ← createProgram_step st e; createProgram_loop rest st'
  end.

Definition createProgram (b : Builder) : option Builder :=
  '(currAddr, sameAddrInsts, b') ← createProgram_loop (text b) (None, [], b);
  match sameAddrInsts, currAddr with
  | [], _ => Some b'
  | _, Some curr => aggregate curr sameAddrInsts b'
  | _, None => None
  end.

End normaliser.

(** ** Decoding pass: [buildInsts] *)

Section decoding.
Context `{Imports}.

(** Body of the loop of [buildInsts]; the state is [prevAddr] and the
    builder. *)
Definition buildInsts_step (st : Z * Builder) (entry : string * string)
    : option (Z * Builder) :=
  let '(prevAddr, b) := st in
  match createInst (entry.1 +:+ " " +:+ entry.2) with
  | None => Some (prevAddr, b)
  | Some inst =>
      insts ←
        (if negb (prevAddr =? -1)
         then od_modify prevAddr (set_size (address inst - prevAddr)) (addr2Inst b)
         else Some (addr2Inst b));
      let b1 := with_addr2Inst (od_set (address inst) inst insts) b in
      let b2 := if programStart b1 =? -1 then with_programStart (address inst) b1 else b1 in
      let b3 := with_programEnd (Z.max (address inst) (programEnd b2)) b2 in
      Some (address inst, b3)
  end.

Fixpoint buildInsts_loop (entries : list (string * string)) (st : Z * Builder)
    : option (Z * Builder) :=
  match entries with
  | [] => Some st
  | e :: rest => st' ← buildInsts_step st e; buildInsts_loop rest st'
  end.

Definition buildInsts (b : Builder) : option Builder :=
  '(prevAddr, b') ← buildInsts_loop (program b) (-1, b);
  if 0 <? prevAddr then
    insts ← od_modify prevAddr (set_size 2) (addr2Inst b');
    Some (with_addr2Inst insts b')
  else Some b'.

(** [parseInstructions] on the lines of the listing. *)
Definition parseInstructions (lines : list string) (b : Builder) : option Builder :=
  b1 ← extractTextSeg lines b;
  b2 ← createProgram b1;
  buildInsts b2.

End decoding.

(** ** Control-flow visitor: [visitInsts] and its handlers *)

Section visitor.
Context `{Imports}.

Definition addAuxilaryInst (addr : Z) (operandName : string) (b : Builder) : Builder :=
  if od_mem addr (addr2InstAux b) then b
  else
    with_addr2InstAux
      (od_set addr
         (set_fallThrough false (set_start true (newInstruction addr operandName)))
         (addr2InstAux b)) b.

Definition log_enter (kind : EnterKind) (from enterAddr : Z) (b : Builder) : Builder :=
  with_enterLog (enterLog b ++ [mkEnter kind from enterAddr]) b.

(** [enter(inst, enterAddr)], where [inst] is the object stored under the
    key [k] of [addr2Inst]. *)
Definition enter (k : Z) (enterAddr : Z) (b : Builder) : option Builder :=
  inst ← od_get k (addr2Inst b);
  if bool_decide (enterAddr = FakeCalleeAddr) then
    Some (addAuxilaryInst enterAddr "extrn_sym"
            (log_enter EnterExtern (address inst) enterAddr b))
  else if (0 <=? enterAddr) && (enterAddr <? 256) then
    Some (addAuxilaryInst enterAddr ("softirq_" +:+ Py.fmtX enterAddr)
            (log_enter EnterSoftirq (address inst) enterAddr b))
  else if negb (od_mem enterAddr (addr2Inst b)) then
    if bool_decide (operand inst ∈ ["call"; "syscall"]) then
      Some (addAuxilaryInst enterAddr "extrn_sym"
              (log_enter EnterExtern (address inst) enterAddr b))
    else
      let b1 := addAuxilaryInst InvalidAddr "invalid"
                  (log_enter EnterInvalid (address inst) enterAddr b) in
      insts ← od_modify (address inst) (set_branchTo (Some InvalidAddr)) (addr2Inst b1);
      Some (with_addr2Inst insts b1)
  else
    let b1 := log_enter EnterInst (address inst) enterAddr b in
    insts ← od_modify enterAddr (set_start true) (addr2Inst b1);
    Some (with_addr2Inst insts b1).

(** [self.addr2Inst[inst.address].field = v] *)
Definition update_own (k : Z) (f : Instruction → Instruction) (b : Builder)
    : option Builder :=
  inst ← od_get k (addr2Inst b);
  insts ← od_modify (address inst) f (addr2Inst b);
  Some (with_addr2Inst insts b).

(** [inst.address + inst.size], read from the object when the call is made. *)
Definition next_addr (k : Z) (b : Builder) : option Z :=
  inst ← od_get k (addr2Inst b);
  Some (address inst + size inst).

Definition branch (k : Z) (b : Builder) : option Builder :=
  inst ← od_get k (addr2Inst b);
  let branchToAddr := target inst in
  b1 ← update_own k (set_branchTo (Some branchToAddr)) b;
  b2 ← enter k branchToAddr b1;
  a ← next_addr k b2;
  enter k a b2.

Definition call_ (k : Z) (b : Builder) : option Builder :=
  b1 ← update_own k (set_call true) b;
  inst ← od_get k (addr2Inst b1);
  let callAddr := target inst in
  b2 ← update_own k (set_branchTo (Some callAddr)) b1;
  enter k callAddr b2.

Definition jump (k : Z) (b : Builder) : option Builder :=
  inst ← od_get k (addr2Inst b);
  let jumpAddr := target inst in
  b1 ← update_own k (set_fallThrough false) b;
  b2 ← update_own k (set_branchTo (Some jumpAddr)) b1;
  b3 ← enter k jumpAddr b2;
  a ← next_addr k b3;
  enter k a b3.

Definition end_ (k : Z) (b : Builder) : option Builder :=
  b1 ← update_own k (set_fallThrough false) b;
  a ← next_addr k b1;
  if a <=? programEnd b1 then enter k a b1 else Some b1.

(** [inst.accept(self)] *)
Definition accept (k : Z) (b : Builder) : option Builder :=
  inst ← od_get k (addr2Inst b);
  match category inst with
  | Calling => call_ k b
  | ConditionalJump => branch k b
  | UnconditionalJump => jump k b
  | EndHere => end_ k b
  | DefaultCat => Some b
  end.

(** Body of the loop of [visitInsts] for the entry under key [addr]. *)
Definition visitInsts_step (b : Builder) (addr : Z) : option Builder :=
  b1 ← accept addr b;
  insts1 ←
    match addr2Bytes b1 !! addr with
    | Some l => od_modify addr (set_bytes l) (addr2Inst b1)
    | None => Some (addr2Inst b1)
    end;
  insts2 ←
    match addr2RawStr b1 !! addr with
    | Some l => od_modify addr (set_rawStrs l) insts1
    | None => Some insts1
    end;
  Some (with_addr2Inst insts2 b1).

Fixpoint visitInsts_loop (keys : list Z) (b : Builder) : option Builder :=
  match keys with
  | [] => Some b
  | k :: rest => b' ← visitInsts_step b k; visitInsts_loop rest b'
  end.

(** The handlers change the stored objects but never the set of keys of
    [addr2Inst], so the loop runs over the keys it had at the start. *)
Definition visitInsts (b : Builder) : option Builder :=
  b' ← visitInsts_loop (map fst (addr2Inst b)) b;
  Some (with_addr2Inst (od_update (addr2Inst b') (addr2InstAux b')) b').

End visitor.

(** ** Block assembly: [getBlockAtAddr] and [connectBlocks] *)

(** The [Block] object behind the reference [ref]. *)
Definition block_at (ref : Z) (b : Builder) : Block :=
  default Block_init (addr2Block b !! ref).

Definition getBlockAtAddr (addr : Z) (b : Builder) : Builder :=
  match addr2Block b !! addr with
  | Some _ => b
  | None => with_addr2Block (<[addr := mkBlock addr addr [] []]> (addr2Block b)) b
  end.

(** [block.edgeList.append(a)] on the block behind [ref] *)
Definition append_edge (ref a : Z) (b : Builder) : Builder :=
  with_addr2Block
    (alter (λ blk, mkBlock (startAddr blk) (endAddr blk) (instList blk) (edgeList blk ++ [a]))
       ref (addr2Block b)) b.

(** The last four statements of the loop body of [connectBlocks]. *)
Definition close_inst (curr : Z) (inst : Instruction) (b : Builder) : Builder :=
  let b1 :=
    with_addr2Block
      (alter (λ blk, mkBlock (startAddr blk) (Z.max (endAddr blk) (address inst))
                       (instList blk ++ [inst]) (edgeList blk))
         curr (addr2Block b)) b in
  let currBlock := block_at curr b1 in
  with_addr2Block (<[startAddr currBlock := currBlock]> (addr2Block b1)) b1.

(** The fallthrough part of the loop body: the new builder and [nextBlock]. *)
Definition connect_fallthrough (curr addr : Z) (inst : Instruction) (b : Builder)
    : Z * Builder :=
  let nextAddr := addr + size inst in
  match od_get nextAddr (addr2Inst b) with
  | Some nextInst =>
      if fallThrough inst && start nextInst then
        let b1 := getBlockAtAddr nextAddr b in
        (nextAddr, append_edge curr (startAddr (block_at nextAddr b1)) b1)
      else (curr, b)
  | None => (curr, b)
  end.

(** The branch and call-return part of the loop body. *)
Definition connect_branch (curr : Z) (inst : Instruction) (b : Builder) : Builder :=
  match branchTo inst with
  | Some t =>
      let b1 := getBlockAtAddr t b in
      let b2 :=
        if bool_decide (startAddr (block_at t b1) ∈ edgeList (block_at curr b1)) then b1
        else append_edge curr (startAddr (block_at t b1)) b1 in
      if call inst then
        if bool_decide (startAddr (block_at curr b2) ∈ edgeList (block_at t b2)) then b2
        else append_edge t (startAddr (block_at curr b2)) b2
      else b2
  | None => b
  end.

(** Loop body of [connectBlocks]; the state is the reference [currBlock]
    ([None] before the first instruction) and the builder. *)
Definition connectBlocks_step (st : option Z * Builder) (entry : Z * Instruction)
    : option Z * Builder :=
  let '(currBlock, b) := st in
  let '(addr, inst) := entry in
  let '(curr, b1) :=
    match currBlock with
    | Some c => if start inst then (addr, getBlockAtAddr addr b) else (c, b)
    | None => (addr, getBlockAtAddr addr b)
    end in
  let '(nextBlock, b2) := connect_fallthrough curr addr inst b1 in
  let b3 := connect_branch curr inst b2 in
  (Some nextBlock, close_inst curr inst b3).

(** [sorted(self.addr2Inst.items())]: the keys are distinct, so the order
    is that of the addresses. *)
Definition key_le (x y : Z * Instruction) : Prop := x.1 ≤ y.1.

#[global] Instance key_le_dec : RelDecision key_le.
Proof. intros x y. unfold key_le. apply _. Defined.

Definition sorted_items (d : list (Z * Instruction)) : list (Z * Instruction) :=
  merge_sort key_le d.

Definition connectBlocks (b : Builder) : Builder :=
  (foldl connectBlocks_step (None, b) (sorted_items (addr2Inst b))).2.

(** ** Block features *)

Definition oneGram : list string := ["00"; "FF"; "??"].
Definition fourGram : list string :=
  ["????????"; "04000000"; "5DC30000"; "F0F0F001"; "00100000";
   "00F0F000"; "0D2F0600"; "5DC38BFF"; "8BFF558B"; "840D2F06"].

(** [{k: v for (v, k) in enumerate(l)}] *)
Definition gram2Idx (l : list string) : gmap string nat :=
  foldl (λ m vk, <[vk.2 := vk.1]> m) ∅ (imap pair l).

Definition oneGram2Idx : gmap string nat := gram2Idx oneGram.
Definition fourGram2Idx : gmap string nat := gram2Idx fourGram.

Definition LF_PLUS : list ascii := [LF; ascii_of_N 43].

Definition bytesFromInsts (blk : Block) : list string :=
  flat_map (λ inst, map (Py.rstrip LF_PLUS) (bytes inst)) (instList blk).

Definition get1gramFeatures (blk : Block) : list Z :=
  foldl (λ features byte,
           let byte := Py.rstrip LF_PLUS byte in
           match oneGram2Idx !! byte with
           | Some i => alter (λ x, x + 1) i features
           | None => features
           end)
    (replicate (length oneGram) 0) (bytesFromInsts blk).

(** The nested function [check4Gram], with the variables [window] and
    [features] of the enclosing call as arguments. *)
Definition check4Gram (window : list string) (features : list Z) : list Z :=
  let windowStr := Py.join "" window in
  match fourGram2Idx !! windowStr with
  | Some i => alter (λ x, x + 1) i features
  | None => features
  end.

(** The scan of [get4gramFeatures], for any function in the place of
    [check4Gram] and any value in the place of [features]. *)
Section scan.
Context {A : Type} (check : list string → A → A).

Definition scan4_step (st : list string * A) (byte : string) : list string * A :=
  let '(window, features) := st in
  let '(window, features) :=
    if (length window =? 4)%nat then (tail window, check window features)
    else (window, features) in
  (window ++ [byte], features).

Definition scan4 (byteList : list string) (features : A) : A :=
  let '(window, features) := foldl scan4_step ([], features) byteList in
  if (length window =? 4)%nat then check window features else features.
End scan.

Definition get4gramFeatures (blk : Block) : list Z :=
  scan4 check4Gram (bytesFromInsts blk) (replicate (length fourGram) 0).

Section features.
Context `{Imports}.

Definition instDim : nat :=
  (nOperandTypes + nOperatorTypes + length oneGram + length fourGram + nSpecialChars)%nat.

(** [instAttr += np.array(attr)] on a row of [instDim] numbers: the
    lengths must agree. The entries are counts, added here as integers. *)
Definition row_add (instAttr attr : list Z) : option (list Z) :=
  if (length attr =? length instAttr)%nat then Some (zip_with Z.add instAttr attr)
  else None.

(** Body of the loop of [getAttributes]; the state is [(instAttr, added)]. *)
Definition getAttributes_step (blk : Block) (st : list Z * bool) (inst : Instruction)
    : option (list Z * bool) :=
  let '(instAttr, added) := st in
  let attr := getOperandFeatures inst ++ getOperatorFeatures inst in
  let attr :=
    if added then attr ++ replicate (length oneGram + length fourGram) 0
    else attr ++ get1gramFeatures blk ++ get4gramFeatures blk in
  let attr := attr ++ getSpecialCharFeatures inst in
  instAttr' ← row_add instAttr attr;
  Some (instAttr', true).

Fixpoint getAttributes_loop (blk : Block) (insts : list Instruction)
    (st : list Z * bool) : option (list Z * bool) :=
  match insts with
  | [] => Some st
  | inst :: rest => st' ← getAttributes_step blk st inst; getAttributes_loop blk rest st'
  end.

Definition getAttributes (blk : Block) : option (list Z) :=
  st ← getAttributes_loop blk (instList blk) (replicate instDim 0, false);
  Some (st.1 ++ [Z.of_nat (length (edgeList blk)); Z.of_nat (length (instList blk))]).

End features.

(** ** A concrete instance of the imports, for evaluation *)

Definition hex_digit_value (a : ascii) : option Z :=
  let n := Z.of_N (N_of_ascii a) in
  if (48 <=? n) && (n <=? 57) then Some (n - 48)
  else if (65 <=? n) && (n <=? 70) then Some (n - 55)
  else if (97 <=? n) && (n <=? 102) then Some (n - 87)
  else None.

Fixpoint hex_value_from (acc : Z) (s : string) : option Z :=
  match s with
  | EmptyString => Some acc
  | String a s' => d ← hex_digit_value a; hex_value_from (16 * acc + d) s'
  end.

(** The value of [int(s, 16)] on a non-empty string of hexadecimal digits,
    which is what the addresses of the examples are; signs, the [0x]
    prefix, underscores and surrounding blanks are not covered. *)
Definition hex_value (s : string) : option Z :=
  match s with
  | EmptyString => None
  | _ => hex_value_from 0 s
  end.

(** A small stand-in for the decoder: the first field is the address, the
    second the operand, and the last one the target when it is a number. *)
Definition sample_category (op : string) : Category :=
  if String.eqb op "call" then Calling
  else if String.eqb op "jmp" then UnconditionalJump
  else if Py.startswith op "j" then ConditionalJump
  else if String.eqb op "retn" || String.eqb op "ret" then EndHere
  else DefaultCat.

Definition sample_newInstruction (addr : Z) (operandName : string) : Instruction :=
  mkInstruction addr 0 operandName DefaultCat (-2) [] [] false true None false.

Definition sample_createInst (line : string) : option Instruction :=
  match Py.split_on (ascii_of_N 32) line with
  | addrStr :: op :: operators =>
      addr ← hex_value addrStr;
      if String.eqb op "" then None
      else
        Some (mkInstruction addr 0 op (sample_category op)
                (default (-2) (last operators ≫= hex_value))
                [] [] false true None false)
  | _ => None
  end.

(** [x.decode("utf-8", "ignore")], the text written in UTF-8 again: the
    well-formed sequences of the bytes (one byte below [0x80]; two to four
    bytes with a lead byte from [0xC2] to [0xF4] and continuation bytes, no
    overlong form, no surrogate, nothing above [U+10FFFF]) are kept, every
    other byte is dropped. *)
Definition byte_value (a : ascii) : Z := Z.of_N (N_of_ascii a).

Definition in_range (lo hi : Z) (a : ascii) : bool :=
  (lo <=? byte_value a) && (byte_value a <=? hi).

(** The second byte that the lead byte [v0] of a three- or four-byte
    sequence admits. *)
Definition second_byte_ok (v0 : Z) (a : ascii) : bool :=
  if v0 =? 224 then in_range 160 191 a
  else if v0 =? 237 then in_range 128 159 a
  else if v0 =? 240 then in_range 144 191 a
  else if v0 =? 244 then in_range 128 143 a
  else in_range 128 191 a.

Fixpoint utf8_ignore (s : string) : string :=
  match s with
  | EmptyString => EmptyString
  | String b0 r =>
      let v0 := byte_value b0 in
      if v0 <? 128 then String b0 (utf8_ignore r)
      else if (194 <=? v0) && (v0 <=? 223) then
        match r with
        | String b1 r1 =>
            if in_range 128 191 b1 then String b0 (String b1 (utf8_ignore r1))
            else utf8_ignore r
        | _ => utf8_ignore r
        end
      else if (224 <=? v0) && (v0 <=? 239) then
        match r with
        | String b1 (String b2 r2) =>
            if second_byte_ok v0 b1 && in_range 128 191 b2
            then String b0 (String b1 (String b2 (utf8_ignore r2)))
            else utf8_ignore r
        | _ => utf8_ignore r
        end
      else if (240 <=? v0) && (v0 <=? 244) then
        match r with
        | String b1 (String b2 (String b3 r3)) =>
            if second_byte_ok v0 b1 && in_range 128 191 b2 && in_range 128 191 b3
            then String b0 (String b1 (String b2 (String b3 (utf8_ignore r3))))
            else utf8_ignore r
        | _ => utf8_ignore r
        end
      else utf8_ignore r
  end.

Definition sample_imports : Imports := {|
  int16 := hex_value;
  decode := utf8_ignore;
  FakeCalleeAddr := -2;
  InvalidAddr := -1;
  createInst := sample_createInst;
  newInstruction := sample_newInstruction;
  getOperandFeatures := λ i, if String.eqb (operand i) "call" then [1; 0] else [0; 1];
  getOperatorFeatures := λ i, [Z.of_nat (length (rawStrs i))];
  getSpecialCharFeatures := λ i, [0];
  nOperandTypes := 2;
  nOperatorTypes := 1;
  nSpecialChars := 1
|}.

(** ** Sample programs *)

(** An instruction as the decoder returns it and [buildInsts] sizes it. *)
Definition decoded (a sz : Z) (op : string) (c : Category) (t : Z) : Instruction :=
  mkInstruction a sz op c t [] [] false true None false.

(** [call sub_100A] at [0x1000], [nop] at [0x1005], [nop] at [0x100A]. *)
Definition call_then_fallthrough : Builder :=
  with_programEnd 4106 (with_programStart 4096
    (with_addr2Inst
       [(4096, decoded 4096 5 "call" Calling 4106);
        (4101, decoded 4101 5 "nop" DefaultCat (-2));
        (4106, decoded 4106 2 "nop" DefaultCat (-2))]
       Builder_init)).

(** [jmp 21h] at [0x1000], [nop] at [0x1002]. *)
Definition jump_to_low_address : Builder :=
  with_programEnd 4098 (with_programStart 4096
    (with_addr2Inst
       [(4096, decoded 4096 2 "jmp" UnconditionalJump 33);
        (4098, decoded 4098 2 "nop" DefaultCat (-2))]
       Builder_init)).

(** * Vocabulary of the properties *)

(** What [enter] never changes in a decoded instruction: it only writes
    [start] and [branchTo]. *)
Definition inst_stable (i i' : Instruction) : Prop :=
  address i = address i' ∧ size i = size i' ∧ operand i = operand i' ∧
  category i = category i' ∧ target i = target i' ∧
  fallThrough i = fallThrough i' ∧ call i = call i'.

Definition insts_rel (R : Instruction → Instruction → Prop)
    (d d' : list (Z * Instruction)) : Prop :=
  Forall2 (λ x y, x.1 = y.1 ∧ R x.2 y.2) d d'.

Definition is_unconditional (c : Category) : bool :=
  match c with UnconditionalJump => true | _ => false end.


(** The lines of one address that the loop of [aggregate] collects as data
    declarations, and those it keeps as instruction candidates. *)
Definition data_lines (sameAddrInsts : list string) : list string :=
  List.filter (λ inst, negb (is_marker inst) && is_data_declare inst) sameAddrInsts.

Definition valid_candidates (sameAddrInsts : list string) : list string :=
  List.filter (λ inst, negb (is_marker inst) && negb (is_data_declare inst)
                       && negb (Py.endswith inst ":")) sameAddrInsts.

(** [foundDataDeclare] after the loop: every data line followed by a blank. *)
Definition data_fragment (ds : list string) : string :=
  foldr (λ d acc, d +:+ " " +:+ acc) "" ds.

(** Two scan states that differ only in line numbers: the same builder up
    to the keys of [text], and every key below the running line number. *)
Definition text_shift (st st' : Z * Builder) : Prop :=
  ∃ t', st'.2 = with_text t' st.2 ∧
        t'.*2 = (text st.2).*2 ∧
        (∀ k, k ∈ (text st.2).*1 → k < st.1) ∧
        (∀ k, k ∈ t'.*1 → k < st'.1).

Definition blocks_keyed (m : gmap Z Block) : Prop :=
  ∀ k blk, m !! k = Some blk → startAddr blk = k.

Definition block_le (x y : Block) : Prop :=
  startAddr x = startAddr y ∧ edgeList x ⊆ edgeList y ∧ instList x ⊆ instList y.

(** Blocks are never removed, and their lists only grow. *)
Definition blocks_grow (m m' : gmap Z Block) : Prop :=
  ∀ k blk, m !! k = Some blk → ∃ blk', m' !! k = Some blk' ∧ block_le blk blk'.

Definition edge_in (m : gmap Z Block) (src dst : Z) : Prop :=
  ∃ blk, m !! src = Some blk ∧ dst ∈ edgeList blk.

(** The state the loop of [connectBlocks] keeps: every block is stored
    under its start address, and the current block is a stored one. *)
Definition assembly_inv (st : option Z * Builder) : Prop :=
  blocks_keyed (addr2Block st.2) ∧
  ∀ c, st.1 = Some c → is_Some (addr2Block st.2 !! c).

(** Both edges of a call from the block holding [inst] to the block at [t]. *)
Definition call_return_edges (m : gmap Z Block) (inst : Instruction) (t : Z) : Prop :=
  ∃ c blkC blkT,
    m !! c = Some blkC ∧ m !! t = Some blkT ∧ startAddr blkC = c ∧
    inst ∈ instList blkC ∧ t ∈ edgeList blkC ∧ c ∈ edgeList blkT.

Definition same_address (i i' : Instruction) : Prop := address i = address i'.

(** Every instruction of the index is stored under its own address, as
    [buildInsts] leaves it. *)
Definition index_keyed (d : list (Z * Instruction)) : Prop :=
  Forall (λ e, address e.2 = e.1) d.

Definition sentinel_shape (i : Instruction) : Prop :=
  start i = true ∧ fallThrough i = false ∧ branchTo i = None.

Definition aux_ok (d : list (Z * Instruction)) : Prop :=
  Forall (λ e, sentinel_shape e.2) d ∧ NoDup d.*1.

(** What a handler may do to the builder. *)
Definition visit_rel (b b' : Builder) : Prop :=
  insts_rel same_address (addr2Inst b) (addr2Inst b') ∧
  (aux_ok (addr2InstAux b) → aux_ok (addr2InstAux b')).

Definition visit_pre (k : Z) (b : Builder) : Prop :=
  index_keyed (addr2Inst b) ∧ is_Some (od_get k (addr2Inst b)).

(** The consecutive windows of four tokens of a token stream, first to
    last: one for every start index [0 .. n - 4]. *)
Definition windows4 (l : list string) : list (list string) :=
  map (λ i, take 4 (drop i l)) (seq 0 (length l - 3)).

(** Column-wise sum of rows of [n] numbers. *)
Definition col_sum (n : nat) (rows : list (list Z)) : list Z :=
  foldl (zip_with Z.add) (replicate n 0) rows.

Section vocabulary.
Context `{Imports}.

(** The result of the normaliser that later passes read. *)
Definition normalise (lines : list string)
    : option (list (string * string) * gmap Z (list string) * gmap Z (list string)) :=
  b1 ← extractTextSeg lines Builder_init;
  b2 ← createProgram b1;
  Some (program b2, addr2Bytes b2, addr2RawStr b2).

(** The feature methods return rows of the class dimensions. *)
Definition features_sized (inst : Instruction) : Prop :=
  length (getOperandFeatures inst) = nOperandTypes ∧
  length (getOperatorFeatures inst) = nOperatorTypes ∧
  length (getSpecialCharFeatures inst) = nSpecialChars.

End vocabulary.

(** ** Vocabulary of the further properties of block assembly *)

(** Every entry of every edge list is the key of a stored block. *)
Definition edges_closed (m : gmap Z Block) : Prop :=
  ∀ k blk a, m !! k = Some blk → a ∈ edgeList blk → is_Some (m !! a).

(** [endAddr] is not below [startAddr] and not below the address of any
    instruction of the block. *)
Definition block_bounded (blk : Block) : Prop :=
  startAddr blk ≤ endAddr blk ∧
  Forall (λ i, address i ≤ endAddr blk) (instList blk).

Definition blocks_wf (m : gmap Z Block) : Prop :=
  blocks_keyed m ∧ edges_closed m ∧ ∀ k blk, m !! k = Some blk → block_bounded blk.

Definition edges_nodup (m : gmap Z Block) : Prop :=
  ∀ k blk, m !! k = Some blk → NoDup (edgeList blk).

(** The instruction [inst], stored under [addr] in the index [idx], has
    been put into a block of [m], together with the edges it asks for. *)
Definition placed (idx : list (Z * Instruction)) (m : gmap Z Block)
    (addr : Z) (inst : Instruction) : Prop :=
  ∃ c blk,
    m !! c = Some blk ∧ startAddr blk = c ∧ inst ∈ instList blk ∧
    (start inst = true → c = addr) ∧
    (∀ t, branchTo inst = Some t → t ∈ edgeList blk ∧ is_Some (m !! t)) ∧
    (∀ nextInst, fallThrough inst = true →
       od_get (addr + size inst) idx = Some nextInst → start nextInst = true →
       (addr + size inst) ∈ edgeList blk ∧ is_Some (m !! (addr + size inst))).

(** No instruction of the index falls through into a block start. *)
Definition no_fallthrough_edge (idx : list (Z * Instruction)) : Prop :=
  ∀ addr inst nextInst,
    (addr, inst) ∈ idx → fallThrough inst = true →
    od_get (addr + size inst) idx = Some nextInst → start nextInst = false.

(** ** Vocabulary of the further properties of the features *)

(** How often the string [g] occurs in a list of strings. *)
Definition count_of (g : string) (l : list string) : Z :=
  Z.of_nat (length (filter (λ w, w = g) l)).

Section feature_dimensions.
Context `{Imports}.

(** The class attribute [Block.vertexTypes] and [Block.getAttributesDim]. *)
Definition vertexTypes : list (string * nat) :=
  [("degree", instDim); ("num_inst", S instDim)].

Definition getAttributesDim : nat := (instDim + length vertexTypes)%nat.

(** The row [attr] that [getAttributes] builds for [inst] has [instDim]
    entries. *)
Definition row_sized (inst : Instruction) : Prop :=
  (length (getOperandFeatures inst) + length (getOperatorFeatures inst)
   + length oneGram + length fourGram + length (getSpecialCharFeatures inst))%nat
  = instDim.

End feature_dimensions.

(** ** Vocabulary of the further properties of the normaliser *)

(** A string without its last character. *)
Fixpoint string_init (s : string) : string :=
  match s with
  | EmptyString => EmptyString
  | String c EmptyString => EmptyString
  | String c r => String c (string_init r)
  end.

(** The leading raw-byte tokens of the tokens of a line. *)
Fixpoint byte_prefix (l : list string) : list string :=
  match l with
  | x :: r => if bytePattern_match x then x :: byte_prefix r else []
  | [] => []
  end.

(** No character of the string is a blank. *)
Fixpoint no_blank (s : string) : bool :=
  match s with
  | EmptyString => true
  | String c r => negb (Ascii.eqb c " ") && no_blank r
  end.

(** The address and the instruction text that [createProgram] reads off an
    entry of [text]. *)
Definition parse_text_line (line : string) : string * string :=
  let elems := Py.split_on (ascii_of_N 32) line in
  (hd "" elems, Py.join " " (tl elems)).

(** The text that [aggregate] stores for the lines of one address. *)
Definition aggregate_text (sameAddrInsts : list string) : option string :=
  if isHeaderInfo sameAddrInsts then last sameAddrInsts
  else
    Some match valid_candidates sameAddrInsts with
         | [v] => Py.rstrip SP (Py.join " " (v :: data_lines sameAddrInsts))
         | vs =>
             match data_lines sameAddrInsts with
             | [] => Py.rstrip SP (Py.join " " (map (Py.rstrip LF_BACKSLASH) vs))
             | ds => Py.rstrip SP (Py.join " " ds)
             end
         end.

(** The string has a character that is no blank. *)
Definition nonblank (s : string) : Prop := Py.rstrip SP s ≠ "".

(** Maximal runs of consecutive entries with the same address. *)
Fixpoint runs_from (curr : string) (acc : list string) (es : list (string * string))
    : list (string * list string) :=
  match es with
  | [] => [(curr, acc)]
  | (a, i) :: r =>
      if String.eqb a curr then runs_from curr (acc ++ [i]) r
      else (curr, acc) :: runs_from a [i] r
  end.

Definition runs (es : list (string * string)) : list (string * list string) :=
  match es with
  | [] => []
  | (a, i) :: r => runs_from a [i] r
  end.

Section aggregate_runs.
Context `{Imports}.

(** [aggregate] on a list of runs, first to last, stopping at the first
    one that fails. *)
Fixpoint aggregate_all (rs : list (string * list string)) (b : Builder)
    : option Builder :=
  match rs with
  | [] => Some b
  | (a, l) :: rest => b' ← aggregate a l b; aggregate_all rest b'
  end.

End aggregate_runs.

(** The text of the last run with address [a], or [old] when there is
    none. *)
Definition last_run_text (a : string) (old : option string)
    (rs : list (string * list string)) : option string :=
  foldl (λ acc r, if String.eqb r.1 a then aggregate_text r.2 else acc) old rs.

(** ** Vocabulary of the further properties of the decoding pass *)

(** The instructions with the size of each one but the last set to the
    distance to the next one; [fin] is what happens to the last. *)
Fixpoint gaps (fin : Instruction → Instruction) (l : list Instruction)
    : list (Z * Instruction) :=
  match l with
  | [] => []
  | i :: r =>
      (address i,
       match r with
       | [] => fin i
       | j :: _ => set_size (address j - address i) i
       end) :: gaps fin r
  end.

Section accepted_instructions.
Context `{Imports}.

(** The instructions the decoder accepts, in the order of the program. *)
Definition accepted (prog : list (string * string)) : list Instruction :=
  omap (λ e, createInst (e.1 +:+ " " +:+ e.2)) prog.

End accepted_instructions.

(** ** The second pass *)

Section passes.
Context `{Imports}.

(** [parseBlocks] *)
Definition parseBlocks (b : Builder) : option Builder :=
  b1 ← visitInsts b;
  Some (connectBlocks b1).

(** [buildControlFlowGraph] on the lines of the listing. *)
Definition buildControlFlowGraph (lines : list string) (b : Builder) : option Builder :=
  b1 ← parseInstructions lines b;
  parseBlocks b1.

End passes.

(** ** Vocabulary of the further properties of the visitor *)

(** An instruction without the two marks [enter] writes. *)
Definition erase (i : Instruction) : Instruction :=
  set_start false (set_branchTo None i).

(** Every instruction that a lookup finds has the looked-up address. *)
Definition get_keyed (d : list (Z * Instruction)) : Prop :=
  ∀ k i, od_get k d = Some i → address i = k.

Definition index_rel (R : Z → Instruction → Instruction → Prop)
    (d d' : list (Z * Instruction)) : Prop :=
  ∀ k, option_Forall2 (R k) (od_get k d) (od_get k d').

(** The entry under [k0] gets the writes [f], up to the two marks; any other
    entry changes in its marks only; [start] is never cleared. *)
Definition writes (k0 : Z) (f : Instruction → Instruction) (k : Z)
    (i i' : Instruction) : Prop :=
  erase i' = erase (if decide (k = k0) then f i else i) ∧
  (start i = true → start i' = true).

Definition erase_compat (g : Instruction → Instruction) : Prop :=
  ∀ i i', erase i = erase i' → erase (g i) = erase (g i').

(** What a handler working on the instruction under [k0] does to the
    builder. *)
Definition handler_rel (k0 : Z) (f : Instruction → Instruction) (b b' : Builder) : Prop :=
  index_rel (writes k0 f) (addr2Inst b) (addr2Inst b') ∧
  addr2Bytes b' = addr2Bytes b ∧ addr2RawStr b' = addr2RawStr b ∧
  programEnd b' = programEnd b ∧ addr2Block b' = addr2Block b.

Definition handler_pre (k : Z) (b : Builder) : Prop :=
  get_keyed (addr2Inst b) ∧ is_Some (od_get k (addr2Inst b)).

(** What the handler of an instruction writes besides the marks. *)
Definition handler_writes (i : Instruction) : Instruction :=
  match category i with
  | Calling => set_call true i
  | UnconditionalJump | EndHere => set_fallThrough false i
  | ConditionalJump | DefaultCat => i
  end.

(** The raw bytes and raw strings of the address [k], where there are any. *)
Definition attach (b : Builder) (k : Z) (i : Instruction) : Instruction :=
  let i1 := match addr2Bytes b !! k with Some l => set_bytes l i | None => i end in
  match addr2RawStr b !! k with Some l => set_rawStrs l i1 | None => i1 end.

(** The addresses the handler of an instruction passes to [enter]. *)
Definition entered (pEnd : Z) (i : Instruction) : list Z :=
  match category i with
  | Calling => [target i]
  | ConditionalJump | UnconditionalJump => [target i; address i + size i]
  | EndHere => if address i + size i <=? pEnd then [address i + size i] else []
  | DefaultCat => []
  end.

(** The instruction at [a] is marked as a block start. *)
Definition started (d : list (Z * Instruction)) (a : Z) : Prop :=
  ∃ t, od_get a d = Some t ∧ start t = true.

Section resolved_targets.
Context `{Imports}.

(** An address for which [enter] reaches its last branch: not the fake
    callee, not a software interrupt number, and decoded. *)
Definition resolved (d : list (Z * Instruction)) (a : Z) : Prop :=
  a ≠ FakeCalleeAddr ∧ ¬ (0 ≤ a < 256) ∧ is_Some (od_get a d).

End resolved_targets.

(** The state of the loop of [visitInsts] after the keys [V]. *)
Definition visited_writes (b0 : Builder) (V : list Z) (k : Z)
    (i i' : Instruction) : Prop :=
  erase i' = erase (if decide (k ∈ V) then attach b0 k (handler_writes i) else i) ∧
  (start i = true → start i' = true).

(** The fields that only the decoding pass and the second pass write. *)
Definition second_pass_fields (b : Builder)
    : list (Z * Instruction) * list (Z * Instruction) * gmap Z Block * Z * Z :=
  (addr2Inst b, addr2InstAux b, addr2Block b, programStart b, programEnd b).

Section text_entries.
Context `{Imports}.

(** The entry [(k, s)] of [text] comes from line number [k] of the
    listing: a line whose decoded label is of a listed segment, of which
    [s] keeps the address and some of the decoded tokens after the label. *)
Definition text_entry_of (lines : list string) (k : Z) (s : string) : Prop :=
  ∃ line seg elems a rest,
    1 ≤ k ∧ lines !! Z.to_nat (k - 1) = Some line ∧
    decoded_tokens line = seg :: elems ∧
    addrInCodeSegment seg = InCodeSeg a ∧
    rest ≠ [] ∧ rest `sublist_of` elems ∧
    s = Py.join " " (a :: rest).

End text_entries.

(** * Properties *)

(** ** Ordered dictionaries *)

Section odict_facts.
Context {K V : Type} `{EqDecision K}.
Implicit Types (d : list (K * V)) (k : K) (v : V).

Lemma od_get_set_eq k v d : od_get k (od_set k v d) = Some v.
Proof.
  induction d as [|[k' v'] d IH]; simpl.
  - by rewrite decide_True.
  - destruct (decide (k = k')) as [->|Hne]; simpl.
    + by rewrite decide_True.
    + by rewrite decide_False.
Qed.

Lemma od_get_set_ne k k' v d : k ≠ k' → od_get k' (od_set k v d) = od_get k' d.
Proof.
  intros Hne. induction d as [|[k0 v0] d IH]; simpl.
  - by rewrite decide_False.
  - destruct (decide (k = k0)) as [->|Hne0]; simpl.
    + by rewrite !decide_False.
    + by rewrite IH.
Qed.

Lemma od_get_set k k' v d :
  od_get k' (od_set k v d) = if decide (k = k') then Some v else od_get k' d.
Proof.
  destruct (decide (k = k')) as [->|?];
    [apply od_get_set_eq | by apply od_get_set_ne].
Qed.

Lemma od_mem_true k d : od_mem k d = true ↔ is_Some (od_get k d).
Proof.
  unfold od_mem. destruct (od_get k d); split; intros Hx; eauto.
  - discriminate.
  - by destruct Hx.
Qed.

Lemma od_mem_false k d : od_mem k d = false ↔ od_get k d = None.
Proof. unfold od_mem. destruct (od_get k d); split; congruence. Qed.

Lemma od_get_elem_of k v d : od_get k d = Some v → (k, v) ∈ d.
Proof.
  induction d as [|[k' v'] d IH]; simpl; [done|].
  destruct (decide (k = k')) as [->|?].
  - intros [= ->]. left.
  - intros Hg. right. auto.
Qed.

Lemma od_get_None_fst k d : od_get k d = None ↔ k ∉ d.*1.
Proof.
  induction d as [|[k' v'] d IH]; simpl.
  - split; [intros _; apply not_elem_of_nil | done].
  - destruct (decide (k = k')) as [->|Hne].
    + split; [done|]. intros Hn. exfalso. apply Hn. left.
    + rewrite IH. split.
      * intros Hn Hin. apply elem_of_cons in Hin as [?|?]; [done | by apply Hn].
      * intros Hn Hin. apply Hn. by right.
Qed.

(** Setting a key that is present changes one value and no key. *)
Lemma od_set_pointwise (R : V → V → Prop) k v v0 d :
  (∀ x, R x x) → od_get k d = Some v0 → R v0 v →
  Forall2 (λ x y, x.1 = y.1 ∧ R x.2 y.2) d (od_set k v d).
Proof.
  intros Hrefl. induction d as [|[k' v'] d IH]; simpl; [done|].
  destruct (decide (k = k')) as [->|Hne].
  - intros [= ->] HR. constructor; [done|].
    apply Forall_Forall2_diag, Forall_forall. intros; split; auto.
  - intros Hg HR. constructor; [by split | auto].
Qed.

Lemma od_modify_pointwise (R : V → V → Prop) k f d d' :
  (∀ x, R x x) → (∀ x, R x (f x)) → od_modify k f d = Some d' →
  Forall2 (λ x y, x.1 = y.1 ∧ R x.2 y.2) d d'.
Proof.
  intros Hrefl Hf. unfold od_modify.
  destruct (od_get k d) as [v|] eqn:Hg; [|done].
  intros [= <-]. eapply od_set_pointwise; eauto.
Qed.

Lemma od_pointwise_get (R : V → V → Prop) d d' k :
  Forall2 (λ x y, x.1 = y.1 ∧ R x.2 y.2) d d' →
  option_Forall2 R (od_get k d) (od_get k d').
Proof.
  induction 1 as [|[k1 v1] [k2 v2] d d' [Hk HR] _ IH]; simpl in *; [constructor|].
  subst k2. destruct (decide (k = k1)); [by constructor | done].
Qed.

Lemma od_pointwise_keys (R : V → V → Prop) d d' :
  Forall2 (λ x y, x.1 = y.1 ∧ R x.2 y.2) d d' → d.*1 = d'.*1.
Proof.
  induction 1 as [|[k1 v1] [k2 v2] d d' [Hk HR] _ IH]; csimpl in *; [done|].
  by f_equal.
Qed.

Lemma od_modify_is_Some k f d :
  is_Some (od_get k d) → is_Some (od_modify k f d).
Proof. intros [v Hv]. unfold od_modify. rewrite Hv. eauto. Qed.

Lemma od_modify_get k k' f d d' :
  od_modify k f d = Some d' →
  od_get k' d' = if decide (k = k') then f <$> od_get k d else od_get k' d.
Proof.
  unfold od_modify. destruct (od_get k d) as [v|] eqn:Hg; [|done].
  intros [= <-]. rewrite od_get_set. by destruct (decide (k = k')).
Qed.

End odict_facts.

(** ** The control-flow visitor *)

Lemma inst_stable_refl i : inst_stable i i.
Proof. by repeat split. Qed.

Lemma od_set_set {K V : Type} `{EqDecision K} (k : K) (v v' : V) d :
  od_set k v (od_set k v' d) = od_set k v d.
Proof.
  induction d as [|[k0 v0] d IH]; simpl.
  - by rewrite decide_True.
  - destruct (decide (k = k0)) as [->|?]; simpl.
    + by rewrite decide_True.
    + rewrite decide_False by done. by rewrite IH.
Qed.

Lemma with_addr2Inst_twice v v' b :
  with_addr2Inst v (with_addr2Inst v' b) = with_addr2Inst v b.
Proof. reflexivity. Qed.

Section visitor_facts.
Context `{Imports}.

Lemma addAuxilaryInst_addr2Inst a n b :
  addr2Inst (addAuxilaryInst a n b) = addr2Inst b.
Proof. unfold addAuxilaryInst. by destruct (od_mem a (addr2InstAux b)). Qed.

Lemma addAuxilaryInst_enterLog a n b :
  enterLog (addAuxilaryInst a n b) = enterLog b.
Proof. unfold addAuxilaryInst. by destruct (od_mem a (addr2InstAux b)). Qed.


Lemma addAuxilaryInst_mem a n b :
  od_mem a (addr2InstAux (addAuxilaryInst a n b)) = true.
Proof.
  unfold addAuxilaryInst. destruct (od_mem a (addr2InstAux b)) eqn:Hm; [done|].
  simpl. apply od_mem_true. rewrite od_get_set_eq. eauto.
Qed.



Lemma getBlockAtAddr_lookup a b :
  is_Some (addr2Block (getBlockAtAddr a b) !! a).
Proof.
  unfold getBlockAtAddr. destruct (addr2Block b !! a) eqn:Hl; [eauto|].
  simpl. rewrite lookup_insert_eq. eauto.
Qed.


(** [enter] always returns when called for a stored instruction whose
    [address] is a key of the index; it writes one record and leaves
    everything but [start] and [branchTo] as it was. *)
Lemma enter_spec k a b inst :
  od_get k (addr2Inst b) = Some inst →
  is_Some (od_get (address inst) (addr2Inst b)) →
  ∃ kind b',
    enter k a b = Some b' ∧
    enterLog b' = enterLog b ++ [mkEnter kind (address inst) a] ∧
    insts_rel inst_stable (addr2Inst b) (addr2Inst b').
Proof.
  intros Hk Haddr. unfold enter. rewrite Hk. simpl.
  assert (Hrefl : insts_rel inst_stable (addr2Inst b) (addr2Inst b)).
  { apply Forall_Forall2_diag, Forall_forall. intros; split; auto using inst_stable_refl. }
  case_bool_decide.
  { eexists _, _. split; [done|].
    by rewrite addAuxilaryInst_enterLog, addAuxilaryInst_addr2Inst. }
  destruct ((0 <=? a) && (a <? 256)).
  { eexists _, _. split; [done|].
    by rewrite addAuxilaryInst_enterLog, addAuxilaryInst_addr2Inst. }
  destruct (od_mem a (addr2Inst b)) eqn:Hmem; simpl.
  - apply od_mem_true in Hmem.
    destruct (od_modify_is_Some a (set_start true) (addr2Inst b) Hmem) as [d' Hd'].
    rewrite Hd'. simpl. eexists _, _. split; [done|]. simpl. split; [done|].
    eapply od_modify_pointwise; [apply inst_stable_refl | | done].
    intros x. by repeat split.
  - case_bool_decide.
    { eexists _, _. split; [done|].
      by rewrite addAuxilaryInst_enterLog, addAuxilaryInst_addr2Inst. }
    rewrite addAuxilaryInst_addr2Inst. simpl.
    destruct (od_modify_is_Some (address inst) (set_branchTo (Some InvalidAddr))
                (addr2Inst b) Haddr) as [d' Hd'].
    rewrite Hd'. simpl. eexists _, _. split; [done|]. simpl.
    rewrite addAuxilaryInst_enterLog. split; [done|].
    eapply od_modify_pointwise; [apply inst_stable_refl | | done].
    intros x. by repeat split.
Qed.

End visitor_facts.

Section visitor_claims.
Context `{Imports}.



(** Two calls of [enter] in a row for the instruction stored under its own
    address: on [t], then on the address plus the size. *)
Lemma two_enters (b1 : Builder) (k t : Z) (inst1 : Instruction) :
  od_get k (addr2Inst b1) = Some inst1 →
  address inst1 = k →
  ∃ b2 b' e1 e2,
    enter k t b1 = Some b2 ∧
    next_addr k b2 = Some (k + size inst1) ∧
    enter k (k + size inst1) b2 = Some b' ∧
    enterLog b' = enterLog b1 ++ [e1; e2] ∧
    (enter_from e1 = k ∧ enter_addr e1 = t) ∧
    (enter_from e2 = k ∧ enter_addr e2 = k + size inst1) ∧
    fallThrough <$> od_get k (addr2Inst b') = Some (fallThrough inst1).
Proof.
  intros Hk1 Ha1. subst k.
  destruct (enter_spec (address inst1) t b1 inst1 Hk1)
    as (kind1 & b2 & He1 & Hlog1 & Hrel1).
  { rewrite Hk1. eauto. }
  pose proof (od_pointwise_get inst_stable _ _ (address inst1) Hrel1) as Hst1.
  rewrite Hk1 in Hst1. inversion Hst1 as [? inst2 Hs12 Heq1 Hk2|].
  symmetry in Hk2. destruct Hs12 as (Ha2 & Hsz2 & _ & _ & _ & Hft2 & _).
  destruct (enter_spec (address inst1) (address inst1 + size inst1) b2 inst2 Hk2)
    as (kind2 & b' & He2 & Hlog2 & Hrel2).
  { rewrite <- Ha2, Hk2. eauto. }
  pose proof (od_pointwise_get inst_stable _ _ (address inst1) Hrel2) as Hst2.
  rewrite Hk2 in Hst2. inversion Hst2 as [? inst3 Hs23 Heq2 Hk3|].
  destruct Hs23 as (Ha3 & _ & _ & _ & _ & Hft3 & _).
  exists b2, b', (mkEnter kind1 (address inst1) t),
    (mkEnter kind2 (address inst2) (address inst1 + size inst1)).
  split; [done|]. split.
  { unfold next_addr. rewrite Hk2. simpl. by rewrite <- Ha2, <- Hsz2. }
  split; [done|]. split.
  { rewrite Hlog2, Hlog1. by rewrite <- app_assoc. }
  split; [done|]. split; [by rewrite <- Ha2|].
  rewrite <- Hk3. simpl. by rewrite <- Hft3, <- Hft2.
Qed.

(** C6. Visiting a conditional or an unconditional jump first records the
    branch target (an unconditional jump also clears its own [fallThrough])
    and then calls [enter] exactly twice: on the branch target and on the
    instruction's address plus its size. Both calls return, each adds one
    record, and the instruction's [fallThrough] is afterwards what it was for
    a conditional jump and [false] for an unconditional one. *)
Theorem jumps_enter_twice (b : Builder) (k : Z) (inst : Instruction) :
  od_get k (addr2Inst b) = Some inst →
  address inst = k →
  category inst = ConditionalJump ∨ category inst = UnconditionalJump →
  let inst1 :=
    set_branchTo (Some (target inst))
      (if is_unconditional (category inst) then set_fallThrough false inst else inst) in
  let b1 := with_addr2Inst (od_set k inst1 (addr2Inst b)) b in
  ∃ b2 b' e1 e2,
    accept k b = Some b' ∧
    enter k (target inst) b1 = Some b2 ∧
    enter k (k + size inst) b2 = Some b' ∧
    enterLog b' = enterLog b ++ [e1; e2] ∧
    (enter_from e1 = k ∧ enter_addr e1 = target inst) ∧
    (enter_from e2 = k ∧ enter_addr e2 = k + size inst) ∧
    fallThrough <$> od_get k (addr2Inst b') =
      Some (if is_unconditional (category inst) then false else fallThrough inst).
Proof.
  intros Hk Haddr Hcat inst1 b1. subst k.
  assert (Hk1 : od_get (address inst) (addr2Inst b1) = Some inst1) by apply od_get_set_eq.
  assert (Ha1 : address inst1 = address inst)
    by (unfold inst1; by destruct (is_unconditional _)).
  assert (Hs1 : size inst1 = size inst)
    by (unfold inst1; by destruct (is_unconditional _)).
  destruct (two_enters b1 (address inst) (target inst) inst1 Hk1 Ha1)
    as (b2 & b' & e1 & e2 & He1 & Hnext & He2 & Hlog & Hrec1 & Hrec2 & Hft).
  rewrite Hs1 in *.
  exists b2, b', e1, e2. split.
  { unfold accept. rewrite Hk. simpl. destruct Hcat as [Hc|Hc]; rewrite Hc.
    - unfold branch, update_own, od_modify. rewrite Hk. simpl. rewrite Hk. simpl.
      subst inst1 b1. rewrite Hc in *. simpl in *.
      rewrite He1. simpl. rewrite Hnext. simpl. done.
    - unfold jump, update_own, od_modify. rewrite Hk. simpl. rewrite Hk. simpl.
      rewrite od_get_set_eq. simpl. rewrite od_get_set_eq. simpl.
      rewrite od_set_set, with_addr2Inst_twice.
      subst inst1 b1. rewrite Hc in *. simpl in *.
      rewrite He1. simpl. rewrite Hnext. simpl. done. }
  split; [done|]. split; [done|]. split; [done|]. split; [done|]. split; [done|].
  rewrite Hft. unfold inst1. by destruct (is_unconditional _).
Qed.

End visitor_claims.

(** ** The listing normaliser *)

Lemma string_app_assoc (s1 s2 s3 : string) : (s1 +:+ s2) +:+ s3 = s1 +:+ s2 +:+ s3.
Proof.
  induction s1 as [|c s1 IH]; [done|].
  change (String c ((s1 +:+ s2) +:+ s3) = String c (s1 +:+ s2 +:+ s3)).
  by f_equal.
Qed.

Lemma string_app_empty_r (s : string) : s +:+ "" = s.
Proof.
  induction s as [|c s IH]; [done|].
  change (String c (s +:+ "") = String c s). by f_equal.
Qed.

Lemma rstrip_app_space (s : string) : Py.rstrip SP (s +:+ " ") = Py.rstrip SP s.
Proof.
  induction s as [|c s IH]; [done|].
  change (String c s +:+ " ") with (String c (s +:+ " ")).
  simpl. by rewrite IH.
Qed.

Lemma data_fragment_join (ds : list string) :
  ds ≠ [] → data_fragment ds = Py.join " " ds +:+ " ".
Proof.
  induction ds as [|d ds IH]; [done|]. intros _.
  destruct ds as [|d' ds]; [done|].
  change (data_fragment (d :: d' :: ds))
    with (d +:+ " " +:+ data_fragment (d' :: ds)).
  change (Py.join " " (d :: d' :: ds)) with (d +:+ " " +:+ Py.join " " (d' :: ds)).
  rewrite IH by done. by rewrite !string_app_assoc.
Qed.

Lemma rstrip_data_fragment (ds : list string) :
  Py.rstrip SP (data_fragment ds) = Py.rstrip SP (Py.join " " ds).
Proof.
  destruct ds as [|d ds]; [done|].
  rewrite data_fragment_join by done. apply rstrip_app_space.
Qed.

Lemma aggregate_loop_result (sameAddrInsts valid : list string) (found : string) :
  foldl aggregate_step (valid, found) sameAddrInsts =
  (valid ++ valid_candidates sameAddrInsts,
   found +:+ data_fragment (data_lines sameAddrInsts)).
Proof.
  revert valid found.
  induction sameAddrInsts as [|inst l IH]; intros valid found; simpl.
  - by rewrite app_nil_r, string_app_empty_r.
  - change (foldl aggregate_step (valid, found) (inst :: l))
      with (foldl aggregate_step (aggregate_step (valid, found) inst) l).
    destruct (aggregate_step (valid, found) inst) as [valid' found'] eqn:Hstep.
    rewrite IH. unfold aggregate_step in Hstep.
    unfold data_lines, valid_candidates. simpl.
    destruct (is_marker inst); simpl in *; [by simplify_eq|].
    destruct (is_data_declare inst); simpl in *.
    { simplify_eq. by rewrite !string_app_assoc. }
    destruct (Py.endswith inst ":"); simpl; simplify_eq; [done|].
    by rewrite <- app_assoc.
Qed.

Section normaliser_claims.
Context `{Imports}.

(** C7, as the code has it. When the address parses, no line of the
    address is header information (the test [aggregate] makes first) and
    the loop leaves no instruction candidate, the text stored for the
    address is the data-declaration lines, in order, joined by single blanks,
    with trailing blanks stripped. *)
Theorem aggregate_data_declarations (b : Builder) (addrStr : string) (addr : Z)
    (sameAddrInsts : list string) :
  int16 addrStr = Some addr →
  isHeaderInfo sameAddrInsts = false →
  valid_candidates sameAddrInsts = [] →
  ∃ b', aggregate addrStr sameAddrInsts b = Some b' ∧
        od_get addrStr (program b') =
          Some (Py.rstrip SP (Py.join " " (data_lines sameAddrInsts))).
Proof.
  intros Hint Hhead Hvalid. unfold aggregate. rewrite Hint. simpl.
  rewrite Hhead, aggregate_loop_result, Hvalid. simpl.
  rewrite <- rstrip_data_fragment.
  change ("" +:+ data_fragment (data_lines sameAddrInsts))
    with (data_fragment (data_lines sameAddrInsts)).
  destruct (0 <? _)%nat eqn:Hlen.
  - eexists. split; [done|]. simpl. apply od_get_set_eq.
  - eexists. split; [done|]. simpl. rewrite od_get_set_eq. f_equal.
    apply Nat.ltb_ge in Hlen.
    destruct (Py.rstrip SP (data_fragment (data_lines sameAddrInsts))); [done|].
    simpl in Hlen. lia.
Qed.

End normaliser_claims.

(** The scenario of the specification: [dd 1] and [dd 2] at one address. *)
Lemma aggregate_data_declarations_witness :
  int16 (Imports := sample_imports) "00401002" = Some 4198402 ∧
  isHeaderInfo ["dd 1"; "dd 2"] = false ∧
  valid_candidates ["dd 1"; "dd 2"] = [] ∧
  ∃ b', aggregate (H := sample_imports) "00401002" ["dd 1"; "dd 2"] Builder_init = Some b' ∧
        od_get "00401002" (program b') = Some "dd 1 dd 2".
Proof.
  split; [reflexivity|]. split; [reflexivity|]. split; [reflexivity|].
  apply (aggregate_data_declarations (H := sample_imports) Builder_init
           "00401002" 4198402 ["dd 1"; "dd 2"]); reflexivity.
Defined.

(** C7, as stated, fails on a group with header information: here no
    instruction candidate remains and there are three data-declaration
    lines, but the second line starts with [_text segment], so [aggregate]
    returns at its header test and stores the last line alone. *)
Lemma header_group_stores_last_line :
  let l := ["dd 1"; "_text segment para public 'CODE' use32"; "dd 2"; "dd 3"] in
  isHeaderInfo l = true ∧
  valid_candidates l = [] ∧
  data_lines l = ["dd 1"; "dd 2"; "dd 3"] ∧
  ∃ b', aggregate (H := sample_imports) "00401002" l Builder_init = Some b' ∧
        od_get "00401002" (program b') = Some "dd 3" ∧
        od_get "00401002" (program b') ≠
          Some (Py.rstrip SP (Py.join " " (data_lines l))).
Proof.
  intros l. split; [reflexivity|]. split; [reflexivity|]. split; [reflexivity|].
  eexists. split; [reflexivity|]. split; [reflexivity|].
  vm_compute. discriminate.
Qed.

(** *** Lines outside the listed segments *)

Lemma od_set_fresh {K V : Type} `{EqDecision K} (k : K) (v : V) d :
  k ∉ d.*1 → od_set k v d = d ++ [(k, v)].
Proof.
  induction d as [|[k0 v0] d IH]; csimpl; [done|].
  intros Hn. rewrite decide_False.
  - rewrite IH; [done|]. intros Hin. apply Hn. by right.
  - intros ->. apply Hn. left.
Qed.

Lemma with_text_id b : with_text (text b) b = b.
Proof. by destruct b. Qed.

Section normaliser_frame.
Context `{Imports}.

Lemma indexOfInst_from_frame l a i t b :
  indexOfInst_from l a i (with_text t b) =
  (λ r, (r.1, with_text t r.2)) <$> indexOfInst_from l a i b.
Proof.
  revert i b. induction l as [|x l IH]; intros i b; simpl; [done|].
  destruct (bytePattern_match x); [|done].
  unfold appendRawBytes. simpl. destruct (int16 a) as [addr|]; simpl; [|done].
  apply (IH (S i)
    (with_addr2Bytes
       match addr2Bytes b !! addr with
       | Some l0 => <[addr:=l0 ++ [x]]> (addr2Bytes b)
       | None => <[addr:=[x]]> (addr2Bytes b)
       end b)).
Qed.

Lemma indexOfInst_from_text l a i b j b' :
  indexOfInst_from l a i b = Some (j, b') → text b' = text b.
Proof.
  revert i b. induction l as [|x l IH]; intros i b; simpl.
  - by intros [= _ <-].
  - destruct (bytePattern_match x); [|by intros [= _ <-]].
    unfold appendRawBytes. destruct (int16 a) as [addr|]; simpl; [|done].
    intros Hr. by apply IH in Hr.
Qed.

Lemma extractTextSeg_line_shift st st' line :
  text_shift st st' →
  option_Forall2 text_shift (extractTextSeg_line st line) (extractTextSeg_line st' line).
Proof.
  destruct st as [n b], st' as [n' b'].
  intros (t' & Hb & Hv & Hlt & Hlt'). simpl in *. subst b'.
  assert (Hskip : text_shift (n + 1, b) (n' + 1, with_text t' b)).
  { exists t'. simpl. repeat split; [done|..]; intros k Hk.
    - specialize (Hlt k Hk). lia.
    - specialize (Hlt' k Hk). lia. }
  unfold extractTextSeg_line.
  destruct (decoded_tokens line) as [|seg elems]; [by constructor|].
  destruct (addrInCodeSegment seg) as [|addr]; [by constructor|].
  unfold indexOfInst. rewrite indexOfInst_from_frame.
  destruct (indexOfInst_from elems addr 0 b) as [[i b1]|] eqn:Hidx; simpl;
    [|constructor].
  pose proof (indexOfInst_from_text _ _ _ _ _ _ Hidx) as Htext.
  assert (Hskip1 : text_shift (n + 1, b1) (n' + 1, with_text t' b1)).
  { exists t'. simpl. rewrite Htext. repeat split; [done|..]; intros k Hk.
    - specialize (Hlt k Hk). lia.
    - specialize (Hlt' k Hk). lia. }
  destruct (i <? indexOfComment elems)%nat; [|by constructor].
  constructor. eexists. simpl. split; [reflexivity|].
  rewrite Htext.
  rewrite !od_set_fresh.
  - rewrite !fmap_app, Hv. split; [done|]. split; intros k Hk;
      apply elem_of_app in Hk as [Hk|Hk].
    + specialize (Hlt k Hk). lia.
    + apply list_elem_of_singleton in Hk. simpl in Hk. lia.
    + specialize (Hlt' k Hk). lia.
    + apply list_elem_of_singleton in Hk. simpl in Hk. lia.
  - intros Hin. specialize (Hlt _ Hin). lia.
  - intros Hin. specialize (Hlt' _ Hin). lia.
Qed.

Lemma extractTextSeg_loop_shift lines st st' :
  text_shift st st' →
  option_Forall2 text_shift (extractTextSeg_loop lines st) (extractTextSeg_loop lines st').
Proof.
  revert st st'. induction lines as [|line lines IH]; intros st st' Hs; simpl.
  - by constructor.
  - destruct (extractTextSeg_line_shift st st' line Hs) as [st1 st1' Hs1|]; simpl.
    + by apply IH.
    + constructor.
Qed.

Lemma extractTextSeg_loop_app l1 l2 st :
  extractTextSeg_loop (l1 ++ l2) st =
  extractTextSeg_loop l1 st ≫= extractTextSeg_loop l2.
Proof.
  revert st. induction l1 as [|x l1 IH]; intros st; simpl; [done|].
  destruct (extractTextSeg_line st x); simpl; [apply IH | done].
Qed.

Lemma appendRawString_frame a l t b :
  appendRawString a l (with_text t b) = with_text t (appendRawString a l b).
Proof.
  unfold appendRawString. revert b.
  induction l as [|x l IH]; intros b; simpl; [done|].
  apply (IH (with_addr2RawStr
    match addr2RawStr b !! a with
    | Some l0 => <[a:=l0 ++ [x]]> (addr2RawStr b)
    | None => <[a:=[x]]> (addr2RawStr b)
    end b)).
Qed.

Lemma aggregate_frame a l t b :
  aggregate a l (with_text t b) = with_text t <$> aggregate a l b.
Proof.
  unfold aggregate. destruct (int16 a) as [addr|]; simpl; [|done].
  rewrite appendRawString_frame.
  destruct (isHeaderInfo l).
  { destruct (last l); simpl; done. }
  destruct (foldl aggregate_step ([], "") l) as [valid found].
  destruct valid as [|v [|v' valid]]; simpl; try done;
    destruct (0 <? _)%nat; done.
Qed.

Lemma createProgram_loop_frame es es' c s t b :
  es'.*2 = es.*2 →
  createProgram_loop es' (c, s, with_text t b) =
  (λ r, (r.1.1, r.1.2, with_text t r.2)) <$> createProgram_loop es (c, s, b).
Proof.
  revert es' c s b. induction es as [|e es IH]; intros [|e' es'] c s b Hv;
    try done.
  injection Hv as He Hv. simpl. unfold createProgram_step. rewrite He.
  destruct c as [curr|]; simpl.
  - destruct (negb (String.eqb _ curr)); simpl.
    + rewrite aggregate_frame. destruct (aggregate curr s b); simpl; [|done].
      by apply IH.
    + by apply IH.
  - by apply IH.
Qed.

Lemma createProgram_frame t b :
  t.*2 = (text b).*2 →
  createProgram (with_text t b) = with_text t <$> createProgram b.
Proof.
  intros Hv. unfold createProgram. simpl.
  rewrite (createProgram_loop_frame (text b) t None [] t b Hv).
  destruct (createProgram_loop (text b) (None, [], b)) as [[[c s] b1]|]; simpl;
    [|done].
  destruct s as [|x s]; [done|]. destruct c as [curr|]; [|done].
  apply aggregate_frame.
Qed.

End normaliser_frame.

Lemma addrInCodeSegment_from_unlisted prefixes seg :
  (∀ prefix, prefix ∈ prefixes → Py.startswith seg prefix = false) →
  addrInCodeSegment_from prefixes seg = NotInCodeSeg.
Proof.
  induction prefixes as [|p ps IH]; intros Hno; simpl; [done|].
  rewrite (Hno p) by left. apply IH. intros q Hq. apply Hno. by right.
Qed.

Section skipped_lines.
Context `{Imports}.

(** C2, as the code has it. A line whose segment label, decoded as the
    code decodes it (the first token of the line, without the bytes that
    are no valid UTF-8), starts with none of the prefixes of [segNames] is
    skipped: the scan goes on to the next line with the builder unchanged,
    and the listing with the line gives the same program text, raw bytes and
    raw strings as the listing without it. (The prefixes include [.data:],
    [.idata:], [.edata:], [.bss:], [.rsrc:], [.tls:] and [.reloc:], so lines
    of those segments are not among the skipped ones.) *)
Theorem unlisted_segment_line_skipped (before after : list string)
    (line seg : string) (elems : list string) (n : Z) (b : Builder) :
  decoded_tokens line = seg :: elems →
  (∀ prefix, prefix ∈ segNames → Py.startswith seg prefix = false) →
  extractTextSeg_line (n, b) line = Some (n + 1, b) ∧
  normalise (before ++ line :: after) = normalise (before ++ after).
Proof.
  intros Hsplit Hno.
  assert (Hline : ∀ st, extractTextSeg_line st line = Some (st.1 + 1, st.2)).
  { intros [m c]. unfold extractTextSeg_line. rewrite Hsplit.
    unfold addrInCodeSegment. by rewrite addrInCodeSegment_from_unlisted. }
  split; [apply (Hline (n, b))|].
  unfold normalise, extractTextSeg. rewrite !extractTextSeg_loop_app.
  assert (Hinit : text_shift (1, Builder_init) (1, Builder_init)).
  { exists []. repeat split; intros k Hk; by apply elem_of_nil in Hk. }
  pose proof (extractTextSeg_loop_shift before _ _ Hinit) as Hbefore.
  destruct (extractTextSeg_loop before (1, Builder_init)) as [[m b1]|];
    [|done].
  inversion Hbefore as [? ? Hs1|]; subst.
  change (Some (m, b1) ≫= extractTextSeg_loop (line :: after))
    with (extractTextSeg_line (m, b1) line ≫= extractTextSeg_loop after).
  rewrite Hline.
  change (Some (m, b1) ≫= extractTextSeg_loop after)
    with (extractTextSeg_loop after (m, b1)).
  change (Some ((m, b1).1 + 1, (m, b1).2) ≫= extractTextSeg_loop after)
    with (extractTextSeg_loop after (m + 1, b1)).
  assert (Hs : text_shift (m, b1) (m + 1, b1)).
  { destruct Hs1 as (t' & _ & _ & Hlt & _). simpl in *.
    exists (text b1). simpl. rewrite with_text_id. repeat split; [done|..];
      intros k Hk; specialize (Hlt k Hk); lia. }
  destruct (extractTextSeg_loop_shift after _ _ Hs) as [[m2 b2] [m2' b2'] Hs2|];
    simpl; [|done].
  destruct Hs2 as (t' & Hb2 & Hv & _). simpl in *. subst b2'.
  rewrite createProgram_frame by done.
  by destruct (createProgram b2).
Qed.

End skipped_lines.

Lemma unlisted_segment_line_skipped_witness :
  decoded_tokens (H := sample_imports) "HEADER:00400000 db 4Dh ; M"
    = "HEADER:00400000" :: ["db"; "4Dh"; ";"; "M"] ∧
  extractTextSeg_line (H := sample_imports) (1, Builder_init) "HEADER:00400000 db 4Dh ; M"
    = Some (1 + 1, Builder_init) ∧
  normalise (H := sample_imports)
    ([".text:00401000 C3 retn"] ++ "HEADER:00400000 db 4Dh ; M" :: [".text:00401001 90 nop"])
  = normalise (H := sample_imports) ([".text:00401000 C3 retn"] ++ [".text:00401001 90 nop"]).
Proof.
  split; [reflexivity|].
  apply (unlisted_segment_line_skipped (H := sample_imports)
           [".text:00401000 C3 retn"] [".text:00401001 90 nop"]
           "HEADER:00400000 db 4Dh ; M" "HEADER:00400000" ["db"; "4Dh"; ";"; "M"]
           1 Builder_init).
  - reflexivity.
  - intros prefix Hin. unfold segNames in Hin.
    repeat (apply elem_of_cons in Hin as [->|Hin]; [reflexivity|]).
    by apply elem_of_nil in Hin.
Defined.

(** C2, as stated, fails: the labels of data, relocation and resource
    segments are in [segNames], so their lines are kept. Here a line of
    [.data] ends up in the program text. *)
Lemma data_segment_line_is_kept :
  addrInCodeSegment ".data:00401000" = InCodeSeg "00401000" ∧
  addrInCodeSegment ".reloc:00401000" = InCodeSeg "00401000" ∧
  addrInCodeSegment ".rsrc:00401000" = InCodeSeg "00401000" ∧
  (fst ∘ fst) <$> normalise (H := sample_imports) [".data:00401000 8B C3 mov eax, ebx"]
    = Some [("00401000", "mov eax, ebx")] ∧
  normalise (H := sample_imports) [".data:00401000 8B C3 mov eax, ebx"]
    ≠ normalise (H := sample_imports) [].
Proof.
  split; [reflexivity|]. split; [reflexivity|]. split; [reflexivity|].
  split; [reflexivity|].
  intros Heq. apply (f_equal (fmap (fst ∘ fst))) in Heq. vm_compute in Heq.
  discriminate Heq.
Qed.

(** The label that counts is the decoded one: a byte that is no valid
    UTF-8 in front of [.text:] is dropped and the line is kept; a token
    keeps what is left of it. *)
Example undecodable_bytes_are_dropped :
  let line1 := String (ascii_of_N 255) ".text:00401000 C3 retn" in
  let line2 := ".text:00401001 db 'ab" +:+ String (ascii_of_N 254) "' ; x" in
  (fst ∘ fst) <$> normalise (H := sample_imports) [line1; line2]
    = Some [("00401000", "retn"); ("00401001", "db 'ab'")].
Proof. vm_compute. reflexivity. Qed.

(** ** The decoding pass *)

Section decoding_claims.
Context `{Imports}.

(** C3 at its failing input. When the only accepted instruction of a
    program has address [0], [buildInsts] returns with that instruction as
    the decoder made it: the final test [prevAddr > 0] is false, and the size
    [2] is not assigned. *)
Theorem buildInsts_last_at_address_zero (addrStr line : string) (inst : Instruction) :
  createInst (addrStr +:+ " " +:+ line) = Some inst →
  address inst = 0 →
  addr2Inst <$> buildInsts (with_program [(addrStr, line)] Builder_init)
    = Some [(0, inst)].
Proof.
  intros Hdec Haddr. unfold buildInsts. simpl. rewrite Hdec. simpl.
  by rewrite Haddr.
Qed.

End decoding_claims.

Lemma buildInsts_last_at_address_zero_witness :
  createInst (Imports := sample_imports) ("00000000" +:+ " " +:+ "retn")
    = Some (mkInstruction 0 0 "retn" EndHere (-2) [] [] false true None false) ∧
  addr2Inst <$> buildInsts (H := sample_imports)
                  (with_program [("00000000", "retn")] Builder_init)
    = Some [(0, mkInstruction 0 0 "retn" EndHere (-2) [] [] false true None false)].
Proof.
  split; [reflexivity|].
  apply (buildInsts_last_at_address_zero (H := sample_imports) "00000000" "retn");
    reflexivity.
Defined.

(** ** Block assembly *)

Lemma blocks_keyed_empty : blocks_keyed ∅.
Proof. intros k blk Hk. rewrite lookup_empty in Hk. discriminate Hk. Qed.

Lemma block_le_refl x : block_le x x.
Proof. by repeat split. Qed.

Lemma block_le_trans x y z : block_le x y → block_le y z → block_le x z.
Proof.
  intros (Hs1 & He1 & Hi1) (Hs2 & He2 & Hi2). repeat split.
  - congruence.
  - by etrans.
  - by etrans.
Qed.

Lemma blocks_grow_refl m : blocks_grow m m.
Proof. intros k blk Hk. eauto using block_le_refl. Qed.

Lemma blocks_grow_trans m1 m2 m3 :
  blocks_grow m1 m2 → blocks_grow m2 m3 → blocks_grow m1 m3.
Proof.
  intros H12 H23 k blk Hk.
  destruct (H12 k blk Hk) as (blk2 & Hk2 & Hle2).
  destruct (H23 k blk2 Hk2) as (blk3 & Hk3 & Hle3).
  eauto using block_le_trans.
Qed.

Lemma getBlockAtAddr_grow a b :
  blocks_grow (addr2Block b) (addr2Block (getBlockAtAddr a b)).
Proof.
  unfold getBlockAtAddr. destruct (addr2Block b !! a) eqn:Ha; simpl.
  - apply blocks_grow_refl.
  - intros k blk Hk. exists blk. split; [|apply block_le_refl].
    rewrite lookup_insert_ne; [done|]. intros ->. congruence.
Qed.

Lemma getBlockAtAddr_keyed a b :
  blocks_keyed (addr2Block b) → blocks_keyed (addr2Block (getBlockAtAddr a b)).
Proof.
  intros Hkeyed. unfold getBlockAtAddr. destruct (addr2Block b !! a) eqn:Ha; simpl.
  - done.
  - intros k blk. rewrite lookup_insert. case_decide.
    + intros [= <-]. done.
    + apply Hkeyed.
Qed.

Lemma getBlockAtAddr_addr2Inst a b : addr2Inst (getBlockAtAddr a b) = addr2Inst b.
Proof. unfold getBlockAtAddr. by destruct (addr2Block b !! a). Qed.

Lemma append_edge_grow ref a b :
  blocks_grow (addr2Block b) (addr2Block (append_edge ref a b)).
Proof.
  intros k blk Hk. unfold append_edge. simpl. rewrite lookup_alter.
  case_decide as Hd.
  - subst. rewrite Hk. simpl. eexists. split; [done|].
    repeat split; simpl; [|done]. intros x Hx. apply elem_of_app. by left.
  - eauto using block_le_refl.
Qed.

Lemma append_edge_keyed ref a b :
  blocks_keyed (addr2Block b) → blocks_keyed (addr2Block (append_edge ref a b)).
Proof.
  intros Hkeyed k blk. unfold append_edge. simpl. rewrite lookup_alter.
  case_decide as Hd; [|apply Hkeyed].
  subst. destruct (addr2Block b !! k) as [blk0|] eqn:Hk; simpl; [|done].
  intros [= <-]. simpl. by apply Hkeyed.
Qed.

Lemma append_edge_elem ref a b blk :
  addr2Block b !! ref = Some blk →
  ∃ blk', addr2Block (append_edge ref a b) !! ref = Some blk' ∧ a ∈ edgeList blk'.
Proof.
  intros Hk. unfold append_edge. simpl. rewrite lookup_alter, decide_True by done.
  rewrite Hk. simpl. eexists. split; [done|]. simpl.
  apply elem_of_app. right. apply list_elem_of_singleton. done.
Qed.

Lemma close_inst_lookup curr inst b cb :
  blocks_keyed (addr2Block b) →
  addr2Block b !! curr = Some cb →
  addr2Block (close_inst curr inst b) =
    <[curr := mkBlock (startAddr cb) (Z.max (endAddr cb) (address inst))
                (instList cb ++ [inst]) (edgeList cb)]> (addr2Block b).
Proof.
  intros Hkeyed Hc. unfold close_inst, block_at. simpl.
  rewrite lookup_alter, decide_True by done. rewrite Hc. simpl.
  rewrite (Hkeyed _ _ Hc). apply map_eq. intros k.
  rewrite !lookup_insert. case_decide; [done|].
  by rewrite lookup_alter, decide_False.
Qed.

Lemma close_inst_grow curr inst b :
  blocks_keyed (addr2Block b) →
  is_Some (addr2Block b !! curr) →
  blocks_grow (addr2Block b) (addr2Block (close_inst curr inst b)).
Proof.
  intros Hkeyed [cb Hc] k blk Hk. rewrite (close_inst_lookup _ _ _ cb) by done.
  rewrite lookup_insert. case_decide as Hd.
  - subst k. rewrite Hc in Hk. injection Hk as <-.
    eexists. split; [done|]. repeat split; simpl; [done|].
    intros x Hx. apply elem_of_app. by left.
  - eauto using block_le_refl.
Qed.

Lemma close_inst_keyed curr inst b :
  blocks_keyed (addr2Block b) →
  is_Some (addr2Block b !! curr) →
  blocks_keyed (addr2Block (close_inst curr inst b)).
Proof.
  intros Hkeyed [cb Hc] k blk. rewrite (close_inst_lookup _ _ _ cb) by done.
  rewrite lookup_insert. case_decide as Hd; [|apply Hkeyed].
  subst k. intros [= <-]. simpl. by apply Hkeyed.
Qed.

Lemma close_inst_elem curr inst b :
  blocks_keyed (addr2Block b) →
  is_Some (addr2Block b !! curr) →
  ∃ blk', addr2Block (close_inst curr inst b) !! curr = Some blk' ∧
          inst ∈ instList blk'.
Proof.
  intros Hkeyed [cb Hc]. rewrite (close_inst_lookup _ _ _ cb) by done.
  rewrite lookup_insert_eq. eexists. split; [done|]. simpl.
  apply elem_of_app. right. by apply list_elem_of_singleton.
Qed.

Lemma blocks_grow_is_Some m m' k :
  blocks_grow m m' → is_Some (m !! k) → is_Some (m' !! k).
Proof. intros Hg [blk Hk]. destruct (Hg k blk Hk) as (blk' & -> & _). eauto. Qed.

Lemma edge_in_grow m m' src dst :
  blocks_grow m m' → edge_in m src dst → edge_in m' src dst.
Proof.
  intros Hg (blk & Hk & Hin). destruct (Hg _ _ Hk) as (blk' & Hk' & _ & He & _).
  exists blk'. split; [done|]. by apply He.
Qed.

Lemma call_return_edges_grow m m' inst t :
  blocks_grow m m' → call_return_edges m inst t → call_return_edges m' inst t.
Proof.
  intros Hg (c & blkC & blkT & HC & HT & Hs & Hi & Het & Hec).
  destruct (Hg _ _ HC) as (blkC' & HC' & Hs' & HeC & HiC).
  destruct (Hg _ _ HT) as (blkT' & HT' & _ & HeT & _).
  exists c, blkC', blkT'. repeat split; auto. congruence.
Qed.

Lemma block_at_keyed k b :
  blocks_keyed (addr2Block b) → is_Some (addr2Block b !! k) →
  startAddr (block_at k b) = k.
Proof. intros Hkeyed [blk Hk]. unfold block_at. rewrite Hk. simpl. eauto. Qed.

(** [if a not in block.edgeList: block.edgeList.append(a)] *)
Lemma ensure_edge src a b :
  let b' := if bool_decide (a ∈ edgeList (block_at src b)) then b
            else append_edge src a b in
  blocks_keyed (addr2Block b) → is_Some (addr2Block b !! src) →
  blocks_grow (addr2Block b) (addr2Block b') ∧ blocks_keyed (addr2Block b') ∧
  edge_in (addr2Block b') src a ∧ addr2Inst b' = addr2Inst b.
Proof.
  intros b' Hkeyed [blk Hsrc]. subst b'. case_bool_decide as Hin.
  - split; [apply blocks_grow_refl|]. split; [done|]. split; [|done].
    exists blk. split; [done|]. unfold block_at in Hin. by rewrite Hsrc in Hin.
  - split; [apply append_edge_grow|]. split; [by apply append_edge_keyed|].
    split; [|done]. by eapply append_edge_elem.
Qed.

Lemma connect_fallthrough_spec curr addr inst b :
  blocks_keyed (addr2Block b) → is_Some (addr2Block b !! curr) →
  let r := connect_fallthrough curr addr inst b in
  blocks_grow (addr2Block b) (addr2Block r.2) ∧ blocks_keyed (addr2Block r.2) ∧
  is_Some (addr2Block r.2 !! r.1) ∧ addr2Inst r.2 = addr2Inst b.
Proof.
  intros Hkeyed Hcurr r. subst r. unfold connect_fallthrough.
  destruct (od_get (addr + size inst) (addr2Inst b)) as [nextInst|];
    [|by eauto using blocks_grow_refl].
  destruct (fallThrough inst && start nextInst);
    [|by eauto using blocks_grow_refl].
  simpl. split; [|split; [|split]].
  - eapply blocks_grow_trans; [apply getBlockAtAddr_grow | apply append_edge_grow].
  - by apply append_edge_keyed, getBlockAtAddr_keyed.
  - eapply blocks_grow_is_Some; [apply append_edge_grow|].
    apply getBlockAtAddr_lookup.
  - apply getBlockAtAddr_addr2Inst.
Qed.

Lemma connect_branch_spec curr inst b :
  blocks_keyed (addr2Block b) → is_Some (addr2Block b !! curr) →
  let b' := connect_branch curr inst b in
  blocks_grow (addr2Block b) (addr2Block b') ∧ blocks_keyed (addr2Block b') ∧
  addr2Inst b' = addr2Inst b ∧
  ∀ t, branchTo inst = Some t → call inst = true →
       edge_in (addr2Block b') curr t ∧ edge_in (addr2Block b') t curr.
Proof.
  intros Hkeyed Hcurr b'. subst b'. unfold connect_branch.
  destruct (branchTo inst) as [t|]; last first.
  { split; [apply blocks_grow_refl|]. split; [done|]. split; [done|].
    intros ? [=]. }
  set (b1 := getBlockAtAddr t b).
  pose proof (getBlockAtAddr_grow t b) as Hg1.
  pose proof (getBlockAtAddr_keyed t b Hkeyed) as Hk1.
  pose proof (getBlockAtAddr_lookup t b) as Ht1.
  pose proof (blocks_grow_is_Some _ _ curr Hg1 Hcurr) as Hc1.
  fold b1 in Hg1, Hk1, Ht1, Hc1.
  rewrite (block_at_keyed t b1) by done.
  destruct (ensure_edge curr t b1 Hk1 Hc1) as (Hg2 & Hk2 & He2 & Hi2).
  set (b2 := if bool_decide (t ∈ edgeList (block_at curr b1)) then b1
             else append_edge curr t b1) in *.
  pose proof (blocks_grow_is_Some _ _ t Hg2 Ht1) as Ht2.
  pose proof (blocks_grow_is_Some _ _ curr Hg2 Hc1) as Hc2.
  destruct (call inst).
  - rewrite (block_at_keyed curr b2) by done.
    destruct (ensure_edge t curr b2 Hk2 Ht2) as (Hg3 & Hk3 & He3 & Hi3).
    split; [eauto using blocks_grow_trans|]. split; [done|].
    split; [rewrite Hi3, Hi2; apply getBlockAtAddr_addr2Inst|].
    intros ? [= <-] _. split; [|done]. by eapply edge_in_grow.
  - split; [eauto using blocks_grow_trans|]. split; [done|].
    split; [rewrite Hi2; apply getBlockAtAddr_addr2Inst|]. done.
Qed.

Lemma connectBlocks_step_spec st addr inst :
  assembly_inv st →
  let st' := connectBlocks_step st (addr, inst) in
  assembly_inv st' ∧ blocks_grow (addr2Block st.2) (addr2Block st'.2) ∧
  addr2Inst st'.2 = addr2Inst st.2 ∧
  ∀ t, branchTo inst = Some t → call inst = true →
       call_return_edges (addr2Block st'.2) inst t.
Proof.
  destruct st as [currBlock b]. intros [Hkeyed Hcur] st'. subst st'. simpl in *.
  set (cb := match currBlock with
             | Some c => if start inst then (addr, getBlockAtAddr addr b) else (c, b)
             | None => (addr, getBlockAtAddr addr b)
             end).
  assert (Hcb : blocks_grow (addr2Block b) (addr2Block cb.2) ∧
                blocks_keyed (addr2Block cb.2) ∧
                is_Some (addr2Block cb.2 !! cb.1) ∧ addr2Inst cb.2 = addr2Inst b).
  { subst cb. destruct currBlock as [c|]; [destruct (start inst)|]; simpl;
      eauto using blocks_grow_refl, getBlockAtAddr_grow, getBlockAtAddr_keyed,
        getBlockAtAddr_lookup, getBlockAtAddr_addr2Inst. }
  destruct cb as [curr b1]. destruct Hcb as (Hg1 & Hk1 & Hc1 & Hi1). simpl in *.
  pose proof (connect_fallthrough_spec curr addr inst b1 Hk1 Hc1) as Hft.
  destruct (connect_fallthrough curr addr inst b1) as [nextBlock b2].
  destruct Hft as (Hg2 & Hk2 & Hn2 & Hi2). simpl in *.
  pose proof (blocks_grow_is_Some _ _ curr Hg2 Hc1) as Hc2.
  destruct (connect_branch_spec curr inst b2 Hk2 Hc2) as (Hg3 & Hk3 & Hi3 & He3).
  set (b3 := connect_branch curr inst b2) in *.
  pose proof (blocks_grow_is_Some _ _ curr Hg3 Hc2) as Hc3.
  pose proof (close_inst_grow curr inst b3 Hk3 Hc3) as Hg4.
  pose proof (close_inst_keyed curr inst b3 Hk3 Hc3) as Hk4.
  simpl. split; [split; [done|]|split; [|split]].
  - intros c [= <-]. eauto using blocks_grow_is_Some.
  - eauto using blocks_grow_trans.
  - unfold close_inst. simpl. congruence.
  - intros t Ht Hcall. destruct (He3 t Ht Hcall) as [Hfwd Hback].
    destruct (close_inst_elem curr inst b3 Hk3 Hc3) as (blkC & HC & HiC).
    destruct (edge_in_grow _ _ _ _ Hg4 Hfwd) as (blkC' & HC' & HeC).
    destruct (edge_in_grow _ _ _ _ Hg4 Hback) as (blkT & HT & HeT).
    rewrite HC in HC'. injection HC' as <-.
    exists curr, blkC, blkT. repeat split; auto.
Qed.

Lemma connectBlocks_loop_spec entries st :
  assembly_inv st →
  let st' := foldl connectBlocks_step st entries in
  assembly_inv st' ∧ blocks_grow (addr2Block st.2) (addr2Block st'.2) ∧
  ∀ addr inst t, (addr, inst) ∈ entries → branchTo inst = Some t → call inst = true →
                 call_return_edges (addr2Block st'.2) inst t.
Proof.
  revert st. induction entries as [|[a i] entries IH]; intros st Hinv; simpl.
  - split; [done|]. split; [apply blocks_grow_refl|].
    intros ??? Hin. by apply elem_of_nil in Hin.
  - destruct (connectBlocks_step_spec st a i Hinv) as (Hinv1 & Hg1 & _ & He1).
    destruct (IH _ Hinv1) as (Hinv2 & Hg2 & He2).
    split; [done|]. split; [eauto using blocks_grow_trans|].
    intros addr inst t Hin Hb Hc. apply elem_of_cons in Hin as [Heq|Hin].
    + injection Heq as -> ->. eapply call_return_edges_grow; [done|]. by apply He1.
    + by eapply He2.
Qed.

(** C5. For every instruction of the index with [call] set and a branch
    target [t], block assembly leaves a block that holds the instruction (the
    calling block, stored under its start address [c]) and a block at [t],
    with [t] in the edge list of the calling block and [c] in the edge list
    of the block at [t]. *)
Theorem call_edges_have_reverse_edges (b : Builder) (addr t : Z) (inst : Instruction) :
  blocks_keyed (addr2Block b) →
  (addr, inst) ∈ addr2Inst b →
  call inst = true →
  branchTo inst = Some t →
  ∃ c blkC blkT,
    addr2Block (connectBlocks b) !! c = Some blkC ∧
    addr2Block (connectBlocks b) !! t = Some blkT ∧
    startAddr blkC = c ∧ inst ∈ instList blkC ∧
    t ∈ edgeList blkC ∧ c ∈ edgeList blkT.
Proof.
  intros Hkeyed Hin Hcall Hbranch. unfold connectBlocks.
  destruct (connectBlocks_loop_spec (sorted_items (addr2Inst b)) (None, b))
    as (_ & _ & Hedges).
  { split; [done|]. intros c [=]. }
  apply (Hedges addr inst t); [|done..].
  unfold sorted_items. by rewrite merge_sort_Permutation.
Qed.

(** ** Auxiliary instructions through the visitor loop *)

Lemma insts_rel_refl R d : (∀ x, R x x) → insts_rel R d d.
Proof. intros HR. apply Forall_Forall2_diag, Forall_forall. intros; split; auto. Qed.

Lemma insts_rel_trans R d1 d2 d3 :
  (∀ x y z, R x y → R y z → R x z) →
  insts_rel R d1 d2 → insts_rel R d2 d3 → insts_rel R d1 d3.
Proof.
  intros HR H12. revert d3. induction H12 as [|x y d1 d2 [Hk Hr] _ IH];
    intros d3 H23; inversion H23 as [|? z ? d3' [Hk' Hr'] H23']; subst.
  - constructor.
  - constructor; [|by apply IH]. split; [congruence | eauto].
Qed.

Lemma insts_rel_weaken (R R' : Instruction → Instruction → Prop) d d' :
  (∀ x y, R x y → R' x y) → insts_rel R d d' → insts_rel R' d d'.
Proof.
  intros HR. induction 1 as [|x y d1 d2 [Hk Hr] _ IH]; constructor; auto.
Qed.

Lemma insts_rel_keyed d d' :
  insts_rel same_address d d' → index_keyed d → index_keyed d'.
Proof.
  unfold index_keyed.
  induction 1 as [|x y d1 d2 [Hk Hr] _ IH]; intros Hkeyed; [constructor|].
  apply Forall_cons in Hkeyed as [Hx Hrest]. apply Forall_cons. split; [|auto].
  unfold same_address in Hr. congruence.
Qed.

Lemma insts_rel_is_Some R d d' k :
  insts_rel R d d' → is_Some (od_get k d) → is_Some (od_get k d').
Proof.
  intros Hrel [v Hv]. pose proof (od_pointwise_get R d d' k Hrel) as Hp.
  rewrite Hv in Hp. inversion Hp. eauto.
Qed.

Lemma index_keyed_get d k i : index_keyed d → od_get k d = Some i → address i = k.
Proof.
  intros Hkeyed Hg. apply od_get_elem_of in Hg.
  unfold index_keyed in Hkeyed. rewrite Forall_forall in Hkeyed.
  apply (Hkeyed _ Hg).
Qed.

Lemma visit_rel_refl b : visit_rel b b.
Proof. split; [apply insts_rel_refl; by intros | done]. Qed.

Lemma visit_rel_trans b1 b2 b3 : visit_rel b1 b2 → visit_rel b2 b3 → visit_rel b1 b3.
Proof.
  intros [Hi1 Ha1] [Hi2 Ha2]. split; [|auto].
  eapply insts_rel_trans; [|done..]. unfold same_address. congruence.
Qed.

Section visitor_invariant.
Context `{Imports}.
Hypothesis newInstruction_branchTo : ∀ a n, branchTo (newInstruction a n) = None.

Lemma addAuxilaryInst_aux_ok a n b :
  aux_ok (addr2InstAux b) → aux_ok (addr2InstAux (addAuxilaryInst a n b)).
Proof.
  intros [Hshape Hnodup]. unfold addAuxilaryInst.
  destruct (od_mem a (addr2InstAux b)) eqn:Hmem; [done|]. simpl.
  apply od_mem_false, od_get_None_fst in Hmem.
  rewrite od_set_fresh by done. split.
  - apply Forall_app. split; [done|]. constructor; [|constructor].
    repeat split; simpl. apply newInstruction_branchTo.
  - rewrite fmap_app. apply NoDup_app. split; [done|]. split.
    + intros x Hx Hx'. apply list_elem_of_singleton in Hx'. simpl in Hx'. by subst.
    + apply NoDup_singleton.
Qed.

Lemma addAuxilaryInst_visit_rel a n b : visit_rel b (addAuxilaryInst a n b).
Proof.
  split; [|apply addAuxilaryInst_aux_ok].
  rewrite addAuxilaryInst_addr2Inst. apply insts_rel_refl. by intros.
Qed.

Lemma log_enter_visit_rel kind from a b : visit_rel b (log_enter kind from a b).
Proof. split; [apply insts_rel_refl; by intros | done]. Qed.

Lemma update_own_ok k f b :
  (∀ x, address (f x) = address x) →
  index_keyed (addr2Inst b) → is_Some (od_get k (addr2Inst b)) →
  ∃ b', update_own k f b = Some b' ∧ visit_rel b b'.
Proof.
  intros Hf Hkeyed [inst Hk]. unfold update_own, od_modify. rewrite Hk. simpl.
  rewrite (index_keyed_get _ _ _ Hkeyed Hk), Hk. simpl.
  eexists. split; [done|]. split; [|done]. simpl.
  eapply od_set_pointwise; [by intros | done |]. unfold same_address. by rewrite Hf.
Qed.

Lemma enter_ok k a b :
  index_keyed (addr2Inst b) → is_Some (od_get k (addr2Inst b)) →
  ∃ b', enter k a b = Some b' ∧ visit_rel b b'.
Proof.
  intros Hkeyed [inst Hk].
  pose proof (index_keyed_get _ _ _ Hkeyed Hk) as Haddr.
  unfold enter. rewrite Hk. simpl.
  case_bool_decide.
  { eexists. split; [done|].
    eapply visit_rel_trans; [apply log_enter_visit_rel | apply addAuxilaryInst_visit_rel]. }
  destruct ((0 <=? a) && (a <? 256)).
  { eexists. split; [done|].
    eapply visit_rel_trans; [apply log_enter_visit_rel | apply addAuxilaryInst_visit_rel]. }
  destruct (od_mem a (addr2Inst b)) eqn:Hmem; simpl.
  - apply od_mem_true in Hmem.
    destruct (od_modify_is_Some a (set_start true) (addr2Inst b) Hmem) as [d' Hd'].
    rewrite Hd'. simpl. eexists. split; [done|]. split; [|done]. simpl.
    eapply od_modify_pointwise; [| |done]; by intros.
  - case_bool_decide.
    { eexists. split; [done|].
    eapply visit_rel_trans; [apply log_enter_visit_rel | apply addAuxilaryInst_visit_rel]. }
    rewrite addAuxilaryInst_addr2Inst. simpl. unfold od_modify.
    rewrite Haddr, Hk. simpl. eexists. split; [done|]. split; simpl.
    + eapply od_set_pointwise; [by intros | done | done].
    + apply (addAuxilaryInst_aux_ok InvalidAddr "invalid"
               (log_enter EnterInvalid k a b)).
Qed.

Lemma visit_rel_pre k b b' :
  visit_rel b b' →
  index_keyed (addr2Inst b) ∧ is_Some (od_get k (addr2Inst b)) →
  index_keyed (addr2Inst b') ∧ is_Some (od_get k (addr2Inst b')).
Proof.
  intros [Hrel _] [Hkeyed Hk].
  eauto using insts_rel_keyed, insts_rel_is_Some.
Qed.

End visitor_invariant.

Lemma od_update_get_notin {K V : Type} `{EqDecision K} (k : K) (d e : list (K * V)) :
  k ∉ e.*1 → od_get k (od_update d e) = od_get k d.
Proof.
  unfold od_update. revert d. induction e as [|[k' v'] e IH]; intros d Hn; [done|].
  simpl. rewrite IH.
  - apply od_get_set_ne. intros ->. apply Hn. left.
  - intros Hin. apply Hn. by right.
Qed.

Lemma od_update_get_in {K V : Type} `{EqDecision K} (k : K) (v : V) (d e : list (K * V)) :
  NoDup e.*1 → (k, v) ∈ e → od_get k (od_update d e) = Some v.
Proof.
  revert d. induction e as [|[k' v'] e IH]; intros d Hnd Hin.
  { by apply elem_of_nil in Hin. }
  apply NoDup_cons in Hnd as [Hk' Hnd].
  apply elem_of_cons in Hin as [Heq|Hin].
  - injection Heq as <- <-.
    change (od_update d ((k, v) :: e)) with (od_update (od_set k v d) e).
    rewrite od_update_get_notin by done. apply od_get_set_eq.
  - change (od_update d ((k', v') :: e)) with (od_update (od_set k' v' d) e).
    by apply IH.
Qed.

Section visitor_loop.
Context `{Imports}.
Hypothesis newInstruction_branchTo : ∀ a n, branchTo (newInstruction a n) = None.

Lemma next_addr_is_Some k b : visit_pre k b → is_Some (next_addr k b).
Proof. intros [_ [inst Hk]]. unfold next_addr. rewrite Hk. simpl. eauto. Qed.

Lemma branch_ok k b : visit_pre k b → ∃ b', branch k b = Some b' ∧ visit_rel b b'.
Proof.
  intros Hpre. pose proof (visit_rel_refl b) as Hrel.
  destruct Hpre as [Hkeyed [inst Hk]]. unfold branch. rewrite Hk. simpl.
  destruct (update_own_ok k (set_branchTo (Some (target inst))) b)
    as (b1 & -> & Hr1); [done | done | eauto |]. simpl.
  assert (Hp1 : visit_pre k b1) by (eapply visit_rel_pre; [done|]; split; eauto).
  destruct (enter_ok newInstruction_branchTo k (target inst) b1)
    as (b2 & -> & Hr2); [apply Hp1.. |]. simpl.
  assert (Hp2 : visit_pre k b2) by (eapply visit_rel_pre; done).
  destruct (next_addr_is_Some k b2 Hp2) as [a ->]. simpl.
  destruct (enter_ok newInstruction_branchTo k a b2)
    as (b3 & -> & Hr3); [apply Hp2.. |].
  eauto using visit_rel_trans.
Qed.

Lemma call_ok k b : visit_pre k b → ∃ b', call_ k b = Some b' ∧ visit_rel b b'.
Proof.
  intros Hpre. unfold call_.
  destruct (update_own_ok k (set_call true) b)
    as (b1 & -> & Hr1); [done | apply Hpre.. |]. simpl.
  assert (Hp1 : visit_pre k b1) by (eapply visit_rel_pre; done).
  destruct Hp1 as [Hkeyed1 [inst Hk1]]. rewrite Hk1. simpl.
  destruct (update_own_ok k (set_branchTo (Some (target inst))) b1)
    as (b2 & -> & Hr2); [done | done | eauto |]. simpl.
  assert (Hp2 : visit_pre k b2) by (eapply visit_rel_pre; [done|]; split; eauto).
  destruct (enter_ok newInstruction_branchTo k (target inst) b2)
    as (b3 & -> & Hr3); [apply Hp2.. |].
  eauto using visit_rel_trans.
Qed.

Lemma jump_ok k b : visit_pre k b → ∃ b', jump k b = Some b' ∧ visit_rel b b'.
Proof.
  intros Hpre. destruct (Hpre) as [Hkeyed [inst Hk]]. unfold jump.
  rewrite Hk. simpl.
  destruct (update_own_ok k (set_fallThrough false) b)
    as (b1 & -> & Hr1); [done | apply Hpre.. |]. simpl.
  assert (Hp1 : visit_pre k b1) by (eapply visit_rel_pre; done).
  destruct (update_own_ok k (set_branchTo (Some (target inst))) b1)
    as (b2 & -> & Hr2); [done | apply Hp1.. |]. simpl.
  assert (Hp2 : visit_pre k b2) by (eapply visit_rel_pre; done).
  destruct (enter_ok newInstruction_branchTo k (target inst) b2)
    as (b3 & -> & Hr3); [apply Hp2.. |]. simpl.
  assert (Hp3 : visit_pre k b3) by (eapply visit_rel_pre; done).
  destruct (next_addr_is_Some k b3 Hp3) as [a ->]. simpl.
  destruct (enter_ok newInstruction_branchTo k a b3)
    as (b4 & -> & Hr4); [apply Hp3.. |].
  eauto 6 using visit_rel_trans.
Qed.

Lemma end_ok k b : visit_pre k b → ∃ b', end_ k b = Some b' ∧ visit_rel b b'.
Proof.
  intros Hpre. unfold end_.
  destruct (update_own_ok k (set_fallThrough false) b)
    as (b1 & -> & Hr1); [done | apply Hpre.. |]. simpl.
  assert (Hp1 : visit_pre k b1) by (eapply visit_rel_pre; done).
  destruct (next_addr_is_Some k b1 Hp1) as [a ->]. simpl.
  destruct (a <=? programEnd b1); [|eauto].
  destruct (enter_ok newInstruction_branchTo k a b1)
    as (b2 & -> & Hr2); [apply Hp1.. |].
  eauto using visit_rel_trans.
Qed.

Lemma accept_ok k b : visit_pre k b → ∃ b', accept k b = Some b' ∧ visit_rel b b'.
Proof.
  intros Hpre. destruct (Hpre) as [_ [inst Hk]]. unfold accept. rewrite Hk. simpl.
  destruct (category inst);
    eauto using call_ok, branch_ok, jump_ok, end_ok, visit_rel_refl.
Qed.

Lemma visitInsts_step_ok k b :
  visit_pre k b → ∃ b', visitInsts_step b k = Some b' ∧ visit_rel b b'.
Proof.
  intros Hpre. unfold visitInsts_step.
  destruct (accept_ok k b Hpre) as (b1 & -> & Hr1). simpl.
  destruct (visit_rel_pre k _ _ Hr1 Hpre) as [Hkeyed1 Hk1].
  assert (∃ d1, match addr2Bytes b1 !! k with
                | Some l => od_modify k (set_bytes l) (addr2Inst b1)
                | None => Some (addr2Inst b1)
                end = Some d1 ∧ insts_rel same_address (addr2Inst b1) d1)
    as (d1 & -> & Hd1).
  { destruct (addr2Bytes b1 !! k) as [l|].
    - destruct (od_modify_is_Some k (set_bytes l) _ Hk1) as [d1 Hd1].
      exists d1. split; [done|]. eapply od_modify_pointwise; [| |done]; by intros.
    - eexists. split; [done|]. apply insts_rel_refl. by intros. }
  simpl.
  assert (∃ d2, match addr2RawStr b1 !! k with
                | Some l => od_modify k (set_rawStrs l) d1
                | None => Some d1
                end = Some d2 ∧ insts_rel same_address d1 d2)
    as (d2 & -> & Hd2).
  { destruct (addr2RawStr b1 !! k) as [l|].
    - destruct (od_modify_is_Some k (set_rawStrs l) d1) as [d2 Hd2].
      { eapply insts_rel_is_Some; done. }
      exists d2. split; [done|]. eapply od_modify_pointwise; [| |done]; by intros.
    - eexists. split; [done|]. apply insts_rel_refl. by intros. }
  simpl. eexists. split; [done|].
  eapply visit_rel_trans; [done|]. split; [|done]. simpl.
  eapply insts_rel_trans; [|done..]. unfold same_address. congruence.
Qed.

Lemma visitInsts_loop_ok keys b :
  index_keyed (addr2Inst b) →
  Forall (λ k, is_Some (od_get k (addr2Inst b))) keys →
  ∃ b', visitInsts_loop keys b = Some b' ∧ visit_rel b b'.
Proof.
  revert b. induction keys as [|k keys IH]; intros b Hkeyed Hkeys; simpl.
  - eauto using visit_rel_refl.
  - apply Forall_cons in Hkeys as [Hk Hkeys].
    destruct (visitInsts_step_ok k b) as (b1 & -> & Hr1); [by split|]. simpl.
    destruct (IH b1) as (b2 & -> & Hr2).
    + by eapply insts_rel_keyed; [apply Hr1|].
    + eapply Forall_impl; [done|]. intros k' Hk'. simpl in Hk'.
      by eapply insts_rel_is_Some; [apply Hr1|].
    + eauto using visit_rel_trans.
Qed.

End visitor_loop.

(** An instruction that is a block start, does not fall through and has no
    branch target adds no edge when [connectBlocks] processes it: every
    block keeps its edge list, and a block created for it has none. *)
Lemma connectBlocks_step_sentinel currBlock b k i :
  sentinel_shape i →
  connectBlocks_step (currBlock, b) (k, i) =
    (Some k, close_inst k i (getBlockAtAddr k b)).
Proof.
  intros (Hstart & Hft & Hbr). unfold connectBlocks_step. rewrite Hstart.
  assert ((match currBlock with
           | Some _ => (k, getBlockAtAddr k b)
           | None => (k, getBlockAtAddr k b)
           end) = (k, getBlockAtAddr k b)) as -> by by destruct currBlock.
  unfold connect_fallthrough, connect_branch. rewrite Hft, Hbr.
  by destruct (od_get _ _).
Qed.

Lemma connectBlocks_step_no_edge st k i :
  assembly_inv st → sentinel_shape i →
  ∀ k' blk', addr2Block (connectBlocks_step st (k, i)).2 !! k' = Some blk' →
             edgeList blk' = from_option edgeList [] (addr2Block st.2 !! k').
Proof.
  destruct st as [currBlock b]. intros [Hkeyed _] Hshape k' blk'.
  rewrite connectBlocks_step_sentinel by done.
  change ((Some k, close_inst k i (getBlockAtAddr k b)).2)
    with (close_inst k i (getBlockAtAddr k b)).
  change ((currBlock, b).2) with b.
  destruct (getBlockAtAddr_lookup k b) as [cb Hcb].
  rewrite (close_inst_lookup k i _ cb) by auto using getBlockAtAddr_keyed.
  rewrite lookup_insert. case_decide as Hd.
  - subst k'. intros [= <-]. simpl. revert Hcb. unfold getBlockAtAddr.
    destruct (addr2Block b !! k) as [blk0|] eqn:Hk; simpl.
    + rewrite Hk. by intros [= ->].
    + rewrite lookup_insert_eq. by intros [= <-].
  - unfold getBlockAtAddr. destruct (addr2Block b !! k) as [blk0|] eqn:Hk; simpl.
    + by intros ->.
    + rewrite lookup_insert_ne by done. by intros ->.
Qed.

Section auxiliary_claims.
Context `{Imports}.

(** C10, as the code has it. With a constructor that leaves [branchTo]
    unset, a visitor loop started on a well-keyed index with an empty
    auxiliary index returns, and every auxiliary instruction it leaves is a
    block start without fallthrough and without branch target, and is what
    the merged index holds at its address. When block assembly processes
    such an instruction, no edge list changes: the instruction itself
    contributes neither a fallthrough nor a branch edge. *)
Theorem auxiliary_instructions_add_no_edges (b : Builder) :
  (∀ a n, branchTo (newInstruction a n) = None) →
  index_keyed (addr2Inst b) →
  addr2InstAux b = [] →
  ∃ b', visitInsts b = Some b' ∧
    ∀ k i, (k, i) ∈ addr2InstAux b' →
      sentinel_shape i ∧
      od_get k (addr2Inst b') = Some i ∧
      ∀ st k' blk', assembly_inv st →
        addr2Block (connectBlocks_step st (k, i)).2 !! k' = Some blk' →
        edgeList blk' = from_option edgeList [] (addr2Block st.2 !! k').
Proof.
  intros Hnew Hkeyed Haux. unfold visitInsts.
  destruct (visitInsts_loop_ok Hnew (addr2Inst b).*1 b Hkeyed)
    as (b1 & Hloop & Hrel & Hok).
  { apply Forall_forall. intros k Hk.
    destruct (od_get k (addr2Inst b)) eqn:Hg; [eauto|].
    by apply od_get_None_fst in Hg. }
  change (map fst (addr2Inst b)) with ((addr2Inst b).*1). rewrite Hloop. simpl.
  eexists. split; [done|]. simpl. intros k i Hin.
  destruct Hok as [Hshape Hnodup].
  { rewrite Haux. split; [constructor|]. simpl. apply NoDup_nil_2. }
  rewrite Forall_forall in Hshape. pose proof (Hshape _ Hin) as Hi.
  split; [done|]. split; [by apply od_update_get_in|].
  intros st k' blk' Hinv. by apply connectBlocks_step_no_edge.
Qed.

End auxiliary_claims.

(** ** Block features *)

Section scan_facts.
Context {A : Type} (check : list string → A → A).

Lemma window_of_prefix (p : list string) (x : string) (i : nat) :
  (i + 4 ≤ length p)%nat → take 4 (drop i (p ++ [x])) = take 4 (drop i p).
Proof.
  intros Hi. rewrite drop_app_le by lia. rewrite take_app_le; [done|].
  rewrite length_drop. lia.
Qed.

(** After the tokens [p], the window holds the last four of them (all of
    them when there are fewer) and [check] has run on every window of [p]
    but the last. *)
Lemma scan4_loop (p : list string) (features : A) :
  foldl (scan4_step check) ([], features) p =
  (drop (length p - 4) p,
   foldl (λ a w, check w a) features
     (map (λ i, take 4 (drop i p)) (seq 0 (length p - 4)))).
Proof.
  induction p as [|x p IH] using rev_ind; [done|].
  rewrite foldl_app, IH. simpl. rewrite length_drop, length_app. simpl.
  destruct (decide (4 ≤ length p)%nat) as [Hge|Hlt].
  - replace (length p - (length p - 4))%nat with 4%nat by lia. simpl.
    replace (length p + 1 - 4)%nat with (S (length p - 4)) by lia.
    rewrite seq_S, map_app, foldl_app. simpl. f_equal.
    + rewrite drop_app_le by lia.
      replace (S (length p - 4)) with ((length p - 4) + 1)%nat by lia.
      rewrite <- drop_drop. by destruct (drop (length p - 4) p).
    + rewrite window_of_prefix by lia.
      rewrite (take_ge (drop (length p - 4) p)) by (rewrite length_drop; lia).
      f_equal. f_equal. apply map_ext_in. intros i Hi. apply in_seq in Hi.
      symmetry. apply window_of_prefix. lia.
  - replace (length p - 4)%nat with 0%nat by lia.
    replace (length p + 1 - 4)%nat with 0%nat by lia. simpl.
    destruct (length p - 0 =? 4)%nat eqn:Heq; [|done].
    apply Nat.eqb_eq in Heq. lia.
Qed.

(** The scan runs [check] on the windows of the stream, each once, first
    to last. *)
Lemma scan4_windows (byteList : list string) (features : A) :
  scan4 check byteList features =
  foldl (λ a w, check w a) features (windows4 byteList).
Proof.
  unfold scan4, windows4. rewrite scan4_loop. rewrite length_drop.
  destruct (decide (4 ≤ length byteList)%nat) as [Hge|Hlt].
  - replace (length byteList - (length byteList - 4))%nat with 4%nat by lia.
    simpl. replace (length byteList - 3)%nat with (S (length byteList - 4)) by lia.
    rewrite seq_S, map_app, foldl_app. simpl.
    by rewrite (take_ge (drop (length byteList - 4) byteList))
      by (rewrite length_drop; lia).
  - replace (length byteList - 4)%nat with 0%nat by lia.
    replace (length byteList - 3)%nat with 0%nat by lia. simpl.
    destruct (length byteList - 0 =? 4)%nat eqn:Heq; [|done].
    apply Nat.eqb_eq in Heq. lia.
Qed.

End scan_facts.

Lemma windows4_length (l : list string) :
  length (windows4 l) = (length l - 3)%nat.
Proof. unfold windows4. by rewrite length_map, length_seq. Qed.

Lemma windows4_lookup (l : list string) (i : nat) :
  (i < length l - 3)%nat → windows4 l !! i = Some (take 4 (drop i l)).
Proof.
  intros Hi. unfold windows4. rewrite list_lookup_fmap, lookup_seq_lt by done.
  done.
Qed.

Example windows4_of_five :
  windows4 ["8B"; "FF"; "55"; "8B"; "EC"] =
  [["8B"; "FF"; "55"; "8B"]; ["FF"; "55"; "8B"; "EC"]].
Proof. reflexivity. Qed.

Example get4gramFeatures_of_five :
  get4gramFeatures (mkBlock 0 0
    [mkInstruction 0 2 "mov" DefaultCat 0 ["8B"; "FF"] [] true true None false;
     mkInstruction 2 1 "push" DefaultCat 0 ["55"] [] false true None false;
     mkInstruction 3 2 "mov" DefaultCat 0 ["8B"; "EC"] [] false true None false] [])
  = [0; 0; 0; 0; 0; 0; 0; 0; 1; 0].
Proof. vm_compute. reflexivity. Qed.

Lemma foldl_length_preserved {B : Type} (g : list Z → B → list Z) (l : list B)
    (acc : list Z) :
  (∀ f x, length (g f x) = length f) → length (foldl g acc l) = length acc.
Proof.
  intros Hg. revert acc. induction l as [|x l IH]; intros acc; simpl; [done|].
  by rewrite IH, Hg.
Qed.

Lemma get1gramFeatures_length blk : length (get1gramFeatures blk) = 3%nat.
Proof.
  unfold get1gramFeatures. rewrite foldl_length_preserved; [done|].
  intros f x. simpl. destruct (oneGram2Idx !! _); [apply length_alter | done].
Qed.

Lemma check4Gram_length window features :
  length (check4Gram window features) = length features.
Proof.
  unfold check4Gram. destruct (fourGram2Idx !! _); [apply length_alter | done].
Qed.

Lemma get4gramFeatures_length blk : length (get4gramFeatures blk) = 10%nat.
Proof.
  unfold get4gramFeatures. rewrite scan4_windows.
  rewrite foldl_length_preserved; [done|].
  intros f w. apply check4Gram_length.
Qed.

Lemma zip_add_zeros_r (v : list Z) (n : nat) :
  length v = n → zip_with Z.add v (replicate n 0) = v.
Proof.
  intros <-. induction v as [|x v IH]; simpl; [done|].
  by rewrite IH, Z.add_0_r.
Qed.

Lemma zip_add_zeros_l (v : list Z) (n : nat) :
  length v = n → zip_with Z.add (replicate n 0) v = v.
Proof. intros <-. induction v as [|x v IH]; simpl; [done | by rewrite IH]. Qed.

Lemma col_sum_length (n : nat) (acc : list Z) (rows : list (list Z)) :
  length acc = n → Forall (λ r, length r = n) rows →
  length (foldl (zip_with Z.add) acc rows) = n.
Proof.
  revert acc. induction rows as [|r rows IH]; intros acc Hacc Hrows; simpl; [done|].
  apply Forall_cons in Hrows as [Hr Hrows]. apply IH; [|done].
  rewrite length_zip_with. lia.
Qed.

Section feature_claims.
Context `{Imports}.

Lemma getAttributes_loop_spec blk insts accO accR accH accS added :
  Forall features_sized insts →
  length accO = nOperandTypes → length accR = nOperatorTypes →
  length accH = 13%nat → length accS = nSpecialChars →
  getAttributes_loop blk insts (accO ++ accR ++ accH ++ accS, added) =
  Some (foldl (zip_with Z.add) accO (map getOperandFeatures insts) ++
        foldl (zip_with Z.add) accR (map getOperatorFeatures insts) ++
        (if added || bool_decide (insts = []) then accH
         else zip_with Z.add accH (get1gramFeatures blk ++ get4gramFeatures blk)) ++
        foldl (zip_with Z.add) accS (map getSpecialCharFeatures insts),
        added || negb (bool_decide (insts = []))).
Proof.
  intros Hsized. revert accO accR accH accS added.
  induction Hsized as [|inst insts (HO & HR & HS) _ IH];
    intros accO accR accH accS added HaO HaR HaH HaS.
  { simpl. by rewrite !orb_true_r, orb_false_r. }
  pose proof (get1gramFeatures_length blk) as H1.
  pose proof (get4gramFeatures_length blk) as H4.
  set (h := if added then replicate (length oneGram + length fourGram) 0
            else get1gramFeatures blk ++ get4gramFeatures blk).
  assert (Hh : length h = 13%nat).
  { subst h. destruct added; [done|]. rewrite length_app. lia. }
  assert (Hstep : getAttributes_step blk (accO ++ accR ++ accH ++ accS, added) inst =
    Some (zip_with Z.add accO (getOperandFeatures inst) ++
          zip_with Z.add accR (getOperatorFeatures inst) ++
          zip_with Z.add accH h ++
          zip_with Z.add accS (getSpecialCharFeatures inst), true)).
  { unfold getAttributes_step, row_add. fold h.
    assert ((if added
             then (getOperandFeatures inst ++ getOperatorFeatures inst) ++
                  replicate (length oneGram + length fourGram) 0
             else (getOperandFeatures inst ++ getOperatorFeatures inst) ++
                  get1gramFeatures blk ++ get4gramFeatures blk)
            = (getOperandFeatures inst ++ getOperatorFeatures inst) ++ h) as ->
      by (subst h; by destruct added).
    rewrite <- !app_assoc.
    assert (length (getOperandFeatures inst ++ getOperatorFeatures inst ++ h ++
                    getSpecialCharFeatures inst)
            = length (accO ++ accR ++ accH ++ accS)) as Hlen.
    { rewrite !length_app. lia. }
    apply Nat.eqb_eq in Hlen. rewrite Hlen. simpl.
    rewrite !zip_with_app by lia. done. }
  change (getAttributes_loop blk (inst :: insts) (accO ++ accR ++ accH ++ accS, added))
    with (getAttributes_step blk (accO ++ accR ++ accH ++ accS, added) inst
          ≫= getAttributes_loop blk insts).
  rewrite Hstep. simpl mbind.
  change (Some ?x ≫= ?f) with (f x).
  rewrite IH by (rewrite ?length_zip_with; lia).
  rewrite (bool_decide_eq_false_2 (inst :: insts = [])) by done.
  simpl. rewrite orb_true_r, orb_false_r.
  subst h. destruct added; [|done].
  change (replicate (length oneGram + length fourGram) 0) with (replicate 13 0).
  by rewrite (zip_add_zeros_r accH 13 HaH).
Qed.

End feature_claims.

Section attribute_claims.
Context `{Imports}.

(** C8. For a block with at least one instruction (whose feature methods
    return rows of the class dimensions), the attribute vector is, in this
    order: the column sums of the operand and operator rows, the block's
    1-gram histogram and its 4-gram histogram, each exactly once whatever the
    number of instructions, the column sum of the special-character rows, the
    degree and the number of instructions. The scan of the 4-gram histogram
    runs [check4Gram] (or any function put in its place) on the windows of
    four consecutive tokens of the block's token stream, each once, first to
    last; there are [n - 3] of them, none when [n < 3], the window at index
    [i] being tokens [i .. i + 3]. *)
Theorem block_attributes_count_histograms_once (blk : Block) :
  instList blk ≠ [] →
  Forall features_sized (instList blk) →
  getAttributes blk =
    Some (col_sum nOperandTypes (map getOperandFeatures (instList blk)) ++
          col_sum nOperatorTypes (map getOperatorFeatures (instList blk)) ++
          get1gramFeatures blk ++ get4gramFeatures blk ++
          col_sum nSpecialChars (map getSpecialCharFeatures (instList blk)) ++
          [Z.of_nat (length (edgeList blk)); Z.of_nat (length (instList blk))]) ∧
  (∀ (A : Type) (check : list string → A → A) (features : A),
     scan4 check (bytesFromInsts blk) features =
     foldl (λ a w, check w a) features (windows4 (bytesFromInsts blk))) ∧
  get4gramFeatures blk =
    foldl (λ a w, check4Gram w a) (replicate (length fourGram) 0)
      (windows4 (bytesFromInsts blk)) ∧
  length (windows4 (bytesFromInsts blk)) = (length (bytesFromInsts blk) - 3)%nat ∧
  (∀ i, (i < length (bytesFromInsts blk) - 3)%nat →
        windows4 (bytesFromInsts blk) !! i = Some (take 4 (drop i (bytesFromInsts blk)))).
Proof.
  intros Hne Hsized. split; [|split; [|split; [|split]]].
  - unfold getAttributes, instDim, col_sum.
    rewrite !replicate_add, <- !app_assoc.
    change (replicate (length oneGram) 0 ++ replicate (length fourGram) 0 ++
            replicate nSpecialChars 0)
      with (replicate 13 0 ++ replicate nSpecialChars 0).
    rewrite getAttributes_loop_spec
      by (try done; by rewrite length_replicate).
    rewrite bool_decide_eq_false_2 by done.
    rewrite (zip_add_zeros_l _ 13)
      by (rewrite length_app, get1gramFeatures_length, get4gramFeatures_length; lia).
    simpl. by rewrite <- !app_assoc.
  - intros A check features. apply scan4_windows.
  - apply scan4_windows.
  - apply windows4_length.
  - apply windows4_lookup.
Qed.

End attribute_claims.

(** ** The properties at concrete programs *)



Lemma jumps_enter_twice_witness :
  let inst := decoded 200 2 "jz" ConditionalJump 9999 in
  let b := with_addr2Inst [(200, inst); (202, decoded 202 2 "nop" DefaultCat (-2))]
             Builder_init in
  od_get 200 (addr2Inst b) = Some inst ∧
  address inst = 200 ∧
  (category inst = ConditionalJump ∨ category inst = UnconditionalJump) ∧
  ∃ b' e1 e2,
    accept (H := sample_imports) 200 b = Some b' ∧
    enterLog b' = enterLog b ++ [e1; e2] ∧
    enter_addr e1 = 9999 ∧ enter_addr e2 = 200 + 2 ∧
    fallThrough <$> od_get 200 (addr2Inst b') = Some true.
Proof.
  intros inst b. split; [reflexivity|]. split; [reflexivity|].
  split; [left; reflexivity|].
  destruct (jumps_enter_twice (H := sample_imports) b 200 inst)
    as (b2 & b' & e1 & e2 & Hacc & _ & _ & Hlog & (_ & Ha1) & (_ & Ha2) & Hft);
    [reflexivity | reflexivity | left; reflexivity |].
  exists b', e1, e2. repeat split; assumption.
Defined.

Lemma call_edges_have_reverse_edges_witness :
  let inst := set_branchTo (Some 4106) (set_call true (decoded 4096 5 "call" Calling 4106)) in
  let b := with_addr2Inst
             [(4096, inst); (4101, decoded 4101 5 "nop" DefaultCat (-2));
              (4106, set_start true (decoded 4106 2 "nop" DefaultCat (-2)))]
             Builder_init in
  blocks_keyed (addr2Block b) ∧
  (4096, inst) ∈ addr2Inst b ∧
  call inst = true ∧
  branchTo inst = Some 4106 ∧
  ∃ c blkC blkT,
    addr2Block (connectBlocks b) !! c = Some blkC ∧
    addr2Block (connectBlocks b) !! 4106 = Some blkT ∧
    startAddr blkC = c ∧ inst ∈ instList blkC ∧
    4106 ∈ edgeList blkC ∧ c ∈ edgeList blkT.
Proof.
  intros inst b.
  assert (Hkeyed : blocks_keyed (addr2Block b)) by exact blocks_keyed_empty.
  assert (Hin : (4096, inst) ∈ addr2Inst b) by left.
  split; [exact Hkeyed|]. split; [exact Hin|].
  split; [reflexivity|]. split; [reflexivity|].
  apply (call_edges_have_reverse_edges b 4096 4106 inst Hkeyed Hin);
    reflexivity.
Defined.

Lemma block_attributes_count_histograms_once_witness :
  let blk := mkBlock 0 3
    [mkInstruction 0 2 "mov" DefaultCat 0 ["8B"; "FF"] ["mov edi, edi"] true true None false;
     mkInstruction 2 1 "push" DefaultCat 0 ["55"] ["push ebp"] false true None false;
     mkInstruction 3 2 "mov" DefaultCat 0 ["8B"; "EC"] ["mov ebp, esp"] false true None false]
    [] in
  instList blk ≠ [] ∧
  Forall (features_sized (H := sample_imports)) (instList blk) ∧
  getAttributes (H := sample_imports) blk
    = Some [0; 3; 3; 0; 1; 0; 0; 0; 0; 0; 0; 0; 0; 0; 1; 0; 0; 0; 3] ∧
  length (windows4 (bytesFromInsts blk)) = 2%nat.
Proof.
  intros blk.
  assert (Hne : instList blk ≠ []) by discriminate.
  assert (Hsized : Forall (features_sized (H := sample_imports)) (instList blk))
    by (repeat constructor).
  split; [exact Hne|]. split; [exact Hsized|].
  destruct (block_attributes_count_histograms_once (H := sample_imports) blk Hne Hsized)
    as (Hattr & _ & _ & Hlen & _).
  split; [rewrite Hattr | rewrite Hlen]; reflexivity.
Defined.

Lemma auxiliary_instructions_add_no_edges_witness :
  (∀ a n, branchTo (newInstruction (Imports := sample_imports) a n) = None) ∧
  index_keyed (addr2Inst jump_to_low_address) ∧
  addr2InstAux jump_to_low_address = [] ∧
  ∃ b', visitInsts (H := sample_imports) jump_to_low_address = Some b' ∧
        ∀ k i, (k, i) ∈ addr2InstAux b' →
               sentinel_shape i ∧ od_get k (addr2Inst b') = Some i.
Proof.
  assert (Hnew : ∀ a n, branchTo (newInstruction (Imports := sample_imports) a n) = None)
    by (intros a n; reflexivity).
  assert (Hkeyed : index_keyed (addr2Inst jump_to_low_address))
    by (repeat constructor).
  split; [exact Hnew|]. split; [exact Hkeyed|]. split; [reflexivity|].
  destruct (auxiliary_instructions_add_no_edges (H := sample_imports)
              jump_to_low_address Hnew Hkeyed eq_refl) as (b' & Hvisit & Haux).
  exists b'. split; [exact Hvisit|]. intros k i Hin.
  destruct (Haux k i Hin) as (Hshape & Hget & _). split; assumption.
Defined.

(** C1 at its failing input: a call at [0x1000] to [0x100A], followed by
    an instruction at [0x1005] that falls through into [0x100A]. The branch
    edge of the call is in the edge list of block [0x1000] when the
    fallthrough edge is appended without a membership test. *)
Theorem fallthrough_edge_is_duplicated :
  (visitInsts (H := sample_imports) call_then_fallthrough ≫= λ b,
     edgeList <$> addr2Block (connectBlocks b) !! 4096)
  = Some [4106; 4106].
Proof. vm_compute. reflexivity. Qed.

(** C10, as stated, fails: a program without any call, in which a jump to
    the low address [0x21] makes a software-interrupt sentinel. The jump is
    not a block start, so block assembly appends it to the sentinel's block,
    and the block gets the jump's branch edge. *)
Lemma sentinel_block_gets_branch_edge :
  ∃ b', visitInsts (H := sample_imports) jump_to_low_address = Some b' ∧
        operand <$> od_get 33 (addr2InstAux b') = Some "softirq_21" ∧
        forallb (λ e, negb (call e.2)) (addr2Inst b') = true ∧
        edgeList <$> addr2Block (connectBlocks b') !! 33 = Some [33] ∧
        (λ blk, address <$> instList blk) <$> addr2Block (connectBlocks b') !! 33
          = Some [33; 4096].
Proof. eexists. split; [vm_compute; reflexivity|]. vm_compute. done. Qed.

(** * Further properties *)

(** ** Block assembly: well-formed blocks *)

Lemma getBlockAtAddr_lookup_inv a b k blk :
  addr2Block (getBlockAtAddr a b) !! k = Some blk →
  addr2Block b !! k = Some blk ∨
  (k = a ∧ blk = mkBlock a a [] [] ∧ addr2Block b !! a = None).
Proof.
  unfold getBlockAtAddr. destruct (addr2Block b !! a) eqn:Ha; simpl; [by left|].
  rewrite lookup_insert. case_decide; [|by left].
  subst k. intros [= <-]. by right.
Qed.

Lemma append_edge_lookup_inv ref a b k blk :
  addr2Block (append_edge ref a b) !! k = Some blk →
  ∃ blk0, addr2Block b !! k = Some blk0 ∧
          startAddr blk = startAddr blk0 ∧ endAddr blk = endAddr blk0 ∧
          instList blk = instList blk0 ∧
          (edgeList blk = edgeList blk0 ∨
           (k = ref ∧ edgeList blk = edgeList blk0 ++ [a])).
Proof.
  unfold append_edge. simpl. rewrite lookup_alter. case_decide as Hd.
  - subst k. destruct (addr2Block b !! ref) as [blk0|]; simpl; [|done].
    intros [= <-]. exists blk0. simpl. repeat split; auto.
  - intros Hk. exists blk. repeat split; auto.
Qed.

Lemma append_edge_is_Some ref a b k :
  is_Some (addr2Block b !! k) → is_Some (addr2Block (append_edge ref a b) !! k).
Proof. apply blocks_grow_is_Some, append_edge_grow. Qed.

Lemma getBlockAtAddr_is_Some a b k :
  is_Some (addr2Block b !! k) → is_Some (addr2Block (getBlockAtAddr a b) !! k).
Proof. apply blocks_grow_is_Some, getBlockAtAddr_grow. Qed.

Lemma getBlockAtAddr_wf a b :
  blocks_wf (addr2Block b) → blocks_wf (addr2Block (getBlockAtAddr a b)).
Proof.
  intros (Hkeyed & Hclosed & Hbound). split; [by apply getBlockAtAddr_keyed|]. split.
  - intros k blk x Hk Hx.
    destruct (getBlockAtAddr_lookup_inv _ _ _ _ Hk) as [Hold|(-> & -> & _)].
    + eapply getBlockAtAddr_is_Some, Hclosed; done.
    + by apply elem_of_nil in Hx.
  - intros k blk Hk.
    destruct (getBlockAtAddr_lookup_inv _ _ _ _ Hk) as [Hold|(-> & -> & _)].
    + by eapply Hbound.
    + split; simpl; [lia | constructor].
Qed.

Lemma append_edge_wf ref a b :
  blocks_wf (addr2Block b) → is_Some (addr2Block b !! a) →
  blocks_wf (addr2Block (append_edge ref a b)).
Proof.
  intros (Hkeyed & Hclosed & Hbound) Ha. split; [by apply append_edge_keyed|]. split.
  - intros k blk x Hk Hx. apply append_edge_is_Some.
    destruct (append_edge_lookup_inv _ _ _ _ _ Hk)
      as (blk0 & Hk0 & _ & _ & _ & [He|[_ He]]); rewrite He in Hx.
    + by eapply Hclosed.
    + apply elem_of_app in Hx as [Hx|Hx]; [by eapply Hclosed|].
      apply list_elem_of_singleton in Hx. by subst x.
  - intros k blk Hk.
    destruct (append_edge_lookup_inv _ _ _ _ _ Hk) as (blk0 & Hk0 & Hs & He & Hi & _).
    destruct (Hbound _ _ Hk0) as [Hle Hall]. unfold block_bounded.
    by rewrite Hs, He, Hi.
Qed.

Lemma close_inst_wf curr inst b :
  blocks_wf (addr2Block b) → is_Some (addr2Block b !! curr) →
  blocks_wf (addr2Block (close_inst curr inst b)).
Proof.
  intros (Hkeyed & Hclosed & Hbound) [cb Hcb].
  split; [by apply close_inst_keyed|].
  rewrite (close_inst_lookup curr inst b cb) by done. split.
  - intros k blk x. rewrite lookup_insert. case_decide as Hd.
    + subst k. intros [= <-] Hx. simpl in Hx.
      rewrite lookup_insert. case_decide; [eauto|]. by eapply Hclosed.
    + intros Hk Hx. rewrite lookup_insert. case_decide; [eauto|].
      by eapply Hclosed.
  - intros k blk. rewrite lookup_insert. case_decide as Hd; [|apply Hbound].
    subst k. intros [= <-]. destruct (Hbound _ _ Hcb) as [Hle Hall].
    split; simpl; [lia|]. apply Forall_app. split.
    + eapply Forall_impl; [done|]. intros i Hi. simpl in Hi. lia.
    + constructor; [lia | constructor].
Qed.

Lemma connect_fallthrough_wf curr addr inst b :
  blocks_wf (addr2Block b) →
  blocks_wf (addr2Block (connect_fallthrough curr addr inst b).2).
Proof.
  intros Hwf. unfold connect_fallthrough.
  destruct (od_get (addr + size inst) (addr2Inst b)) as [nextInst|]; [|done].
  destruct (fallThrough inst && start nextInst); [|done]. simpl.
  pose proof (getBlockAtAddr_wf (addr + size inst) b Hwf) as Hwf1.
  pose proof (getBlockAtAddr_lookup (addr + size inst) b) as Hn.
  rewrite block_at_keyed by (done || apply Hwf1).
  by apply append_edge_wf.
Qed.

Lemma connect_branch_wf curr inst b :
  blocks_wf (addr2Block b) → is_Some (addr2Block b !! curr) →
  blocks_wf (addr2Block (connect_branch curr inst b)).
Proof.
  intros Hwf Hcurr. unfold connect_branch.
  destruct (branchTo inst) as [t|]; [|done].
  pose proof (getBlockAtAddr_wf t b Hwf) as Hwf1.
  pose proof (getBlockAtAddr_lookup t b) as Ht1.
  pose proof (getBlockAtAddr_is_Some t b curr Hcurr) as Hc1.
  set (b1 := getBlockAtAddr t b) in *.
  rewrite (block_at_keyed t b1) by (done || apply Hwf1).
  assert (blocks_wf (addr2Block
            (if bool_decide (t ∈ edgeList (block_at curr b1)) then b1
             else append_edge curr t b1)) ∧
          is_Some (addr2Block
            (if bool_decide (t ∈ edgeList (block_at curr b1)) then b1
             else append_edge curr t b1) !! curr) ∧
          is_Some (addr2Block
            (if bool_decide (t ∈ edgeList (block_at curr b1)) then b1
             else append_edge curr t b1) !! t)) as (Hwf2 & Hc2 & Ht2).
  { case_bool_decide; [done|].
    auto using append_edge_wf, append_edge_is_Some. }
  set (b2 := if bool_decide (t ∈ edgeList (block_at curr b1)) then b1
             else append_edge curr t b1) in *.
  destruct (call inst); [|done].
  rewrite (block_at_keyed curr b2) by (done || apply Hwf2).
  case_bool_decide; [done|]. by apply append_edge_wf.
Qed.

(** The shape of one iteration of [connectBlocks]: the block [curr] that
    the instruction goes into is opened or kept, then the three parts of the
    body run in turn. *)
Lemma connectBlocks_step_unfold st addr inst :
  ∃ curr b1,
    ((curr = addr ∧ b1 = getBlockAtAddr addr st.2 ∧
      (st.1 = None ∨ start inst = true)) ∨
     (st.1 = Some curr ∧ b1 = st.2 ∧ start inst = false)) ∧
    connectBlocks_step st (addr, inst) =
      (Some (connect_fallthrough curr addr inst b1).1,
       close_inst curr inst
         (connect_branch curr inst (connect_fallthrough curr addr inst b1).2)).
Proof.
  destruct st as [[c|] b]; simpl.
  - destruct (start inst) eqn:Hstart.
    + exists addr, (getBlockAtAddr addr b). split; [left; auto|].
      by destruct (connect_fallthrough addr addr inst (getBlockAtAddr addr b)).
    + exists c, b. split; [right; auto|].
      by destruct (connect_fallthrough c addr inst b).
  - exists addr, (getBlockAtAddr addr b). split; [left; auto|].
    by destruct (connect_fallthrough addr addr inst (getBlockAtAddr addr b)).
Qed.

Lemma connectBlocks_step_wf st addr inst :
  assembly_inv st → blocks_wf (addr2Block st.2) →
  blocks_wf (addr2Block (connectBlocks_step st (addr, inst)).2).
Proof.
  intros [_ Hcur] Hwf.
  destruct (connectBlocks_step_unfold st addr inst) as (curr & b1 & Hopen & ->).
  simpl.
  assert (blocks_wf (addr2Block b1) ∧ is_Some (addr2Block b1 !! curr))
    as [Hwf1 Hc1].
  { destruct Hopen as [(-> & -> & _)|(Hc & -> & _)].
    - split; [by apply getBlockAtAddr_wf | apply getBlockAtAddr_lookup].
    - split; [done | by apply Hcur]. }
  pose proof (connect_fallthrough_wf curr addr inst b1 Hwf1) as Hwf2.
  destruct (connect_fallthrough_spec curr addr inst b1 (proj1 Hwf1) Hc1)
    as (Hg2 & _ & _ & _).
  pose proof (blocks_grow_is_Some _ _ curr Hg2 Hc1) as Hc2.
  pose proof (connect_branch_wf curr inst _ Hwf2 Hc2) as Hwf3.
  destruct (connect_branch_spec curr inst _ (proj1 Hwf2) Hc2) as (Hg3 & _).
  apply close_inst_wf; [done|]. by eapply blocks_grow_is_Some.
Qed.

Lemma connectBlocks_loop_wf entries st :
  assembly_inv st → blocks_wf (addr2Block st.2) →
  blocks_wf (addr2Block (foldl connectBlocks_step st entries).2).
Proof.
  revert st. induction entries as [|[a i] entries IH]; intros st Hinv Hwf; [done|].
  simpl. apply IH.
  - by destruct (connectBlocks_step_spec st a i Hinv) as (Hinv1 & _).
  - by apply connectBlocks_step_wf.
Qed.

Lemma blocks_wf_empty : blocks_wf ∅.
Proof.
  split; [apply blocks_keyed_empty|].
  split; intros k blk; rewrite lookup_empty; discriminate.
Qed.

(** X1. Block assembly leaves no dangling edge: after [connectBlocks],
    every entry of every block's [edgeList] is the start address of a stored
    block, and every block is stored under its own [startAddr]. *)
Theorem connectBlocks_no_dangling_edge (b : Builder) (k a : Z) (blk : Block) :
  blocks_wf (addr2Block b) →
  addr2Block (connectBlocks b) !! k = Some blk →
  a ∈ edgeList blk →
  startAddr blk = k ∧
  ∃ blkA, addr2Block (connectBlocks b) !! a = Some blkA ∧ startAddr blkA = a.
Proof.
  intros Hwf Hk Ha.
  destruct (connectBlocks_loop_wf (sorted_items (addr2Inst b)) (None, b))
    as (Hkeyed & Hclosed & _).
  { split; [apply Hwf | intros c [=]]. }
  { done. }
  fold (connectBlocks b) in Hkeyed, Hclosed.
  split; [by apply Hkeyed|].
  destruct (Hclosed k blk a Hk Ha) as [blkA HA]. eauto.
Qed.

(** X2. After [connectBlocks], in every block [startAddr <= endAddr], and
    [endAddr] is at least the address of every instruction of the block. *)
Theorem connectBlocks_endAddr_bounds (b : Builder) (k : Z) (blk : Block) :
  blocks_wf (addr2Block b) →
  addr2Block (connectBlocks b) !! k = Some blk →
  startAddr blk ≤ endAddr blk ∧
  ∀ inst, inst ∈ instList blk → address inst ≤ endAddr blk.
Proof.
  intros Hwf Hk.
  destruct (connectBlocks_loop_wf (sorted_items (addr2Inst b)) (None, b))
    as (_ & _ & Hbound).
  { split; [apply Hwf | intros c [=]]. }
  { done. }
  destruct (Hbound k blk Hk) as [Hle Hall]. split; [done|].
  by apply Forall_forall.
Qed.

(** ** Block assembly: where instructions and edges go *)

Lemma connect_fallthrough_edge curr addr inst nextInst b :
  blocks_keyed (addr2Block b) → is_Some (addr2Block b !! curr) →
  od_get (addr + size inst) (addr2Inst b) = Some nextInst →
  fallThrough inst = true → start nextInst = true →
  edge_in (addr2Block (connect_fallthrough curr addr inst b).2) curr (addr + size inst) ∧
  is_Some (addr2Block (connect_fallthrough curr addr inst b).2 !! (addr + size inst)).
Proof.
  intros Hkeyed Hcurr Hnext Hft Hstart. unfold connect_fallthrough.
  rewrite Hnext, Hft, Hstart. simpl.
  pose proof (getBlockAtAddr_keyed (addr + size inst) b Hkeyed) as Hk1.
  pose proof (getBlockAtAddr_lookup (addr + size inst) b) as Hn1.
  pose proof (getBlockAtAddr_is_Some (addr + size inst) b curr Hcurr) as [cb Hc1].
  rewrite block_at_keyed by done. split.
  - by eapply append_edge_elem.
  - by apply append_edge_is_Some.
Qed.

Lemma connect_branch_forward curr inst t b :
  blocks_keyed (addr2Block b) → is_Some (addr2Block b !! curr) →
  branchTo inst = Some t →
  edge_in (addr2Block (connect_branch curr inst b)) curr t ∧
  is_Some (addr2Block (connect_branch curr inst b) !! t).
Proof.
  intros Hkeyed Hcurr Hbr. unfold connect_branch. rewrite Hbr.
  pose proof (getBlockAtAddr_keyed t b Hkeyed) as Hk1.
  pose proof (getBlockAtAddr_lookup t b) as Ht1.
  pose proof (getBlockAtAddr_is_Some t b curr Hcurr) as Hc1.
  set (b1 := getBlockAtAddr t b) in *.
  rewrite (block_at_keyed t b1) by done.
  destruct (ensure_edge curr t b1 Hk1 Hc1) as (Hg2 & Hk2 & He2 & _).
  set (b2 := if bool_decide (t ∈ edgeList (block_at curr b1)) then b1
             else append_edge curr t b1) in *.
  pose proof (blocks_grow_is_Some _ _ t Hg2 Ht1) as Ht2.
  destruct (call inst); [|done].
  rewrite (block_at_keyed curr b2) by eauto using blocks_grow_is_Some.
  destruct (ensure_edge t curr b2 Hk2 Ht2) as (Hg3 & _ & _ & _).
  split; [by eapply edge_in_grow | by eapply blocks_grow_is_Some].
Qed.

Lemma placed_grow idx m m' addr inst :
  blocks_grow m m' → placed idx m addr inst → placed idx m' addr inst.
Proof.
  intros Hg (c & blk & Hc & Hs & Hi & Hst & Hbr & Hft).
  destruct (Hg _ _ Hc) as (blk' & Hc' & Hs' & He' & Hi').
  exists c, blk'. split; [done|]. split; [congruence|]. split; [by apply Hi'|].
  split; [done|]. split.
  - intros t Ht. destruct (Hbr t Ht) as [Hin Hex].
    split; [by apply He' | by eapply blocks_grow_is_Some].
  - intros n H1 H2 H3. destruct (Hft n H1 H2 H3) as [Hin Hex].
    split; [by apply He' | by eapply blocks_grow_is_Some].
Qed.

Lemma connectBlocks_step_placed st addr inst :
  assembly_inv st →
  placed (addr2Inst st.2) (addr2Block (connectBlocks_step st (addr, inst)).2) addr inst.
Proof.
  intros [Hkeyed Hcur].
  destruct (connectBlocks_step_unfold st addr inst) as (curr & b1 & Hopen & ->).
  simpl.
  assert (blocks_keyed (addr2Block b1) ∧ is_Some (addr2Block b1 !! curr) ∧
          addr2Inst b1 = addr2Inst st.2 ∧ (start inst = true → curr = addr))
    as (Hk1 & Hc1 & Hi1 & Hst).
  { destruct Hopen as [(-> & -> & _)|(Hc & -> & Hns)].
    - split; [by apply getBlockAtAddr_keyed|]. split; [apply getBlockAtAddr_lookup|].
      split; [apply getBlockAtAddr_addr2Inst | done].
    - split; [done|]. split; [by apply Hcur|]. split; [done|]. congruence. }
  destruct (connect_fallthrough_spec curr addr inst b1 Hk1 Hc1)
    as (Hg2 & Hk2 & _ & _).
  set (b2 := (connect_fallthrough curr addr inst b1).2) in *.
  pose proof (blocks_grow_is_Some _ _ curr Hg2 Hc1) as Hc2.
  destruct (connect_branch_spec curr inst b2 Hk2 Hc2) as (Hg3 & Hk3 & _ & _).
  set (b3 := connect_branch curr inst b2) in *.
  pose proof (blocks_grow_is_Some _ _ curr Hg3 Hc2) as Hc3.
  pose proof (close_inst_grow curr inst b3 Hk3 Hc3) as Hg4.
  destruct (close_inst_elem curr inst b3 Hk3 Hc3) as (blk & Hblk & Hin).
  exists curr, blk. split; [done|].
  split; [by apply (close_inst_keyed curr inst b3 Hk3 Hc3)|].
  split; [done|]. split; [done|]. split.
  - intros t Ht.
    destruct (connect_branch_forward curr inst t b2 Hk2 Hc2 Ht) as [He Hex].
    fold b3 in He, Hex.
    destruct (edge_in_grow _ _ _ _ Hg4 He) as (blk' & Hblk' & Hin').
    rewrite Hblk in Hblk'. injection Hblk' as <-.
    split; [done | by eapply blocks_grow_is_Some].
  - intros n Hft Hn Hsn. rewrite <- Hi1 in Hn.
    destruct (connect_fallthrough_edge curr addr inst n b1 Hk1 Hc1 Hn Hft Hsn)
      as [He Hex]. fold b2 in He, Hex.
    pose proof (blocks_grow_trans _ _ _ Hg3 Hg4) as Hg34.
    destruct (edge_in_grow _ _ _ _ Hg34 He) as (blk' & Hblk' & Hin').
    rewrite Hblk in Hblk'. injection Hblk' as <-.
    split; [done | by eapply blocks_grow_is_Some].
Qed.

Lemma connectBlocks_loop_placed entries st addr inst :
  assembly_inv st → (addr, inst) ∈ entries →
  placed (addr2Inst st.2) (addr2Block (foldl connectBlocks_step st entries).2) addr inst.
Proof.
  revert st. induction entries as [|[a i] entries IH]; intros st Hinv Hin.
  { by apply elem_of_nil in Hin. }
  simpl. destruct (connectBlocks_step_spec st a i Hinv) as (Hinv1 & _ & Hidx & _).
  apply elem_of_cons in Hin as [Heq|Hin].
  - injection Heq as -> ->.
    destruct (connectBlocks_loop_spec entries _ Hinv1) as (_ & Hg & _).
    eapply placed_grow; [done|]. by apply connectBlocks_step_placed.
  - rewrite <- Hidx. by apply IH.
Qed.

Lemma connectBlocks_placed b addr inst :
  blocks_keyed (addr2Block b) → (addr, inst) ∈ addr2Inst b →
  placed (addr2Inst b) (addr2Block (connectBlocks b)) addr inst.
Proof.
  intros Hkeyed Hin. unfold connectBlocks.
  apply (connectBlocks_loop_placed (sorted_items (addr2Inst b)) (None, b)).
  - split; [done | intros c [=]].
  - unfold sorted_items. by rewrite merge_sort_Permutation.
Qed.

(** X3. Block assembly puts every instruction of the index into a stored
    block, and an instruction marked as a block start into the block stored
    under its own address. *)
Theorem connectBlocks_places_every_instruction (b : Builder) (addr : Z)
    (inst : Instruction) :
  blocks_keyed (addr2Block b) →
  (addr, inst) ∈ addr2Inst b →
  ∃ c blk,
    addr2Block (connectBlocks b) !! c = Some blk ∧ startAddr blk = c ∧
    inst ∈ instList blk ∧ (start inst = true → c = addr).
Proof.
  intros Hkeyed Hin.
  destruct (connectBlocks_placed b addr inst Hkeyed Hin)
    as (c & blk & Hc & Hs & Hi & Hst & _).
  by exists c, blk.
Qed.

(** X4. For every instruction with a branch target [t], the block that
    holds the instruction has [t] in its edge list and a block is stored at
    [t], whether or not the instruction is a call and whether or not an
    instruction was decoded at [t]. *)
Theorem connectBlocks_branch_edge (b : Builder) (addr t : Z) (inst : Instruction) :
  blocks_keyed (addr2Block b) →
  (addr, inst) ∈ addr2Inst b →
  branchTo inst = Some t →
  ∃ c blk blkT,
    addr2Block (connectBlocks b) !! c = Some blk ∧ inst ∈ instList blk ∧
    t ∈ edgeList blk ∧ addr2Block (connectBlocks b) !! t = Some blkT.
Proof.
  intros Hkeyed Hin Hbr.
  destruct (connectBlocks_placed b addr inst Hkeyed Hin)
    as (c & blk & Hc & _ & Hi & _ & Hedge & _).
  destruct (Hedge t Hbr) as [He [blkT HT]]. by exists c, blk, blkT.
Qed.

(** X5. When an instruction falls through and the instruction decoded at
    its address plus its size is a block start, the block that holds the
    instruction has that address in its edge list, and a block is stored
    there. *)
Theorem connectBlocks_fallthrough_edge (b : Builder) (addr : Z)
    (inst nextInst : Instruction) :
  blocks_keyed (addr2Block b) →
  (addr, inst) ∈ addr2Inst b →
  fallThrough inst = true →
  od_get (addr + size inst) (addr2Inst b) = Some nextInst →
  start nextInst = true →
  ∃ c blk blkN,
    addr2Block (connectBlocks b) !! c = Some blk ∧ inst ∈ instList blk ∧
    (addr + size inst) ∈ edgeList blk ∧
    addr2Block (connectBlocks b) !! (addr + size inst) = Some blkN.
Proof.
  intros Hkeyed Hin Hft Hn Hsn.
  destruct (connectBlocks_placed b addr inst Hkeyed Hin)
    as (c & blk & Hc & _ & Hi & _ & _ & Hedge).
  destruct (Hedge nextInst Hft Hn Hsn) as [He [blkN HN]]. by exists c, blk, blkN.
Qed.

(** ** Block assembly: duplicate edges *)

Lemma getBlockAtAddr_nodup a b :
  edges_nodup (addr2Block b) → edges_nodup (addr2Block (getBlockAtAddr a b)).
Proof.
  intros Hnd k blk Hk.
  destruct (getBlockAtAddr_lookup_inv _ _ _ _ Hk) as [Hold|(-> & -> & _)].
  - by eapply Hnd.
  - apply NoDup_nil_2.
Qed.

Lemma ensure_edge_nodup src a b :
  edges_nodup (addr2Block b) →
  edges_nodup (addr2Block
    (if bool_decide (a ∈ edgeList (block_at src b)) then b
     else append_edge src a b)).
Proof.
  intros Hnd. case_bool_decide as Hin; [done|]. intros k blk Hk.
  destruct (append_edge_lookup_inv _ _ _ _ _ Hk)
    as (blk0 & Hk0 & _ & _ & _ & [He|[-> He]]); rewrite He.
  - by eapply Hnd.
  - unfold block_at in Hin. rewrite Hk0 in Hin. simpl in Hin.
    apply NoDup_app. split; [by eapply Hnd|]. split; [|apply NoDup_singleton].
    intros x Hx Hx'. apply list_elem_of_singleton in Hx'. by subst x.
Qed.

Lemma connect_branch_nodup curr inst b :
  edges_nodup (addr2Block b) → edges_nodup (addr2Block (connect_branch curr inst b)).
Proof.
  intros Hnd. unfold connect_branch. destruct (branchTo inst) as [t|]; [|done].
  pose proof (getBlockAtAddr_nodup t b Hnd) as Hnd1.
  set (b1 := getBlockAtAddr t b) in *.
  pose proof (ensure_edge_nodup curr (startAddr (block_at t b1)) b1 Hnd1) as Hnd2.
  set (b2 := if bool_decide (startAddr (block_at t b1) ∈ edgeList (block_at curr b1))
             then b1 else append_edge curr (startAddr (block_at t b1)) b1) in *.
  destruct (call inst); [|done].
  apply (ensure_edge_nodup t (startAddr (block_at curr b2)) b2 Hnd2).
Qed.

Lemma close_inst_nodup curr inst b :
  blocks_keyed (addr2Block b) → is_Some (addr2Block b !! curr) →
  edges_nodup (addr2Block b) → edges_nodup (addr2Block (close_inst curr inst b)).
Proof.
  intros Hkeyed [cb Hcb] Hnd k blk.
  rewrite (close_inst_lookup curr inst b cb) by done.
  rewrite lookup_insert. case_decide; [|apply Hnd].
  intros [= <-]. simpl. by eapply Hnd.
Qed.

Lemma connectBlocks_step_nodup st addr inst :
  assembly_inv st → edges_nodup (addr2Block st.2) →
  (∀ nextInst, fallThrough inst = true →
     od_get (addr + size inst) (addr2Inst st.2) = Some nextInst →
     start nextInst = false) →
  edges_nodup (addr2Block (connectBlocks_step st (addr, inst)).2).
Proof.
  intros [Hkeyed Hcur] Hnd Hnoft.
  destruct (connectBlocks_step_unfold st addr inst) as (curr & b1 & Hopen & ->).
  simpl.
  assert (blocks_keyed (addr2Block b1) ∧ is_Some (addr2Block b1 !! curr) ∧
          addr2Inst b1 = addr2Inst st.2 ∧ edges_nodup (addr2Block b1))
    as (Hk1 & Hc1 & Hi1 & Hnd1).
  { destruct Hopen as [(-> & -> & _)|(Hc & -> & Hns)].
    - split; [by apply getBlockAtAddr_keyed|]. split; [apply getBlockAtAddr_lookup|].
      split; [apply getBlockAtAddr_addr2Inst | by apply getBlockAtAddr_nodup].
    - split; [done|]. split; [by apply Hcur|]. done. }
  assert ((connect_fallthrough curr addr inst b1).2 = b1) as Hsame.
  { unfold connect_fallthrough. rewrite Hi1.
    destruct (od_get (addr + size inst) (addr2Inst st.2)) as [n|] eqn:Hn; [|done].
    destruct (fallThrough inst) eqn:Hft; [|done].
    by rewrite (Hnoft n eq_refl eq_refl). }
  rewrite Hsame.
  destruct (connect_branch_spec curr inst b1 Hk1 Hc1) as (Hg3 & Hk3 & _ & _).
  apply close_inst_nodup; [done | by eapply blocks_grow_is_Some |].
  by apply connect_branch_nodup.
Qed.

Lemma connectBlocks_loop_nodup entries st :
  assembly_inv st → edges_nodup (addr2Block st.2) →
  (∀ addr inst nextInst, (addr, inst) ∈ entries → fallThrough inst = true →
     od_get (addr + size inst) (addr2Inst st.2) = Some nextInst →
     start nextInst = false) →
  edges_nodup (addr2Block (foldl connectBlocks_step st entries).2).
Proof.
  revert st. induction entries as [|[a i] entries IH]; intros st Hinv Hnd Hnoft;
    [done|].
  simpl. destruct (connectBlocks_step_spec st a i Hinv) as (Hinv1 & _ & Hidx & _).
  apply IH; [done | |].
  - apply connectBlocks_step_nodup; [done..|].
    intros n. apply Hnoft. left.
  - intros addr inst n Hin. rewrite Hidx. apply Hnoft. by right.
Qed.

(** X6. The branch and call-return edges are added without duplicates: in
    an index in which no instruction falls through into a block start, block
    assembly leaves every edge list free of repeated addresses. *)
Theorem connectBlocks_edges_nodup (b : Builder) (k : Z) (blk : Block) :
  blocks_keyed (addr2Block b) →
  edges_nodup (addr2Block b) →
  no_fallthrough_edge (addr2Inst b) →
  addr2Block (connectBlocks b) !! k = Some blk →
  NoDup (edgeList blk).
Proof.
  intros Hkeyed Hnd Hnoft Hk.
  apply (connectBlocks_loop_nodup (sorted_items (addr2Inst b)) (None, b)) with k;
    [split; [done | intros c [=]] | done | | done].
  intros addr inst n Hin. apply (Hnoft addr inst n).
  unfold sorted_items in Hin. by rewrite merge_sort_Permutation in Hin.
Qed.

(** ** Features: what the histograms count *)

Lemma gram2Idx_lookup (l : list string) (s : string) (i : nat) :
  NoDup l → gram2Idx l !! s = Some i ↔ l !! i = Some s.
Proof.
  unfold gram2Idx. revert i. induction l as [|x l IH] using rev_ind; intros i Hnd.
  { simpl. rewrite lookup_empty. by rewrite lookup_nil. }
  apply NoDup_app in Hnd as (Hnd & Hx & _).
  rewrite imap_app, foldl_app. simpl. rewrite lookup_insert.
  rewrite Nat.add_0_r. case_decide as Hd.
  - subst x. split.
    + intros [= <-]. rewrite lookup_app_r by lia.
      by rewrite Nat.sub_diag.
    + intros Hi. destruct (decide (i < length l)%nat) as [Hlt|Hge].
      * rewrite lookup_app_l in Hi by done. exfalso.
        apply (Hx s); [|by left]. by eapply list_elem_of_lookup_2.
      * apply lookup_lt_Some in Hi. rewrite length_app in Hi. simpl in Hi.
        f_equal. lia.
  - rewrite IH by done. split.
    + intros Hi. rewrite lookup_app_l; [done|]. by eapply lookup_lt_Some.
    + intros Hi. destruct (decide (i < length l)%nat) as [Hlt|Hge].
      * by rewrite lookup_app_l in Hi.
      * rewrite lookup_app_r in Hi by lia.
        destruct (i - length l)%nat; simpl in Hi; [congruence | done].
Qed.

(** A histogram over the table [grams]: every entry of the result is the
    number of items whose key is the gram at that position. *)
Lemma histogram_counts {X : Type} (key : X → string) (grams : list string)
    (xs : list X) (c : string → Z) :
  NoDup grams →
  foldl (λ features x,
           match gram2Idx grams !! key x with
           | Some i => alter (λ n, n + 1) i features
           | None => features
           end) (map c grams) xs
  = map (λ g, c g + count_of g (map key xs)) grams.
Proof.
  intros Hnd. revert c. induction xs as [|x xs IH]; intros c.
  { simpl. apply map_ext. intros g. unfold count_of. simpl. lia. }
  simpl.
  assert (match gram2Idx grams !! key x with
          | Some i => alter (λ n, n + 1) i (map c grams)
          | None => map c grams
          end = map (λ g, c g + (if decide (key x = g) then 1 else 0)) grams) as ->.
  { destruct (gram2Idx grams !! key x) as [i|] eqn:Hidx.
    - apply gram2Idx_lookup in Hidx; [|done]. apply list_eq. intros j.
      rewrite list_lookup_alter, !list_lookup_fmap.
      destruct (decide (i = j)) as [<-|Hij].
      + rewrite Hidx. simpl. by rewrite decide_True.
      + destruct (grams !! j) as [g|] eqn:Hj; simpl; [|done].
        rewrite decide_False; [by rewrite Z.add_0_r|].
        intros <-. apply Hij. by eapply NoDup_lookup.
    - apply map_ext_in. intros g Hg. rewrite decide_False; [lia|].
      intros <-. apply list_elem_of_In, list_elem_of_lookup in Hg as [i Hi].
      apply gram2Idx_lookup in Hi; [|done]. congruence. }
  rewrite IH. apply map_ext. intros g. unfold count_of.
  rewrite filter_cons. case_decide; simpl; lia.
Qed.

Lemma rstrip_idempotent (chars : list ascii) (s : string) :
  Py.rstrip chars (Py.rstrip chars s) = Py.rstrip chars s.
Proof.
  induction s as [|c s IH]; [done|]. simpl.
  destruct (Py.rstrip chars s) as [|c' r] eqn:Hr.
  - case_bool_decide as Hc; [done|]. simpl. by rewrite bool_decide_eq_false_2.
  - simpl in *. by rewrite IH.
Qed.

Lemma bytesFromInsts_stripped (blk : Block) :
  map (Py.rstrip LF_PLUS) (bytesFromInsts blk) = bytesFromInsts blk.
Proof.
  unfold bytesFromInsts. induction (instList blk) as [|inst insts IH]; [done|].
  simpl. rewrite map_app, IH. f_equal.
  rewrite map_map. apply map_ext. intros s. apply rstrip_idempotent.
Qed.

Lemma oneGram_nodup : NoDup oneGram.
Proof. apply (bool_decide_unpack (NoDup oneGram)). vm_compute. exact I. Qed.

Lemma fourGram_nodup : NoDup fourGram.
Proof. apply (bool_decide_unpack (NoDup fourGram)). vm_compute. exact I. Qed.

(** X7. The 1-gram features of a block are the numbers of [00], [FF] and
    [??] tokens, in this order, in the block's token stream (the byte tokens
    of its instructions with trailing [+] and newline removed). *)
Theorem get1gramFeatures_counts (blk : Block) :
  get1gramFeatures blk =
  [count_of "00" (bytesFromInsts blk);
   count_of "FF" (bytesFromInsts blk);
   count_of "??" (bytesFromInsts blk)].
Proof.
  unfold get1gramFeatures, oneGram2Idx.
  change (replicate (length oneGram) 0) with (map (λ _ : string, 0) oneGram).
  rewrite (histogram_counts (Py.rstrip LF_PLUS) oneGram _ _ oneGram_nodup).
  by rewrite bytesFromInsts_stripped.
Qed.

(** X8. Entry [k] of the 4-gram features of a block is the number of
    windows of four consecutive tokens of the block's token stream whose
    concatenation is the [k]-th string of [fourGram]. *)
Theorem get4gramFeatures_counts (blk : Block) :
  get4gramFeatures blk =
  map (λ g, count_of g (map (Py.join "") (windows4 (bytesFromInsts blk)))) fourGram.
Proof.
  unfold get4gramFeatures. rewrite scan4_windows. unfold check4Gram, fourGram2Idx.
  change (replicate (length fourGram) 0) with (map (λ _ : string, 0) fourGram).
  by rewrite (histogram_counts (Py.join "") fourGram _ _ fourGram_nodup).
Qed.

(** ** Features: dimension of the attribute vector *)

Section attribute_dimension.
Context `{Imports}.

Lemma getAttributes_step_cases blk instAttr added inst :
  length instAttr = instDim →
  (row_sized inst →
   ∃ instAttr', getAttributes_step blk (instAttr, added) inst = Some (instAttr', true) ∧
                length instAttr' = instDim) ∧
  (¬ row_sized inst → getAttributes_step blk (instAttr, added) inst = None).
Proof.
  intros Hlen. unfold getAttributes_step, row_add.
  set (attr := (if added
                then (getOperandFeatures inst ++ getOperatorFeatures inst) ++
                     replicate (length oneGram + length fourGram) 0
                else (getOperandFeatures inst ++ getOperatorFeatures inst) ++
                     get1gramFeatures blk ++ get4gramFeatures blk) ++
               getSpecialCharFeatures inst).
  assert (Hattr : length attr =
    (length (getOperandFeatures inst) + length (getOperatorFeatures inst)
     + length oneGram + length fourGram + length (getSpecialCharFeatures inst))%nat).
  { subst attr. pose proof (get1gramFeatures_length blk).
    pose proof (get4gramFeatures_length blk).
    destruct added; rewrite !length_app, ?length_replicate; simpl; lia. }
  unfold row_sized. rewrite <- Hattr. split.
  - intros Hrow. rewrite Hlen, <- Hrow, Nat.eqb_refl. simpl.
    eexists. split; [done|]. rewrite length_zip_with. lia.
  - intros Hrow. destruct (length attr =? length instAttr)%nat eqn:Heq; [|done].
    apply Nat.eqb_eq in Heq. lia.
Qed.

Lemma getAttributes_loop_dim blk insts instAttr added :
  length instAttr = instDim →
  (is_Some (getAttributes_loop blk insts (instAttr, added)) ↔ Forall row_sized insts) ∧
  (∀ st, getAttributes_loop blk insts (instAttr, added) = Some st →
         length st.1 = instDim).
Proof.
  revert instAttr added. induction insts as [|inst insts IH];
    intros instAttr added Hlen.
  { simpl. split; [split; [constructor | eauto] | by intros st [= <-]]. }
  change (getAttributes_loop blk (inst :: insts) (instAttr, added))
    with (getAttributes_step blk (instAttr, added) inst
          ≫= getAttributes_loop blk insts).
  destruct (getAttributes_step_cases blk instAttr added inst Hlen) as [Hok Hbad].
  assert (Hdec : row_sized inst ∨ ¬ row_sized inst).
  { unfold row_sized. destruct (decide
      ((length (getOperandFeatures inst) + length (getOperatorFeatures inst)
        + length oneGram + length fourGram
        + length (getSpecialCharFeatures inst))%nat = instDim)); auto. }
  destruct Hdec as [Hrow|Hrow].
  - destruct (Hok Hrow) as (instAttr' & -> & Hlen'). simpl.
    destruct (IH instAttr' true Hlen') as [Hiff Hdim]. split; [|done].
    rewrite Hiff. split; [by constructor|]. by intros [_ ?]%Forall_cons.
  - rewrite (Hbad Hrow). simpl. split; [|done]. split.
    + by intros [? ?].
    + by intros [? _]%Forall_cons.
Qed.

(** X9. [getAttributes] returns a vector if and only if, for every
    instruction of the block, the operand, operator and special-character
    rows have together [instDim - 13] entries (otherwise the numpy addition
    raises); the vector it returns has [getAttributesDim] entries, also for a
    block without instructions. *)
Theorem getAttributes_dimension (blk : Block) :
  (is_Some (getAttributes blk) ↔ Forall row_sized (instList blk)) ∧
  (∀ v, getAttributes blk = Some v → length v = getAttributesDim).
Proof.
  unfold getAttributes.
  destruct (getAttributes_loop_dim blk (instList blk) (replicate instDim 0) false)
    as [Hiff Hdim]; [apply length_replicate|].
  split.
  - rewrite <- Hiff.
    destruct (getAttributes_loop blk (instList blk) (replicate instDim 0, false));
      simpl; split; intros [? ?]; eauto; done.
  - intros v.
    destruct (getAttributes_loop blk (instList blk) (replicate instDim 0, false))
      as [st|]; simpl; [|done].
    intros [= <-]. rewrite length_app, (Hdim st eq_refl).
    unfold getAttributesDim. done.
Qed.

End attribute_dimension.

(** ** Normaliser: segment labels *)

Lemma prefix_decompose (p s : string) :
  String.prefix p s = true ↔ ∃ r, s = p +:+ r.
Proof.
  revert s. induction p as [|a p IH]; intros s; simpl.
  - destruct s as [|b s]; (split; [intros _ | done]).
    + by exists "".
    + by exists (String b s).
  - destruct s as [|b s]; simpl.
    + split; [done | by intros [r [=]]].
    + destruct (ascii_dec a b) as [<-|Hne].
      * rewrite IH. split.
        -- intros [r ->]. by exists r.
        -- intros [r Hr]. injection Hr as ->. by exists r.
      * split; [done|]. intros [r Hr]. injection Hr as -> _. done.
Qed.

Lemma prefix_colon (s : string) :
  String.prefix ":" s = true ↔ ∃ r, s = String ":" r.
Proof. rewrite prefix_decompose. split; intros [r ->]; by exists r. Qed.

Lemma find_from_eq (sub s : string) (i : Z) :
  Py.find_from sub s i =
  if String.prefix sub s then i
  else match s with
       | EmptyString => -1
       | String _ s' => Py.find_from sub s' (i + 1)
       end.
Proof. by destruct s. Qed.

Lemma find_from_shift (sub s : string) (i j : Z) :
  0 ≤ i → 0 ≤ j → Py.find_from sub s i = -1 → Py.find_from sub s j = -1.
Proof.
  revert i j. induction s as [|c s IH]; intros i j Hi Hj;
    rewrite (find_from_eq sub _ i), (find_from_eq sub _ j).
  - destruct (String.prefix sub ""); [intros; lia | done].
  - destruct (String.prefix sub (String c s)); [intros; lia|].
    apply IH; lia.
Qed.

Lemma find_from_nonneg (sub s : string) (i : Z) :
  0 ≤ i → Py.find_from sub s i = -1 ∨ 0 ≤ Py.find_from sub s i.
Proof.
  revert i. induction s as [|c s IH]; intros i Hi; rewrite find_from_eq.
  - destruct (String.prefix sub ""); [right; lia | by left].
  - destruct (String.prefix sub (String c s)); [right; lia|]. apply IH. lia.
Qed.

(** [rfind] of a colon: either there is none, or the string splits at its
    last colon. *)
Lemma rfind_from_colon (s : string) (i acc : Z) :
  (Py.find s ":" = -1 ∧ Py.rfind_from ":" s i acc = acc) ∨
  (∃ s1 s2, s = s1 +:+ String ":" s2 ∧
            Py.rfind_from ":" s i acc = i + Z.of_nat (String.length s1) ∧
            Py.find s2 ":" = -1).
Proof.
  revert i acc. induction s as [|c s IH]; intros i acc.
  { left. done. }
  change (Py.rfind_from ":" (String c s) i acc)
    with (Py.rfind_from ":" s (i + 1)
            (if String.prefix ":" (String c s) then i else acc)).
  destruct (String.prefix ":" (String c s)) eqn:Hp.
  - apply prefix_colon in Hp as [r Hr]. injection Hr as -> <-.
    destruct (IH (i + 1) i) as [[Hnone ->]|(s1 & s2 & -> & -> & Hs2)].
    + right. exists "", s. simpl. split; [done|]. split; [lia | done].
    + right. exists (String ":" s1), s2. split; [done|]. split; [|done].
      simpl String.length. lia.
  - destruct (IH (i + 1) acc) as [[Hnone ->]|(s1 & s2 & -> & -> & Hs2)].
    + left. split; [|done]. unfold Py.find. rewrite find_from_eq, Hp.
      by apply (find_from_shift ":" s 0 (0 + 1)).
    + right. exists (String c s1), s2. split; [done|]. split; [|done].
      simpl String.length. lia.
Qed.

Lemma find_colon_app (s1 s2 : string) (i : Z) :
  0 ≤ i → Py.find_from ":" (s1 +:+ String ":" s2) i ≠ -1.
Proof.
  revert i. induction s1 as [|c s1 IH]; intros i Hi.
  - change ("" +:+ String ":" s2) with (String ":" s2).
    rewrite find_from_eq.
    assert (String.prefix ":" (String ":" s2) = true) as ->
      by (apply prefix_colon; eauto).
    lia.
  - change (String c s1 +:+ String ":" s2) with (String c (s1 +:+ String ":" s2)).
    rewrite find_from_eq.
    destruct (String.prefix ":" (String c (s1 +:+ String ":" s2))); [lia|].
    apply IH. lia.
Qed.

Lemma drop_app_colon (s1 s2 : string) :
  Py.drop (S (String.length s1)) (s1 +:+ String ":" s2) = s2.
Proof.
  induction s1 as [|c s1 IH]; [done|].
  change (String c s1 +:+ String ":" s2) with (String c (s1 +:+ String ":" s2)).
  simpl. apply IH.
Qed.

Lemma addrInCodeSegment_from_matched prefixes seg p :
  p ∈ prefixes → Py.startswith seg p = true →
  addrInCodeSegment_from prefixes seg =
    (let colonIdx := Py.rfind seg ":" in
     if negb (colonIdx =? -1) then InCodeSeg (Py.slice_from (colonIdx + 1) seg)
     else InCodeSeg (Py.slice_last 8 seg)).
Proof.
  intros Hin Hp. induction prefixes as [|q qs IH]; [by apply elem_of_nil in Hin|].
  simpl. destruct (Py.startswith seg q) eqn:Hq; [done|].
  apply elem_of_cons in Hin as [->|Hin]; [congruence | by apply IH].
Qed.

Lemma addrInCodeSegment_from_InCodeSeg prefixes seg a :
  addrInCodeSegment_from prefixes seg = InCodeSeg a →
  ∃ p, p ∈ prefixes ∧ Py.startswith seg p = true.
Proof.
  induction prefixes as [|q qs IH]; simpl; [done|].
  destruct (Py.startswith seg q) eqn:Hq.
  - intros _. exists q. split; [left | done].
  - intros Hr. destruct (IH Hr) as (p & Hp & Hs). exists p. split; [by right | done].
Qed.

Lemma segNames_end_in_colon (p : string) :
  p ∈ segNames → p = string_init p +:+ ":".
Proof.
  assert (Forall (λ p, p = string_init p +:+ ":") segNames) as Hall.
  { apply (bool_decide_unpack (Forall (λ p, p = string_init p +:+ ":") segNames)).
    vm_compute. exact I. }
  rewrite Forall_forall in Hall. apply Hall.
Qed.

(** X10. Round trip of a segment label: for a listed prefix and an address
    without colon, [addrInCodeSegment] of the prefix followed by the address
    gives back the address. *)
Theorem addrInCodeSegment_round_trip (prefix addr : string) :
  prefix ∈ segNames →
  Py.find addr ":" = -1 →
  addrInCodeSegment (prefix +:+ addr) = InCodeSeg addr.
Proof.
  intros Hin Haddr. unfold addrInCodeSegment.
  rewrite (addrInCodeSegment_from_matched segNames _ prefix Hin)
    by (apply prefix_decompose; eauto).
  rewrite (segNames_end_in_colon prefix Hin), string_app_assoc.
  change (":" +:+ addr) with (String ":" addr).
  set (p0 := string_init prefix). cbv zeta. unfold Py.rfind.
  destruct (rfind_from_colon (p0 +:+ String ":" addr) 0 (-1))
    as [[Hnone _]|(s1 & s2 & Heq & Hr & Hs2)].
  { exfalso. by apply (find_colon_app p0 addr 0). }
  rewrite Hr.
  replace (negb (0 + Z.of_nat (String.length s1) =? -1)) with true
    by (symmetry; apply negb_true_iff, Z.eqb_neq; lia).
  f_equal. unfold Py.slice_from.
  replace (Z.to_nat (0 + Z.of_nat (String.length s1) + 1))
    with (S (String.length s1)) by lia.
  rewrite Heq, drop_app_colon. clear Hr.
  revert s1 Heq. induction p0 as [|c p0 IH]; intros s1 Heq.
  - destruct s1 as [|c1 s1]; [by injection Heq|].
    change ("" +:+ String ":" addr) with (String ":" addr) in Heq.
    change (String c1 s1 +:+ String ":" s2) with (String c1 (s1 +:+ String ":" s2)) in Heq.
    injection Heq as <- ->. exfalso. by apply (find_colon_app s1 s2 0).
  - change (String c p0 +:+ String ":" addr)
      with (String c (p0 +:+ String ":" addr)) in Heq.
    destruct s1 as [|c1 s1].
    + change ("" +:+ String ":" s2) with (String ":" s2) in Heq.
      injection Heq as -> <-. exfalso. by apply (find_colon_app p0 addr 0).
    + change (String c1 s1 +:+ String ":" s2)
        with (String c1 (s1 +:+ String ":" s2)) in Heq.
      injection Heq as _ Heq. by apply (IH s1).
Qed.

(** X11. Whenever [addrInCodeSegment] returns an address, the label ends
    with a colon followed by that address, and the address contains no colon:
    the address is what follows the last colon, and the fallback to the last
    eight characters is never taken. *)
Theorem addrInCodeSegment_after_last_colon (seg addr : string) :
  addrInCodeSegment seg = InCodeSeg addr →
  (∃ s1, seg = s1 +:+ String ":" addr) ∧ Py.find addr ":" = -1.
Proof.
  unfold addrInCodeSegment. intros Hres.
  destruct (addrInCodeSegment_from_InCodeSeg _ _ _ Hres) as (p & Hin & Hp).
  rewrite (addrInCodeSegment_from_matched segNames _ p Hin Hp) in Hres.
  apply prefix_decompose in Hp as [r Hseg].
  rewrite (segNames_end_in_colon p Hin), string_app_assoc in Hseg.
  change (":" +:+ r) with (String ":" r) in Hseg.
  cbv zeta in Hres. unfold Py.rfind in Hres.
  destruct (rfind_from_colon seg 0 (-1)) as [[Hnone _]|(s1 & s2 & Heq & Hr & Hs2)].
  { exfalso. rewrite Hseg in Hnone. by apply (find_colon_app (string_init p) r 0). }
  rewrite Hr in Hres.
  replace (negb (0 + Z.of_nat (String.length s1) =? -1)) with true in Hres
    by (symmetry; apply negb_true_iff, Z.eqb_neq; lia).
  injection Hres as <-. unfold Py.slice_from.
  replace (Z.to_nat (0 + Z.of_nat (String.length s1) + 1))
    with (S (String.length s1)) by lia.
  rewrite Heq, drop_app_colon. split; [by exists s1 | done].
Qed.

(** ** Normaliser: the tokens of a code line *)

Lemma with_addr2Bytes_twice v v' b :
  with_addr2Bytes v (with_addr2Bytes v' b) = with_addr2Bytes v b.
Proof. reflexivity. Qed.

Section line_tokens.
Context `{Imports}.

Lemma indexOfInst_from_spec l a i b :
  indexOfInst_from l a i b =
  match byte_prefix l, int16 a with
  | [], _ => Some (i, b)
  | bp, Some addr =>
      Some ((i + length bp)%nat,
            with_addr2Bytes
              (<[addr := default [] (addr2Bytes b !! addr) ++ bp]> (addr2Bytes b)) b)
  | _, None => None
  end.
Proof.
  revert i b. induction l as [|x l IH]; intros i b; simpl; [done|].
  destruct (bytePattern_match x); [|done].
  unfold appendRawBytes. destruct (int16 a) as [addr|] eqn:Hint; simpl; [|done].
  rewrite IH.
  destruct (byte_prefix l) as [|y bp]; cbv zeta.
  - rewrite Nat.add_1_r. by destruct (addr2Bytes b !! addr).
  - rewrite with_addr2Bytes_twice. f_equal. f_equal; [simpl; lia|]. f_equal.
    destruct (addr2Bytes b !! addr) as [old|]; simpl;
      rewrite lookup_insert_eq, insert_insert_eq; simpl;
      by rewrite <- ?app_assoc.
Qed.

(** X12. [indexOfInst] returns the number of leading raw-byte tokens and
    appends exactly these tokens, in order, to the bytes recorded for the
    address. The address is parsed only when there is such a token: without
    one the builder is unchanged whatever the address string is, and with one
    an address string that is no number makes the call fail. *)
Theorem indexOfInst_byte_prefix (decodedElems : list string) (addrStr : string)
    (b : Builder) :
  indexOfInst decodedElems addrStr b =
  match byte_prefix decodedElems, int16 addrStr with
  | [], _ => Some (0%nat, b)
  | bp, Some addr =>
      Some (length bp,
            with_addr2Bytes
              (<[addr := default [] (addr2Bytes b !! addr) ++ bp]> (addr2Bytes b)) b)
  | _, None => None
  end.
Proof. apply indexOfInst_from_spec. Qed.

End line_tokens.

Lemma prefix_char (c a : ascii) (s : string) :
  String.prefix (String c "") (String a s) = true ↔ c = a.
Proof.
  simpl. destruct (ascii_dec c a) as [->|Hne].
  - by destruct s.
  - split; [done | by intros].
Qed.

Lemma find_char_cons (c a : ascii) (s : string) (i : Z) :
  c ≠ a →
  Py.find_from (String c "") (String a s) i = Py.find_from (String c "") s (i + 1).
Proof.
  intros Hne. rewrite find_from_eq.
  destruct (String.prefix (String c "") (String a s)) eqn:Hp; [|done].
  by apply prefix_char in Hp.
Qed.

Lemma is_byte_char_not_semicolon (a : ascii) :
  is_byte_char a = true → ";"%char ≠ a.
Proof. intros Hb <-. vm_compute in Hb. discriminate Hb. Qed.

Lemma byte_token_no_semicolon (x : string) :
  bytePattern_match x = true → Py.find x ";" = -1.
Proof.
  unfold bytePattern_match. destruct x as [|a [|c r]]; [done..|].
  intros Hm. apply andb_prop in Hm as [Hm Hr]. apply andb_prop in Hm as [Ha Hc].
  unfold Py.find.
  rewrite (find_char_cons ";" a) by by apply is_byte_char_not_semicolon.
  rewrite (find_char_cons ";" c) by by apply is_byte_char_not_semicolon.
  repeat (apply orb_prop in Hr as [Hr|Hr]);
    apply String.eqb_eq in Hr; subst r; reflexivity.
Qed.

Lemma byte_prefix_app (bs rest : list string) :
  Forall (λ x, bytePattern_match x = true) bs →
  bytePattern_match (hd "" rest) = false →
  byte_prefix (bs ++ rest) = bs.
Proof.
  intros Hbs Hrest. induction Hbs as [|x bs Hx _ IH]; simpl.
  - destruct rest as [|t rest]; [done|]. simpl in *. by rewrite Hrest.
  - by rewrite Hx, IH.
Qed.

Lemma indexOfComment_from_app (pre cs : list string) (i : nat) :
  Forall (λ t, Py.find t ";" = -1) pre →
  Py.find (hd ";" cs) ";" ≠ -1 →
  indexOfComment_from (pre ++ cs) i = (i + length pre)%nat.
Proof.
  intros Hpre Hcs. revert i. induction Hpre as [|t pre Ht _ IH]; intros i; simpl.
  - destruct cs as [|c cs]; simpl in *; [lia|].
    apply Z.eqb_neq in Hcs. rewrite Hcs. simpl. lia.
  - rewrite Ht. simpl. rewrite IH. lia.
Qed.

Lemma no_blank_app (s1 s2 : string) :
  no_blank (s1 +:+ s2) = no_blank s1 && no_blank s2.
Proof.
  induction s1 as [|c s1 IH]; [done|].
  change (String c s1 +:+ s2) with (String c (s1 +:+ s2)). simpl.
  by rewrite IH, andb_assoc.
Qed.

Lemma no_blank_drop (n : nat) (s : string) :
  no_blank s = true → no_blank (Py.drop n s) = true.
Proof.
  revert s. induction n as [|n IH]; intros s Hs; [done|].
  destruct s as [|c s]; [done|]. simpl in *.
  apply andb_prop in Hs as [_ Hs]. by apply IH.
Qed.

Lemma is_space_blank (a : ascii) : Py.is_space a = false → Ascii.eqb a " " = false.
Proof.
  intros Hs. destruct (Ascii.eqb a " ") eqn:He; [|done].
  apply Ascii.eqb_eq in He. subst a. vm_compute in Hs. discriminate Hs.
Qed.

Lemma split_ws_aux_no_blank (cur s : string) :
  no_blank cur = true → Forall (λ t, no_blank t = true) (Py.split_ws_aux cur s).
Proof.
  revert cur. induction s as [|a s IH]; intros cur Hcur; simpl.
  - destruct (String.eqb cur ""); [constructor | by repeat constructor].
  - destruct (Py.is_space a) eqn:Ha.
    + apply Forall_app. split; [|by apply IH].
      destruct (String.eqb cur ""); [constructor | by repeat constructor].
    + apply IH. rewrite no_blank_app, Hcur. simpl.
      by rewrite (is_space_blank a Ha).
Qed.

Lemma split_on_cons (c : ascii) (s : string) :
  ∃ w ws, Py.split_on c s = w :: ws.
Proof.
  induction s as [|a s (w & ws & IH)]; simpl; [eauto|].
  destruct (Ascii.eqb a c); [eauto|]. rewrite IH. eauto.
Qed.

Lemma split_on_blank_app (t s : string) :
  no_blank t = true →
  Py.split_on " " (t +:+ s) =
  (t +:+ hd "" (Py.split_on " " s)) :: tl (Py.split_on " " s).
Proof.
  intros Ht. induction t as [|c t IH].
  - change ("" +:+ s) with s.
    destruct (split_on_cons " " s) as (w & ws & ->). done.
  - change (String c t +:+ s) with (String c (t +:+ s)). simpl in *.
    apply andb_prop in Ht as [Hc Ht]. apply negb_true_iff in Hc.
    rewrite Hc, (IH Ht). done.
Qed.

Lemma split_on_join (toks : list string) :
  Forall (λ t, no_blank t = true) toks → toks ≠ [] →
  Py.split_on " " (Py.join " " toks) = toks.
Proof.
  intros Hall Hne. induction Hall as [|t toks Ht Hall IH]; [done|].
  destruct toks as [|u toks].
  - change (Py.join " " [t]) with t. rewrite <- (string_app_empty_r t) at 1.
    rewrite split_on_blank_app by done. simpl. by rewrite string_app_empty_r.
  - change (Py.join " " (t :: u :: toks))
      with (t +:+ String " " (Py.join " " (u :: toks))).
    rewrite split_on_blank_app by done.
    change (Py.split_on " " (String " " (Py.join " " (u :: toks))))
      with ("" :: Py.split_on " " (Py.join " " (u :: toks))).
    rewrite IH by done. simpl hd. simpl tl. by rewrite string_app_empty_r.
Qed.

Lemma addrInCodeSegment_is_drop (seg a : string) :
  addrInCodeSegment seg = InCodeSeg a → ∃ n, a = Py.drop n seg.
Proof.
  unfold addrInCodeSegment. generalize segNames.
  induction l as [|p ps IH]; simpl; [done|].
  destruct (Py.startswith seg p); [|done].
  destruct (negb (Py.rfind seg ":" =? -1)); intros [= <-]; eauto.
Qed.

Section code_lines.
Context `{Imports}.

(** X13. A line whose decoded tokens are the label [seg] of a listed
    segment, with an address [a] that [int(a, 16)] accepts, then raw bytes
    [bs], then instruction tokens [ts] (the first no raw byte, none with a
    semicolon), then nothing or a comment: the scan records the address
    followed by [ts], joined by blanks, under the line number, appends [bs]
    to the bytes of the address and goes on to the next line. When decoding
    has left no blank in the label and in [ts] (it only drops bytes),
    [createProgram] splits the recorded text back into the address and the
    instruction text. *)
Theorem extractTextSeg_line_code (n : Z) (b : Builder) (line seg a : string)
    (addr : Z) (bs ts cs : list string) :
  decoded_tokens line = seg :: bs ++ ts ++ cs →
  Forall (λ t, no_blank t = true) (seg :: ts) →
  addrInCodeSegment seg = InCodeSeg a →
  int16 a = Some addr →
  Forall (λ x, bytePattern_match x = true) bs →
  ts ≠ [] →
  bytePattern_match (hd "" ts) = false →
  Forall (λ t, Py.find t ";" = -1) ts →
  Py.find (hd ";" cs) ";" ≠ -1 →
  let b1 := match bs with
            | [] => b
            | _ => with_addr2Bytes
                     (<[addr := default [] (addr2Bytes b !! addr) ++ bs]> (addr2Bytes b)) b
            end in
  extractTextSeg_line (n, b) line =
    Some (n + 1, with_text (od_set n (Py.join " " (a :: ts)) (text b)) b1) ∧
  parse_text_line (Py.join " " (a :: ts)) = (a, Py.join " " ts).
Proof.
  intros Hsplit Hblank Hseg Hint Hbs Hts Hhd Hnosemi Hcs b1. split.
  - assert (Hbp : byte_prefix (bs ++ ts ++ cs) = bs).
    { apply byte_prefix_app; [done|]. by destruct ts. }
    assert (Hidx : indexOfComment (bs ++ ts ++ cs) = (length bs + length ts)%nat).
    { unfold indexOfComment. rewrite app_assoc, indexOfComment_from_app;
        [by rewrite length_app | | done].
      apply Forall_app. split; [|done].
      eapply Forall_impl; [done|]. intros x. apply byte_token_no_semicolon. }
    assert (Hinst : indexOfInst (bs ++ ts ++ cs) a b = Some (length bs, b1)).
    { unfold indexOfInst. rewrite indexOfInst_from_spec, Hint, Hbp.
      subst b1. by destruct bs. }
    assert (Hlt : (length bs <? length bs + length ts)%nat = true).
    { apply Nat.ltb_lt. destruct ts; [done|]. simpl. lia. }
    assert (Hslice : take (length bs + length ts - length bs)
                       (drop (length bs) (bs ++ ts ++ cs)) = ts).
    { rewrite drop_app_length. replace (length bs + length ts - length bs)%nat
        with (length ts) by lia. apply take_app_length. }
    assert (Htext : text b1 = text b) by (subst b1; by destruct bs).
    unfold extractTextSeg_line. rewrite Hsplit, Hseg, Hinst.
    change (Some (length bs, b1) ≫= ?f) with (f (length bs, b1)). cbv beta iota.
    by rewrite Hidx, Hlt, Hslice, Htext.
  - assert (Hall : Forall (λ t, no_blank t = true) (a :: ts)).
    { apply Forall_cons in Hblank as [Hs Htoks].
      constructor; [|done].
      destruct (addrInCodeSegment_is_drop seg a Hseg) as [k ->].
      by apply no_blank_drop. }
    unfold parse_text_line. change (ascii_of_N 32) with " "%char.
    by rewrite split_on_join.
Qed.

End code_lines.

(** ** Normaliser: what [aggregate] stores *)

Lemma rstrip_app_nonblank_r (s1 s2 : string) : nonblank s2 → nonblank (s1 +:+ s2).
Proof.
  unfold nonblank. intros Hs2. induction s1 as [|c s1 IH]; [done|].
  change (String c s1 +:+ s2) with (String c (s1 +:+ s2)). simpl.
  by destruct (Py.rstrip SP (s1 +:+ s2)).
Qed.

Lemma rstrip_app_nonblank_l (s1 s2 : string) : nonblank s1 → nonblank (s1 +:+ s2).
Proof.
  unfold nonblank. induction s1 as [|c s1 IH]; [done|].
  change (String c s1 +:+ s2) with (String c (s1 +:+ s2)). simpl.
  destruct (Py.rstrip SP s1) as [|c1 r1] eqn:Hr1.
  - case_bool_decide as Hc; [done|]. intros _.
    by destruct (Py.rstrip SP (s1 +:+ s2)).
  - intros _. destruct (Py.rstrip SP (s1 +:+ s2)) eqn:Hr; [|done].
    exfalso. by apply IH.
Qed.

Lemma find_from_decompose (sub s : string) (i : Z) :
  0 ≤ i → Py.find_from sub s i ≠ -1 → ∃ s1 r, s = s1 +:+ sub +:+ r.
Proof.
  revert i. induction s as [|c s IH]; intros i Hi; rewrite find_from_eq.
  - destruct (String.prefix sub "") eqn:Hp; [|done]. intros _.
    apply prefix_decompose in Hp as [r Hr]. by exists "", r.
  - destruct (String.prefix sub (String c s)) eqn:Hp.
    + intros _. apply prefix_decompose in Hp as [r Hr]. by exists "", r.
    + intros Hf. destruct (IH (i + 1)) as (s1 & r & ->); [lia | done |].
      by exists (String c s1), r.
Qed.

Lemma contains_nonblank (d sub : string) :
  contains d sub = true → nonblank sub → nonblank d.
Proof.
  unfold contains, Py.find. intros Hc Hsub.
  apply negb_true_iff, Z.eqb_neq in Hc.
  destruct (find_from_decompose sub d 0) as (s1 & r & ->); [lia | done |].
  by apply rstrip_app_nonblank_r, rstrip_app_nonblank_l.
Qed.

Lemma startswith_nonblank (d p : string) :
  Py.startswith d p = true → nonblank p → nonblank d.
Proof.
  unfold Py.startswith. intros Hp Hnb. apply prefix_decompose in Hp as [r ->].
  by apply rstrip_app_nonblank_l.
Qed.

Lemma first_line_decompose (s : string) : ∃ r, s = first_line s +:+ r.
Proof.
  induction s as [|a s [r IH]]; [by exists ""|]. simpl.
  destruct (Ascii.eqb a LF).
  - by exists (String a s).
  - exists r. change (String a (first_line s) +:+ r)
      with (String a (first_line s +:+ r)). by rewrite <- IH.
Qed.

Lemma ptrPattern_nonblank (d : string) : ptrPattern_match d = true → nonblank d.
Proof.
  unfold ptrPattern_match. destruct (first_line_decompose d) as [r Hd].
  destruct (first_line d) as [|c s1] eqn:Hfl; [done|].
  destruct (Py.find s1 "=" =? -1) eqn:Hf; [done|]. intros _.
  rewrite Hd. apply rstrip_app_nonblank_l.
  apply (rstrip_app_nonblank_r (String c "") s1).
  apply (contains_nonblank s1 "="); [|done].
  unfold contains. by rewrite Hf.
Qed.

Lemma data_declare_nonblank (d : string) : is_data_declare d = true → nonblank d.
Proof.
  unfold is_data_declare. intros Hd.
  repeat (apply orb_prop in Hd as [Hd|Hd]);
    first [ by apply ptrPattern_nonblank
          | by eapply contains_nonblank; [apply Hd|]
          | by eapply startswith_nonblank; [apply Hd|] ].
Qed.

Lemma data_fragment_nonblank (l : list string) :
  data_lines l ≠ [] → nonblank (data_fragment (data_lines l)).
Proof.
  unfold data_lines. intros Hne.
  destruct (List.filter _ l) as [|d ds] eqn:Hf; [done|].
  assert (In d (List.filter (λ inst, negb (is_marker inst) && is_data_declare inst) l))
    as Hin by (rewrite Hf; by left).
  apply filter_In in Hin as [_ Hd]. apply andb_prop in Hd as [_ Hd].
  simpl. by apply rstrip_app_nonblank_l, data_declare_nonblank.
Qed.

Lemma foldl_fragment (f : string → string) (l : list string) (init : string) :
  foldl (λ acc inst, acc +:+ f inst +:+ " ") init l
  = init +:+ data_fragment (map f l).
Proof.
  revert init. induction l as [|x l IH]; intros init; simpl.
  - by rewrite string_app_empty_r.
  - by rewrite IH, !string_app_assoc.
Qed.

Lemma appendRawString_spec (addr : Z) (l : list string) (b : Builder) :
  appendRawString addr l b =
  match l with
  | [] => b
  | _ => with_addr2RawStr
           (<[addr := default [] (addr2RawStr b !! addr) ++ l]> (addr2RawStr b)) b
  end.
Proof.
  unfold appendRawString. revert b. induction l as [|x l IH]; intros b; [done|].
  simpl. rewrite IH. destruct l as [|y l].
  - by destruct (addr2RawStr b !! addr).
  - destruct (addr2RawStr b !! addr) as [old|]; simpl;
      rewrite lookup_insert_eq, insert_insert_eq; simpl;
      by rewrite <- ?app_assoc.
Qed.

(** The text the code computes after the loop, from the candidates and the
    data fragment. *)
Lemma aggregate_text_code (l : list string) :
  isHeaderInfo l = false →
  aggregate_text l =
  Some match valid_candidates l with
       | [v] => Py.rstrip SP (v +:+ " " +:+ data_fragment (data_lines l))
       | vs =>
           if (0 <? String.length (Py.rstrip SP (data_fragment (data_lines l))))%nat
           then Py.rstrip SP (data_fragment (data_lines l))
           else Py.rstrip SP
                  (foldl (λ acc inst, acc +:+ Py.rstrip LF_BACKSLASH inst +:+ " ") "" vs)
       end.
Proof.
  intros Hhead. unfold aggregate_text. rewrite Hhead. f_equal.
  assert (Hmany : ∀ vs,
    match data_lines l with
    | [] => Py.rstrip SP (Py.join " " (map (Py.rstrip LF_BACKSLASH) vs))
    | d :: ds => Py.rstrip SP (Py.join " " (d :: ds))
    end =
    if (0 <? String.length (Py.rstrip SP (data_fragment (data_lines l))))%nat
    then Py.rstrip SP (data_fragment (data_lines l))
    else Py.rstrip SP
           (foldl (λ acc inst, acc +:+ Py.rstrip LF_BACKSLASH inst +:+ " ") "" vs)).
  { intros vs. destruct (data_lines l) as [|d ds] eqn:Hds.
    - change (0 <? String.length (Py.rstrip SP (data_fragment [])))%nat with false.
      cbv iota. rewrite (foldl_fragment (Py.rstrip LF_BACKSLASH)).
      change ("" +:+ ?x) with x. by rewrite rstrip_data_fragment.
    - pose proof (data_fragment_nonblank l) as Hnb.
      rewrite Hds in Hnb. specialize (Hnb ltac:(done)). unfold nonblank in Hnb.
      rewrite <- rstrip_data_fragment.
      by destruct (Py.rstrip SP (data_fragment (d :: ds))). }
  destruct (valid_candidates l) as [|v [|v' vs]]; [apply Hmany | | apply Hmany].
  change (v +:+ " " +:+ data_fragment (data_lines l))
    with (data_fragment (v :: data_lines l)).
  by rewrite rstrip_data_fragment.
Qed.

Section aggregate_facts.
Context `{Imports}.

Lemma aggregate_some (b : Builder) (addrStr : string) (addr : Z) (l : list string) :
  int16 addrStr = Some addr → l ≠ [] →
  ∃ t, aggregate_text l = Some t ∧
       aggregate addrStr l b =
         Some (with_program (od_set addrStr t (program (appendRawString addr l b)))
                 (appendRawString addr l b)).
Proof.
  intros Hint Hne. unfold aggregate. rewrite Hint.
  change (Some addr ≫= ?f) with (f addr). cbv beta.
  destruct (isHeaderInfo l) eqn:Hhead.
  - unfold aggregate_text. rewrite Hhead.
    destruct (last l) as [t|] eqn:Hlast; [by exists t|].
    by apply last_None in Hlast.
  - rewrite (aggregate_text_code _ Hhead), aggregate_loop_result.
    change ("" +:+ data_fragment (data_lines l)) with (data_fragment (data_lines l)).
    eexists. split; [done|].
    by destruct (valid_candidates l) as [|v [|v' vs]];
      cbv beta iota zeta;
      destruct (0 <? String.length _)%nat.
Qed.


End aggregate_facts.

(** ** Normaliser: [createProgram] aggregates runs *)

Section createProgram_facts.
Context `{Imports}.

Lemma createProgram_loop_runs es curr acc b :
  acc ≠ [] →
  (createProgram_loop es (Some curr, acc, b) ≫= λ '(currAddr, sameAddrInsts, b'),
     match sameAddrInsts, currAddr with
     | [], _ => Some b'
     | _, Some c => aggregate c sameAddrInsts b'
     | _, None => None
     end)
  = aggregate_all (runs_from curr acc (map (λ e, parse_text_line e.2) es)) b.
Proof.
  revert curr acc b. induction es as [|e es IH]; intros curr acc b Hacc.
  - simpl. destruct acc as [|x acc]; [done|].
    by destruct (aggregate curr (x :: acc) b).
  - change (createProgram_loop (e :: es) (Some curr, acc, b))
      with (createProgram_step (Some curr, acc, b) e ≫= createProgram_loop es).
    unfold createProgram_step.
    change (map (λ e0, parse_text_line e0.2) (e :: es))
      with (parse_text_line e.2 :: map (λ e0, parse_text_line e0.2) es).
    unfold parse_text_line at 1. cbv zeta.
    change (runs_from curr acc
              ((hd "" (Py.split_on (ascii_of_N 32) e.2),
                Py.join " " (tail (Py.split_on (ascii_of_N 32) e.2)))
               :: map (λ e0, parse_text_line e0.2) es))
      with (if String.eqb (hd "" (Py.split_on (ascii_of_N 32) e.2)) curr
            then runs_from curr (acc ++ [Py.join " " (tail (Py.split_on (ascii_of_N 32) e.2))])
                   (map (λ e0, parse_text_line e0.2) es)
            else (curr, acc) ::
                 runs_from (hd "" (Py.split_on (ascii_of_N 32) e.2))
                   [Py.join " " (tail (Py.split_on (ascii_of_N 32) e.2))]
                   (map (λ e0, parse_text_line e0.2) es)).
    destruct (String.eqb (hd "" (Py.split_on (ascii_of_N 32) e.2)) curr) eqn:Heq.
    + apply String.eqb_eq in Heq. simpl negb. cbv iota.
      change (Some ?x ≫= ?f) with (f x). rewrite Heq.
      apply IH. by destruct acc.
    + simpl negb. cbv iota. simpl aggregate_all.
      destruct (aggregate curr acc b) as [b'|]; [|done].
      change (Some b' ≫= ?f) with (f b'). cbv beta.
      change (Some ?x ≫= ?f) with (f x).
      by apply IH.
Qed.

(** X15. [createProgram] cuts the entries of [text], in order, into
    maximal runs of consecutive entries with the same address and calls
    [aggregate] once per run, with the instruction texts of the run in order;
    it fails where the first of these calls fails. *)
Theorem createProgram_aggregates_runs (b : Builder) :
  createProgram b =
  aggregate_all (runs (map (λ e, parse_text_line e.2) (text b))) b.
Proof.
  unfold createProgram. destruct (text b) as [|e es]; [done|].
  change (createProgram_loop (e :: es) (None, [], b))
    with (createProgram_loop es
            (Some (hd "" (Py.split_on (ascii_of_N 32) e.2)),
             [Py.join " " (tail (Py.split_on (ascii_of_N 32) e.2))], b)).
  by rewrite createProgram_loop_runs.
Qed.

End createProgram_facts.

Example runs_of_five :
  runs [("1000", "push ebp"); ("1001", "loc_1:"); ("1001", "mov ebp, esp");
        ("1003", "retn"); ("1001", "nop")]
  = [("1000", ["push ebp"]); ("1001", ["loc_1:"; "mov ebp, esp"]);
     ("1003", ["retn"]); ("1001", ["nop"])].
Proof. reflexivity. Qed.

Lemma runs_from_nonempty curr acc es :
  acc ≠ [] → Forall (λ r : string * list string, r.2 ≠ []) (runs_from curr acc es).
Proof.
  revert curr acc. induction es as [|[a i] es IH]; intros curr acc Hacc; simpl.
  - by repeat constructor.
  - destruct (String.eqb a curr).
    + apply IH. by destruct acc.
    + constructor; [done|]. by apply IH.
Qed.

Lemma runs_from_addresses curr acc es :
  ∀ r, r ∈ runs_from curr acc es → r.1 = curr ∨ r.1 ∈ es.*1.
Proof.
  revert curr acc. induction es as [|[a i] es IH]; intros curr acc r; simpl.
  - intros Hr. apply list_elem_of_singleton in Hr. subst r. by left.
  - destruct (String.eqb a curr).
    + intros Hr. destruct (IH _ _ _ Hr) as [?|?]; [by left | right; by right].
    + intros Hr. apply elem_of_cons in Hr as [->|Hr]; [by left|].
      right. destruct (IH _ _ _ Hr) as [->|?]; [left | by right].
Qed.

Section last_run.
Context `{Imports}.

Lemma aggregate_all_last_run rs b :
  Forall (λ r, is_Some (int16 r.1) ∧ r.2 ≠ []) rs →
  ∃ b', aggregate_all rs b = Some b' ∧
        ∀ a, od_get a (program b') = last_run_text a (od_get a (program b)) rs.
Proof.
  intros Hall. revert b. induction Hall as [|[a l] rs [[addr Hint] Hl] _ IH];
    intros b; simpl in *.
  - by exists b.
  - destruct (aggregate_some b a addr l Hint Hl) as (t & Ht & ->).
    change (Some ?x ≫= ?f) with (f x). cbv beta.
    destruct (IH (with_program (od_set a t (program (appendRawString addr l b)))
                    (appendRawString addr l b))) as (b' & -> & Hget).
    exists b'. split; [done|]. intros a'. rewrite Hget. simpl.
    assert (program (appendRawString addr l b) = program b) as ->.
    { rewrite appendRawString_spec. by destruct l. }
    rewrite od_get_set, Ht.
    destruct (String.eqb a a') eqn:Heq.
    + apply String.eqb_eq in Heq. by rewrite decide_True.
    + apply String.eqb_neq in Heq. by rewrite decide_False.
Qed.

(** X16. When every address of [text] parses, [createProgram] returns, and
    the program text of an address is the text aggregated from the last run
    of that address: a later run of the same address replaces what an earlier
    one stored. An address without run keeps the entry it had. *)
Theorem createProgram_last_run_wins (b : Builder) :
  Forall (λ e, is_Some (int16 (parse_text_line e.2).1)) (text b) →
  ∃ b', createProgram b = Some b' ∧
        ∀ a, od_get a (program b') =
             last_run_text a (od_get a (program b))
               (runs (map (λ e, parse_text_line e.2) (text b))).
Proof.
  intros Hall. unfold createProgram.
  destruct (text b) as [|e es] eqn:Htext.
  { simpl. by exists b. }
  change (createProgram_loop (e :: es) (None, [], b))
    with (createProgram_loop es
            (Some (hd "" (Py.split_on (ascii_of_N 32) e.2)),
             [Py.join " " (tail (Py.split_on (ascii_of_N 32) e.2))], b)).
  rewrite createProgram_loop_runs by done.
  apply aggregate_all_last_run.
  apply Forall_forall. intros r Hr. split.
  - apply Forall_cons in Hall as [He Hall]. rewrite Forall_forall in Hall.
    destruct (runs_from_addresses _ _ _ r Hr) as [->|Hin].
    + apply He.
    + apply list_elem_of_fmap in Hin as ([a i] & -> & Hin).
      apply list_elem_of_fmap in Hin as (e' & Heq & Hin).
      simpl. specialize (Hall e' Hin). by rewrite <- Heq in Hall.
  - revert r Hr. apply Forall_forall. by apply runs_from_nonempty.
Qed.

End last_run.

(** ** Decoding pass: sizes *)

Lemma od_get_app_last {K V : Type} `{EqDecision K} (pre : list (K * V)) (k : K) (v : V) :
  k ∉ pre.*1 → od_get k (pre ++ [(k, v)]) = Some v.
Proof.
  induction pre as [|[k0 v0] pre IH]; csimpl; intros Hn.
  - by rewrite decide_True.
  - rewrite decide_False.
    + apply IH. intros Hin. apply Hn. by right.
    + intros ->. apply Hn. left.
Qed.

Lemma od_set_app_last {K V : Type} `{EqDecision K} (pre : list (K * V)) (k : K) (v v' : V) :
  k ∉ pre.*1 → od_set k v' (pre ++ [(k, v)]) = pre ++ [(k, v')].
Proof.
  induction pre as [|[k0 v0] pre IH]; csimpl; intros Hn.
  - by rewrite decide_True.
  - rewrite decide_False.
    + rewrite IH; [done|]. intros Hin. apply Hn. by right.
    + intros ->. apply Hn. left.
Qed.

Section decoding_sizes.
Context `{Imports}.

Lemma buildInsts_loop_from prog pre i0 b :
  addr2Inst b = pre ++ [(address i0, i0)] →
  address i0 ≠ -1 →
  programStart b ≠ -1 →
  NoDup (pre.*1 ++ address i0 :: map address (accepted prog)) →
  Forall (λ i, address i ≠ -1) (accepted prog) →
  ∃ pre' last b',
    buildInsts_loop prog (address i0, b) = Some (address last, b') ∧
    addr2Inst b' = pre' ++ [(address last, last)] ∧
    (address last ∉ pre'.*1) ∧
    (∀ fin, pre' ++ [(address last, fin last)] = pre ++ gaps fin (i0 :: accepted prog)) ∧
    programStart b' = programStart b ∧
    programEnd b' = foldl (λ m i, Z.max (address i) m) (programEnd b) (accepted prog).
Proof.
  revert pre i0 b. induction prog as [|e prog IH];
    intros pre i0 b Hidx Hi0 Hstart Hnd Hall.
  { exists pre, i0, b. simpl. split; [done|]. split; [done|].
    split; [|done]. apply NoDup_app in Hnd as (_ & Hdisj & _).
    intros Hin. apply (Hdisj _ Hin). left. }
  change (buildInsts_loop (e :: prog) (address i0, b))
    with (buildInsts_step (address i0, b) e ≫= buildInsts_loop prog).
  unfold accepted in *. simpl omap in *. unfold buildInsts_step.
  destruct (createInst (e.1 +:+ " " +:+ e.2)) as [i|] eqn:Hdec.
  2:{ change (Some ?x ≫= ?f) with (f x). by apply IH. }
  simpl in Hnd, Hall. apply Forall_cons in Hall as [Hi Hall].
  assert (Ha0 : address i0 ∉ pre.*1).
  { apply NoDup_app in Hnd as (_ & Hdisj & _). intros Hin.
    apply (Hdisj _ Hin). left. }
  replace (negb (address i0 =? -1)) with true
    by (symmetry; apply negb_true_iff, Z.eqb_neq; done).
  unfold od_modify. rewrite Hidx, od_get_app_last by done.
  change (Some ?x ≫= ?f) with (f x). cbv beta.
  rewrite od_set_app_last by done.
  set (pre1 := pre ++ [(address i0, set_size (address i - address i0) i0)]).
  assert (Hfresh : address i ∉ pre1.*1).
  { subst pre1. rewrite fmap_app. simpl. intros Hin.
    apply NoDup_app in Hnd as (_ & Hdisj & Hnd2).
    apply elem_of_app in Hin as [Hin|Hin].
    - apply (Hdisj _ Hin). right. left.
    - apply list_elem_of_singleton in Hin.
      apply NoDup_cons in Hnd2 as [Hnot _]. apply Hnot. rewrite <- Hin. left. }
  rewrite od_set_fresh by done.
  set (b1 := with_programEnd _ _).
  destruct (IH pre1 i b1) as (pre' & last & b' & Hloop & Hidx' & Hlast & Hgaps & Hps & Hpe).
  - subst b1. simpl. by destruct (programStart b =? -1).
  - done.
  - subst b1. simpl. destruct (programStart b =? -1) eqn:Hs; simpl; [exact Hi|].
    exact Hstart.
  - subst pre1. rewrite fmap_app. simpl. rewrite <- app_assoc. exact Hnd.
  - done.
  - exists pre', last, b'. split; [done|]. split; [done|]. split; [done|].
    split; [|split].
    + intros fin. rewrite Hgaps. subst pre1. by rewrite <- app_assoc.
    + rewrite Hps. subst b1. simpl. destruct (programStart b =? -1) eqn:Hs; simpl; [|done].
      by apply Z.eqb_eq in Hs.
    + rewrite Hpe. subst b1. simpl. by destruct (programStart b =? -1).
Qed.

Lemma buildInsts_loop_fresh prog b :
  addr2Inst b = [] → programStart b = -1 →
  NoDup (map address (accepted prog)) →
  Forall (λ i, address i ≠ -1) (accepted prog) →
  (accepted prog = [] ∧ buildInsts_loop prog (-1, b) = Some (-1, b)) ∨
  ∃ pre' last b',
    buildInsts_loop prog (-1, b) = Some (address last, b') ∧
    addr2Inst b' = pre' ++ [(address last, last)] ∧
    (address last ∉ pre'.*1) ∧
    (∀ fin, pre' ++ [(address last, fin last)] = gaps fin (accepted prog)) ∧
    Some (programStart b') = address <$> head (accepted prog) ∧
    programEnd b' = foldl (λ m i, Z.max (address i) m) (programEnd b) (accepted prog).
Proof.
  intros Hidx Hstart. induction prog as [|e prog IH]; intros Hnd Hall.
  { left. done. }
  change (buildInsts_loop (e :: prog) (-1, b))
    with (buildInsts_step (-1, b) e ≫= buildInsts_loop prog).
  unfold accepted in *. simpl omap in *. unfold buildInsts_step.
  destruct (createInst (e.1 +:+ " " +:+ e.2)) as [i|] eqn:Hdec.
  2:{ change (Some ?x ≫= ?f) with (f x). by apply IH. }
  right. simpl in Hnd, Hall. apply Forall_cons in Hall as [Hi Hall].
  change (negb (-1 =? -1)) with false. cbv iota.
  change (Some ?x ≫= ?f) with (f x). cbv beta.
  rewrite Hidx. simpl od_set.
  set (b1 := with_programEnd _ _).
  destruct (buildInsts_loop_from prog [] i b1)
    as (pre' & last & b' & Hloop & Hidx' & Hlast & Hgaps & Hps & Hpe).
  - subst b1. simpl. by rewrite Hstart.
  - done.
  - subst b1. simpl. by rewrite Hstart.
  - done.
  - done.
  - exists pre', last, b'. split; [done|]. split; [done|]. split; [done|].
    split; [done|]. split.
    + rewrite Hps. subst b1. simpl. by rewrite Hstart.
    + rewrite Hpe. subst b1. simpl. by rewrite Hstart.
Qed.

(** X17. On a builder without decoded instructions, when the accepted
    instructions have pairwise different addresses, none of them [-1],
    [buildInsts] returns; lines the decoder rejects leave no trace; the index
    holds the accepted instructions in program order, each but the last with
    the distance to the next one as its size, the last with size [2] when its
    address is positive; [programStart] is the first accepted address and
    [programEnd] the largest. *)
Theorem buildInsts_sizes (b : Builder) :
  addr2Inst b = [] →
  programStart b = -1 →
  NoDup (map address (accepted (program b))) →
  Forall (λ i, address i ≠ -1) (accepted (program b)) →
  ∃ b',
    buildInsts b = Some b' ∧
    addr2Inst b' =
      gaps (λ i, if 0 <? address i then set_size 2 i else i) (accepted (program b)) ∧
    programStart b' = default (-1) (address <$> head (accepted (program b))) ∧
    programEnd b' =
      foldl (λ m i, Z.max (address i) m) (programEnd b) (accepted (program b)).
Proof.
  intros Hidx Hstart Hnd Hall. unfold buildInsts.
  destruct (buildInsts_loop_fresh (program b) b Hidx Hstart Hnd Hall)
    as [[Hnone ->]|(pre' & last & b' & -> & Hidx' & Hlast & Hgaps & Hps & Hpe)].
  - simpl. exists b. rewrite Hnone. simpl. by rewrite Hidx, Hstart.
  - change (Some ?x ≫= ?f) with (f x). cbv beta iota.
    rewrite <- Hps. simpl default. rewrite <- Hgaps.
    destruct (0 <? address last) eqn:Hpos.
    + unfold od_modify. rewrite Hidx', od_get_app_last by done.
      change (Some ?x ≫= ?f) with (f x). cbv beta.
      rewrite od_set_app_last by done. by eexists.
    + exists b'. by rewrite Hidx'.
Qed.

End decoding_sizes.

(** ** Visitor: what the loop of [visitInsts] leaves *)

Lemma get_keyed_of_index_keyed d : index_keyed d → get_keyed d.
Proof. intros Hk k i Hg. by eapply index_keyed_get. Qed.

Lemma index_rel_refl R d : (∀ k x, R k x x) → index_rel R d d.
Proof. intros HR k. destruct (od_get k d); constructor; auto. Qed.

Lemma index_rel_trans (R1 R2 R3 : Z → Instruction → Instruction → Prop) d1 d2 d3 :
  (∀ k x y z, R1 k x y → R2 k y z → R3 k x z) →
  index_rel R1 d1 d2 → index_rel R2 d2 d3 → index_rel R3 d1 d3.
Proof.
  intros HR H12 H23 k. specialize (H12 k). specialize (H23 k).
  destruct (od_get k d1) as [x|], (od_get k d2) as [y|], (od_get k d3) as [z|];
    inversion H12; inversion H23; subst; constructor; eauto.
Qed.

Lemma index_rel_get R d d' k i :
  index_rel R d d' → od_get k d = Some i → ∃ i', od_get k d' = Some i' ∧ R k i i'.
Proof.
  intros Hrel Hg. specialize (Hrel k). rewrite Hg in Hrel.
  destruct (od_get k d') as [i'|]; inversion Hrel; subst. eauto.
Qed.

Lemma index_rel_get_inv R d d' k i' :
  index_rel R d d' → od_get k d' = Some i' → ∃ i, od_get k d = Some i ∧ R k i i'.
Proof.
  intros Hrel Hg. specialize (Hrel k). rewrite Hg in Hrel.
  destruct (od_get k d) as [i|]; inversion Hrel; subst. eauto.
Qed.

Lemma index_rel_None R d d' k :
  index_rel R d d' → od_get k d = None → od_get k d' = None.
Proof.
  intros Hrel Hg. specialize (Hrel k). rewrite Hg in Hrel.
  by destruct (od_get k d') as [i'|]; inversion Hrel.
Qed.

Lemma index_rel_modify (R : Z → Instruction → Instruction → Prop) x g d d' :
  (∀ k i, R k i i) → (∀ i, R x i (g i)) →
  od_modify x g d = Some d' → index_rel R d d'.
Proof.
  intros Hrefl Hg Hm k. rewrite (od_modify_get _ _ _ _ _ Hm).
  destruct (decide (x = k)) as [<-|Hne].
  - destruct (od_get x d); simpl; constructor; auto.
  - destruct (od_get k d); constructor; auto.
Qed.

Lemma writes_refl k0 k x : writes k0 id k x x.
Proof. split; [by destruct (decide (k = k0)) | done]. Qed.

Lemma writes_compose k0 f g k x y z :
  erase_compat g →
  writes k0 f k x y → writes k0 g k y z → writes k0 (g ∘ f) k x z.
Proof.
  intros Hg [He Hs] [He' Hs']. split; [|auto]. rewrite He'.
  destruct (decide (k = k0)); [by apply Hg | done].
Qed.

Lemma erase_static i i' :
  erase i = erase i' →
  address i = address i' ∧ size i = size i' ∧ operand i = operand i' ∧
  category i = category i' ∧ target i = target i' ∧ bytes i = bytes i' ∧
  rawStrs i = rawStrs i' ∧ fallThrough i = fallThrough i' ∧ call i = call i'.
Proof.
  intros He.
  pose proof (f_equal address He). pose proof (f_equal size He).
  pose proof (f_equal operand He). pose proof (f_equal category He).
  pose proof (f_equal target He). pose proof (f_equal bytes He).
  pose proof (f_equal rawStrs He). pose proof (f_equal fallThrough He).
  pose proof (f_equal call He). done.
Qed.

Lemma erase_compat_id : erase_compat id.
Proof. by intros i i' He. Qed.

Lemma erase_compat_set_call v : erase_compat (set_call v).
Proof.
  intros i i' He. change (set_call v (erase i) = set_call v (erase i')).
  by rewrite He.
Qed.

Lemma erase_compat_set_fallThrough v : erase_compat (set_fallThrough v).
Proof.
  intros i i' He. change (set_fallThrough v (erase i) = set_fallThrough v (erase i')).
  by rewrite He.
Qed.

Lemma erase_compat_set_bytes v : erase_compat (set_bytes v).
Proof.
  intros i i' He. change (set_bytes v (erase i) = set_bytes v (erase i')).
  by rewrite He.
Qed.

Lemma erase_compat_set_rawStrs v : erase_compat (set_rawStrs v).
Proof.
  intros i i' He. change (set_rawStrs v (erase i) = set_rawStrs v (erase i')).
  by rewrite He.
Qed.

Lemma erase_compat_handler_writes : erase_compat handler_writes.
Proof.
  intros i i' He. unfold handler_writes.
  destruct (erase_static _ _ He) as (_ & _ & _ & <- & _).
  destruct (category i); try done;
    by (apply erase_compat_set_call || apply erase_compat_set_fallThrough).
Qed.

Lemma erase_compat_attach b k : erase_compat (attach b k).
Proof.
  intros i i' He. unfold attach.
  destruct (addr2Bytes b !! k), (addr2RawStr b !! k); try done;
    repeat (apply erase_compat_set_rawStrs || apply erase_compat_set_bytes); done.
Qed.

Lemma erase_compat_compose f g :
  erase_compat f → erase_compat g → erase_compat (g ∘ f).
Proof. intros Hf Hg i i' He. apply Hg, Hf, He. Qed.

Lemma attach_handler_static b k i :
  let i' := attach b k (handler_writes i) in
  address i' = address i ∧ size i' = size i ∧ operand i' = operand i ∧
  category i' = category i ∧ target i' = target i ∧ start i' = start i.
Proof.
  cbv zeta. unfold attach, handler_writes.
  destruct (addr2Bytes b !! k), (addr2RawStr b !! k), (category i) eqn:Hc;
    repeat split; simpl; congruence.
Qed.

Lemma attach_handler_idem b k i :
  attach b k (handler_writes (attach b k (handler_writes i))) =
  attach b k (handler_writes i).
Proof.
  unfold attach, handler_writes.
  destruct (addr2Bytes b !! k), (addr2RawStr b !! k), (category i) eqn:Hc;
    simpl; rewrite ?Hc; reflexivity.
Qed.

Lemma entered_static pEnd i i' :
  address i = address i' → size i = size i' → category i = category i' →
  target i = target i' → entered pEnd i = entered pEnd i'.
Proof. unfold entered. by intros -> -> -> ->. Qed.

Lemma handler_rel_refl k b : handler_rel k id b b.
Proof. split; [|done]. apply index_rel_refl. intros. apply writes_refl. Qed.

Lemma handler_rel_compose k f g b b1 b2 :
  erase_compat g →
  handler_rel k f b b1 → handler_rel k g b1 b2 → handler_rel k (g ∘ f) b b2.
Proof.
  intros Hg (Hi & Hb & Hr & He & Hm) (Hi' & Hb' & Hr' & He' & Hm').
  split; [|by rewrite Hb', Hr', He', Hm'].
  eapply index_rel_trans; [|done..]. intros. by eapply writes_compose.
Qed.

(** Only the value of [f] on the instruction stored under [k] matters. *)
Lemma handler_rel_at k f g b b' :
  (∀ inst, od_get k (addr2Inst b) = Some inst → erase (f inst) = erase (g inst)) →
  handler_rel k f b b' → handler_rel k g b b'.
Proof.
  intros Hfg (Hi & Hrest). split; [|done]. intros k'. specialize (Hi k').
  destruct (od_get k' (addr2Inst b)) as [x|] eqn:Hx,
           (od_get k' (addr2Inst b')) as [y|]; inversion Hi as [? ? [He Hs]|]; subst;
    constructor. split; [|done]. rewrite He.
  destruct (decide (k' = k)) as [->|]; [by apply Hfg | done].
Qed.

Lemma handler_rel_keeps_pre k f b b' :
  (∀ i, address (f i) = address i) →
  handler_rel k f b b' → handler_pre k b → handler_pre k b'.
Proof.
  intros Hf (Hi & _) [Hkeyed [inst Hk]]. split.
  - intros k' i' Hg. destruct (index_rel_get_inv _ _ _ _ _ Hi Hg) as (i & Hgi & He & _).
    apply erase_static in He as (Ha & _). rewrite Ha.
    destruct (decide (k' = k)); [rewrite Hf|]; by apply Hkeyed.
  - destruct (index_rel_get _ _ _ _ _ Hi Hk) as (i' & -> & _). eauto.
Qed.

Lemma handler_rel_started k f b b' a :
  handler_rel k f b b' → started (addr2Inst b) a → started (addr2Inst b') a.
Proof.
  intros (Hi & _) (t & Ht & Hs).
  destruct (index_rel_get _ _ _ _ _ Hi Ht) as (t' & Ht' & _ & Hmono).
  exists t'. auto.
Qed.

Section visitor_effects.
Context `{Imports}.

Lemma handler_rel_resolved k f b b' a :
  handler_rel k f b b' → resolved (addr2Inst b) a → resolved (addr2Inst b') a.
Proof.
  intros (Hi & _) (Hf & Hl & [t Ht]).
  destruct (index_rel_get _ _ _ _ _ Hi Ht) as (t' & Ht' & _).
  repeat split; eauto.
Qed.

Lemma update_own_writes k f b :
  (∀ i, start (f i) = start i) → handler_pre k b →
  ∃ b', update_own k f b = Some b' ∧ handler_rel k f b b'.
Proof.
  intros Hf [Hkeyed [inst Hk]]. unfold update_own, od_modify. rewrite Hk. simpl.
  rewrite (Hkeyed _ _ Hk), Hk. simpl. eexists. split; [done|]. split; [|done].
  simpl. intros k'. rewrite od_get_set. destruct (decide (k = k')) as [<-|Hne].
  - rewrite Hk. constructor. split; [by rewrite decide_True | by rewrite Hf].
  - destruct (od_get k' (addr2Inst b)); constructor.
    split; [by rewrite decide_False | done].
Qed.

Lemma update_own_marks k v b :
  handler_pre k b →
  ∃ b', update_own k (set_branchTo v) b = Some b' ∧ handler_rel k id b b'.
Proof.
  intros Hpre.
  destruct (update_own_writes k (set_branchTo v) b) as (b' & Hb' & Hrel); [done..|].
  exists b'. split; [done|]. by eapply handler_rel_at; [|done].
Qed.

Lemma aux_handler_rel k a n kind from a' b :
  handler_rel k id b (addAuxilaryInst a n (log_enter kind from a' b)).
Proof.
  unfold handler_rel, addAuxilaryInst.
  destruct (od_mem _ _); simpl;
    (split; [apply index_rel_refl; intros; apply writes_refl | done]).
Qed.

Lemma enter_writes k a b :
  handler_pre k b → ∃ b', enter k a b = Some b' ∧ handler_rel k id b b'.
Proof.
  intros [Hkeyed [inst Hk]]. pose proof (Hkeyed _ _ Hk) as Haddr.
  unfold enter. rewrite Hk. simpl.
  case_bool_decide; [eauto using aux_handler_rel|].
  destruct ((0 <=? a) && (a <? 256)); [eauto using aux_handler_rel|].
  destruct (od_mem a (addr2Inst b)) eqn:Hmem; simpl.
  - apply od_mem_true in Hmem.
    destruct (od_modify_is_Some a (set_start true) (addr2Inst b) Hmem) as [d' Hd'].
    rewrite Hd'. simpl. eexists. split; [done|]. split; [|done]. simpl.
    eapply index_rel_modify; [intros; apply writes_refl | | done].
    intros i. split; [by destruct (decide (a = k)) | done].
  - case_bool_decide; [eauto using aux_handler_rel|].
    rewrite addAuxilaryInst_addr2Inst. simpl.
    destruct (od_modify_is_Some (address inst) (set_branchTo (Some InvalidAddr))
                (addr2Inst b)) as [d' Hd']; [rewrite Haddr; eauto|].
    rewrite Hd'. simpl. eexists. split; [done|].
    destruct (aux_handler_rel k InvalidAddr "invalid" EnterInvalid (address inst) a b)
      as (_ & Hrest).
    split; [|done]. simpl.
    eapply index_rel_modify; [intros; apply writes_refl | | done].
    intros i. split; [by destruct (decide (address inst = k)) | done].
Qed.

Lemma enter_marks_target k a b b' :
  resolved (addr2Inst b) a → enter k a b = Some b' → started (addr2Inst b') a.
Proof.
  intros (Hf & Hl & Ha). unfold enter.
  destruct (od_get k (addr2Inst b)) as [inst|]; [|done]. simpl.
  rewrite bool_decide_false by done.
  replace ((0 <=? a) && (a <? 256)) with false
    by (destruct (Z.leb_spec 0 a), (Z.ltb_spec a 256); simpl; try done; lia).
  rewrite (proj2 (od_mem_true _ _) Ha). simpl.
  destruct (od_modify a (set_start true) (addr2Inst b)) as [d'|] eqn:Hm; [|done].
  simpl. intros [= <-]. simpl. unfold started.
  rewrite (od_modify_get _ _ _ _ _ Hm), decide_True by done.
  destruct Ha as [t ->]. simpl. eauto.
Qed.

End visitor_effects.

Lemma handler_rel_then_marks k f b b1 b2 :
  handler_rel k f b b1 → handler_rel k id b1 b2 → handler_rel k f b b2.
Proof. intros H1 H2. exact (handler_rel_compose k f id b b1 b2 erase_compat_id H1 H2). Qed.

Lemma handler_rel_marks_then k g b b1 b2 :
  erase_compat g →
  handler_rel k id b b1 → handler_rel k g b1 b2 → handler_rel k g b b2.
Proof. intros Hg H1 H2. exact (handler_rel_compose k id g b b1 b2 Hg H1 H2). Qed.

Lemma handler_rel_own k f b b' i i' :
  handler_rel k f b b' →
  od_get k (addr2Inst b) = Some i → od_get k (addr2Inst b') = Some i' →
  erase i' = erase (f i).
Proof.
  intros (Hi & _) Hg Hg'. destruct (index_rel_get _ _ _ _ _ Hi Hg) as (i2 & Hg2 & He & _).
  rewrite decide_True in He by done. congruence.
Qed.

Lemma attach_ext b b0 :
  addr2Bytes b = addr2Bytes b0 → addr2RawStr b = addr2RawStr b0 →
  attach b = attach b0.
Proof. intros Hb Hr. unfold attach. by rewrite Hb, Hr. Qed.

Section handler_effects.
Context `{Imports}.

Lemma branch_effect k b inst :
  handler_pre k b → od_get k (addr2Inst b) = Some inst →
  ∃ b', branch k b = Some b' ∧ handler_rel k id b b' ∧
    ∀ a, a ∈ [target inst; address inst + size inst] →
         resolved (addr2Inst b) a → started (addr2Inst b') a.
Proof.
  intros Hpre Hk. unfold branch. rewrite Hk. simpl.
  destruct (update_own_marks k (Some (target inst)) b Hpre) as (b1 & -> & Hr1). simpl.
  assert (Hp1 : handler_pre k b1) by (by eapply handler_rel_keeps_pre; [|done..]).
  destruct (enter_writes k (target inst) b1 Hp1) as (b2 & He2 & Hr2).
  rewrite He2. simpl.
  assert (Hr12 : handler_rel k id b b2) by (by eapply handler_rel_then_marks).
  assert (Hp2 : handler_pre k b2) by (by eapply handler_rel_keeps_pre; [|done..]).
  destruct (Hp2) as [_ [inst2 Hk2]]. unfold next_addr. rewrite Hk2. simpl.
  destruct (erase_static _ _ (handler_rel_own _ _ _ _ _ _ Hr12 Hk Hk2))
    as (Ha & Hs & _). simpl in Ha, Hs. rewrite Ha, Hs.
  destruct (enter_writes k (address inst + size inst) b2 Hp2) as (b3 & He3 & Hr3).
  rewrite He3. exists b3. split; [done|].
  split; [by eapply handler_rel_then_marks|].
  intros a Hin Hres. apply elem_of_cons in Hin as [->|Hin].
  - eapply handler_rel_started; [done|].
    eapply enter_marks_target; [|done]. by eapply handler_rel_resolved.
  - apply list_elem_of_singleton in Hin as ->.
    eapply enter_marks_target; [|done]. by eapply handler_rel_resolved.
Qed.

Lemma call_effect k b inst :
  handler_pre k b → od_get k (addr2Inst b) = Some inst →
  ∃ b', call_ k b = Some b' ∧ handler_rel k (set_call true) b b' ∧
    ∀ a, a ∈ [target inst] → resolved (addr2Inst b) a → started (addr2Inst b') a.
Proof.
  intros Hpre Hk. unfold call_.
  destruct (update_own_writes k (set_call true) b) as (b1 & -> & Hr1); [done..|]. simpl.
  assert (Hp1 : handler_pre k b1) by (by eapply handler_rel_keeps_pre; [|done..]).
  destruct (Hp1) as [_ [inst1 Hk1]]. rewrite Hk1. simpl.
  destruct (erase_static _ _ (handler_rel_own _ _ _ _ _ _ Hr1 Hk Hk1))
    as (_ & _ & _ & _ & Ht & _). simpl in Ht. rewrite Ht.
  destruct (update_own_marks k (Some (target inst)) b1 Hp1) as (b2 & -> & Hr2). simpl.
  assert (Hr12 : handler_rel k (set_call true) b b2) by (by eapply handler_rel_then_marks).
  assert (Hp2 : handler_pre k b2) by (by eapply handler_rel_keeps_pre; [|done..]).
  destruct (enter_writes k (target inst) b2 Hp2) as (b3 & He3 & Hr3).
  rewrite He3. exists b3. split; [done|].
  split; [by eapply handler_rel_then_marks|].
  intros a Hin Hres. apply list_elem_of_singleton in Hin as ->.
  eapply enter_marks_target; [|done]. by eapply handler_rel_resolved.
Qed.

Lemma jump_effect k b inst :
  handler_pre k b → od_get k (addr2Inst b) = Some inst →
  ∃ b', jump k b = Some b' ∧ handler_rel k (set_fallThrough false) b b' ∧
    ∀ a, a ∈ [target inst; address inst + size inst] →
         resolved (addr2Inst b) a → started (addr2Inst b') a.
Proof.
  intros Hpre Hk. unfold jump. rewrite Hk. simpl.
  destruct (update_own_writes k (set_fallThrough false) b) as (b1 & -> & Hr1); [done..|].
  simpl.
  assert (Hp1 : handler_pre k b1) by (by eapply handler_rel_keeps_pre; [|done..]).
  destruct (update_own_marks k (Some (target inst)) b1 Hp1) as (b2 & -> & Hr2). simpl.
  assert (Hr12 : handler_rel k (set_fallThrough false) b b2)
    by (by eapply handler_rel_then_marks).
  assert (Hp2 : handler_pre k b2) by (by eapply handler_rel_keeps_pre; [|done..]).
  destruct (enter_writes k (target inst) b2 Hp2) as (b3 & He3 & Hr3).
  rewrite He3. simpl.
  assert (Hr13 : handler_rel k (set_fallThrough false) b b3)
    by (by eapply handler_rel_then_marks).
  assert (Hp3 : handler_pre k b3) by (by eapply handler_rel_keeps_pre; [|done..]).
  destruct (Hp3) as [_ [inst3 Hk3]]. unfold next_addr. rewrite Hk3. simpl.
  destruct (erase_static _ _ (handler_rel_own _ _ _ _ _ _ Hr13 Hk Hk3))
    as (Ha & Hs & _). simpl in Ha, Hs. rewrite Ha, Hs.
  destruct (enter_writes k (address inst + size inst) b3 Hp3) as (b4 & He4 & Hr4).
  rewrite He4. exists b4. split; [done|].
  split; [by eapply handler_rel_then_marks|].
  intros a Hin Hres. apply elem_of_cons in Hin as [->|Hin].
  - eapply handler_rel_started; [done|].
    eapply enter_marks_target; [|done]. by eapply handler_rel_resolved.
  - apply list_elem_of_singleton in Hin as ->.
    eapply enter_marks_target; [|done]. by eapply handler_rel_resolved.
Qed.

Lemma end_effect k b inst :
  handler_pre k b → od_get k (addr2Inst b) = Some inst →
  ∃ b', end_ k b = Some b' ∧ handler_rel k (set_fallThrough false) b b' ∧
    ∀ a, a ∈ (if address inst + size inst <=? programEnd b
              then [address inst + size inst] else []) →
         resolved (addr2Inst b) a → started (addr2Inst b') a.
Proof.
  intros Hpre Hk. unfold end_.
  destruct (update_own_writes k (set_fallThrough false) b) as (b1 & -> & Hr1); [done..|].
  simpl.
  assert (Hp1 : handler_pre k b1) by (by eapply handler_rel_keeps_pre; [|done..]).
  destruct (Hp1) as [_ [inst1 Hk1]]. unfold next_addr. rewrite Hk1. simpl.
  destruct (erase_static _ _ (handler_rel_own _ _ _ _ _ _ Hr1 Hk Hk1))
    as (Ha & Hs & _). simpl in Ha, Hs. rewrite Ha, Hs.
  destruct (Hr1) as (_ & _ & _ & -> & _).
  destruct (address inst + size inst <=? programEnd b).
  - destruct (enter_writes k (address inst + size inst) b1 Hp1) as (b2 & He2 & Hr2).
    rewrite He2. exists b2. split; [done|].
    split; [by eapply handler_rel_then_marks|].
    intros a Hin Hres. apply list_elem_of_singleton in Hin as ->.
    eapply enter_marks_target; [|done]. by eapply handler_rel_resolved.
  - exists b1. split; [done|]. split; [done|]. intros a Hin. by apply elem_of_nil in Hin.
Qed.

Lemma accept_effect k b inst :
  handler_pre k b → od_get k (addr2Inst b) = Some inst →
  ∃ b', accept k b = Some b' ∧ handler_rel k handler_writes b b' ∧
    ∀ a, a ∈ entered (programEnd b) inst →
         resolved (addr2Inst b) a → started (addr2Inst b') a.
Proof.
  intros Hpre Hk. unfold accept, entered. rewrite Hk. simpl.
  destruct (category inst) eqn:Hc.
  - destruct (call_effect k b inst Hpre Hk) as (b' & Hb' & Hr & Hm).
    exists b'. split; [done|]. split; [|done].
    eapply handler_rel_at; [|done]. intros i Hi. assert (i = inst) as -> by congruence.
    unfold handler_writes. by rewrite Hc.
  - destruct (branch_effect k b inst Hpre Hk) as (b' & Hb' & Hr & Hm).
    exists b'. split; [done|]. split; [|done].
    eapply handler_rel_at; [|done]. intros i Hi. assert (i = inst) as -> by congruence.
    unfold handler_writes. by rewrite Hc.
  - destruct (jump_effect k b inst Hpre Hk) as (b' & Hb' & Hr & Hm).
    exists b'. split; [done|]. split; [|done].
    eapply handler_rel_at; [|done]. intros i Hi. assert (i = inst) as -> by congruence.
    unfold handler_writes. by rewrite Hc.
  - destruct (end_effect k b inst Hpre Hk) as (b' & Hb' & Hr & Hm).
    exists b'. split; [done|]. split; [|done].
    eapply handler_rel_at; [|done]. intros i Hi. assert (i = inst) as -> by congruence.
    unfold handler_writes. by rewrite Hc.
  - exists b. split; [done|]. split.
    + eapply handler_rel_at; [|apply handler_rel_refl]. intros i Hi.
      assert (i = inst) as -> by congruence. unfold handler_writes. by rewrite Hc.
    + intros a Hin. by apply elem_of_nil in Hin.
Qed.

Lemma attach_field_step k (o : option (list string))
    (set : list string → Instruction → Instruction) b :
  (∀ l i, start (set l i) = start i) → handler_pre k b →
  ∃ d', match o with
        | Some l => od_modify k (set l) (addr2Inst b)
        | None => Some (addr2Inst b)
        end = Some d' ∧
        handler_rel k (λ i, match o with Some l => set l i | None => i end)
          b (with_addr2Inst d' b).
Proof.
  intros Hset [Hkeyed [inst Hk]]. destruct o as [l|].
  - unfold od_modify. rewrite Hk. eexists. split; [done|]. split; [|done]. simpl.
    intros k'. rewrite od_get_set. destruct (decide (k = k')) as [<-|Hne].
    + rewrite Hk. constructor. split; [by rewrite decide_True | by rewrite Hset].
    + destruct (od_get k' (addr2Inst b)); constructor.
      split; [by rewrite decide_False | done].
  - eexists. split; [done|]. destruct b. apply handler_rel_refl.
Qed.

Lemma visitInsts_step_effect k b inst :
  handler_pre k b → od_get k (addr2Inst b) = Some inst →
  ∃ b', visitInsts_step b k = Some b' ∧
    handler_rel k (attach b k ∘ handler_writes) b b' ∧
    ∀ a, a ∈ entered (programEnd b) inst →
         resolved (addr2Inst b) a → started (addr2Inst b') a.
Proof.
  intros Hpre Hk. unfold visitInsts_step.
  destruct (accept_effect k b inst Hpre Hk) as (b1 & -> & Hr1 & Hm1). simpl.
  assert (Hstatic : ∀ i, address (handler_writes i) = address i).
  { intros i. unfold handler_writes. by destruct (category i). }
  assert (Hp1 : handler_pre k b1) by (by eapply handler_rel_keeps_pre; [|done..]).
  destruct (attach_field_step k (addr2Bytes b1 !! k) set_bytes b1)
    as (d1 & -> & Hr2); [done..|]. simpl.
  assert (Hp2 : handler_pre k (with_addr2Inst d1 b1)).
  { eapply handler_rel_keeps_pre; [|done..]. intros i.
    by destruct (addr2Bytes b1 !! k). }
  destruct (attach_field_step k (addr2RawStr b1 !! k) set_rawStrs (with_addr2Inst d1 b1))
    as (d2 & Hd2 & Hr3); [done..|].
  change (addr2Inst (with_addr2Inst d1 b1)) with d1 in Hd2.
  change (addr2RawStr (with_addr2Inst d1 b1)) with (addr2RawStr b1) in Hd2, Hr3.
  rewrite Hd2. simpl. eexists. split; [done|].
  change (with_addr2Inst d2 (with_addr2Inst d1 b1)) with (with_addr2Inst d2 b1) in Hr3.
  assert (Hr23 : handler_rel k (attach b1 k) b1 (with_addr2Inst d2 b1)).
  { eapply (handler_rel_compose k _ _ b1 _ _ _ Hr2 Hr3). }
  rewrite (attach_ext b1 b) in Hr23 by apply Hr1.
  split.
  - eapply handler_rel_compose; [apply erase_compat_attach | done | done].
  - intros a Hin Hres. eapply handler_rel_started; [done|]. by apply Hm1.
  Unshelve.
  intros i i' He. destruct (addr2RawStr b1 !! k); [|done].
  by apply erase_compat_set_rawStrs.
Qed.

End handler_effects.

Section visitor_pass.
Context `{Imports}.

(** The state of the loop of [visitInsts], started on [b0], after the
    keys [V]. *)
Lemma visitInsts_loop_effect b0 keys V b :
  get_keyed (addr2Inst b) →
  index_rel (visited_writes b0 V) (addr2Inst b0) (addr2Inst b) →
  handler_rel 0 id (with_addr2Inst (addr2Inst b) b0) b →
  (∀ k inst a, k ∈ V → od_get k (addr2Inst b0) = Some inst →
     a ∈ entered (programEnd b0) inst → resolved (addr2Inst b0) a →
     started (addr2Inst b) a) →
  Forall (λ k, is_Some (od_get k (addr2Inst b0))) keys →
  ∃ b',
    visitInsts_loop keys b = Some b' ∧
    get_keyed (addr2Inst b') ∧
    index_rel (visited_writes b0 (reverse keys ++ V)) (addr2Inst b0) (addr2Inst b') ∧
    handler_rel 0 id (with_addr2Inst (addr2Inst b') b0) b' ∧
    (∀ k inst a, k ∈ reverse keys ++ V → od_get k (addr2Inst b0) = Some inst →
       a ∈ entered (programEnd b0) inst → resolved (addr2Inst b0) a →
       started (addr2Inst b') a).
Proof.
  revert V b. induction keys as [|k keys IH]; intros V b Hkeyed Hrel Hframe Hmarks Hkeys.
  { exists b. by rewrite reverse_nil. }
  apply Forall_cons in Hkeys as [[inst0 Hk0] Hkeys].
  destruct (index_rel_get _ _ _ _ _ Hrel Hk0) as (y & Hky & Hey & _).
  destruct Hframe as (_ & Hbytes & Hraw & Hend & Hblock). simpl in *.
  destruct (visitInsts_step_effect k b y) as (b1 & Hstep & Hr1 & Hm1); [by split; eauto | done|].
  change (visitInsts_loop (k :: keys) b)
    with (visitInsts_step b k ≫= visitInsts_loop keys).
  rewrite Hstep. change (Some b1 ≫= ?f) with (f b1).
  rewrite (attach_ext b b0) in Hr1 by done.
  assert (Hstatic : ∀ i, address ((attach b0 k ∘ handler_writes) i) = address i).
  { intros i. apply (attach_handler_static b0 k i). }
  destruct (handler_rel_keeps_pre k _ b b1 Hstatic Hr1) as [Hkeyed1 _]; [by split; eauto|].
  rewrite reverse_cons, <- app_assoc.
  change ([k] ++ V) with (k :: V).
  apply IH; [done | | | | done].
  - eapply index_rel_trans; [|done|apply Hr1].
    intros k' x y' z [He Hs] [He' Hs']. split; [|auto]. rewrite He'.
    destruct (decide (k' = k)) as [->|Hne].
    + rewrite decide_True by left. clear Hey.
      destruct (decide (k ∈ V)).
      * rewrite <- attach_handler_idem.
        apply (erase_compat_compose _ _ erase_compat_handler_writes
                 (erase_compat_attach b0 k)), He.
      * apply (erase_compat_compose _ _ erase_compat_handler_writes
                 (erase_compat_attach b0 k)), He.
    + rewrite He. destruct (decide (k' ∈ V)) as [Hin|Hin].
      * rewrite decide_True by (by right). done.
      * rewrite decide_False; [done|]. intros Hx.
        apply elem_of_cons in Hx as [?|?]; done.
  - destruct Hr1 as (_ & Hb1 & Hw1 & He1 & Hk1). split; [|simpl; by rewrite Hb1, Hw1, He1, Hk1].
    apply index_rel_refl. intros. apply writes_refl.
  - intros k1 inst a Hin Hg Ha Hres. apply elem_of_cons in Hin as [->|Hin].
    + assert (inst = inst0) as -> by congruence.
      apply Hm1.
      * rewrite Hend. erewrite entered_static; [done|..].
        all: destruct (decide (k ∈ V));
          [destruct (attach_handler_static b0 k inst0) as (E1 & E2 & E3 & E4 & E5 & _)|];
          apply erase_static in Hey as (F1 & F2 & F3 & F4 & F5 & _); congruence.
      * destruct Hres as (Hf & Hl & [t Ht]).
        destruct (index_rel_get _ _ _ _ _ Hrel Ht) as (t' & Ht' & _).
        repeat split; eauto.
    + eapply handler_rel_started; [done|]. by eapply Hmarks.
Qed.

Lemma visitInsts_effect (b : Builder) :
  index_keyed (addr2Inst b) →
  ∃ b1,
    visitInsts_loop (map fst (addr2Inst b)) b = Some b1 ∧
    visitInsts b = Some (with_addr2Inst (od_update (addr2Inst b1) (addr2InstAux b1)) b1) ∧
    addr2Bytes b1 = addr2Bytes b ∧ addr2RawStr b1 = addr2RawStr b ∧
    programEnd b1 = programEnd b ∧ addr2Block b1 = addr2Block b ∧
    get_keyed (addr2Inst b1) ∧
    (∀ k inst, od_get k (addr2Inst b) = Some inst →
       ∃ inst', od_get k (addr2Inst b1) = Some inst' ∧
         erase inst' = erase (attach b k (handler_writes inst)) ∧
         (start inst = true → start inst' = true)) ∧
    (∀ k inst a, od_get k (addr2Inst b) = Some inst →
       a ∈ entered (programEnd b) inst → resolved (addr2Inst b) a →
       started (addr2Inst b1) a).
Proof.
  intros Hkeyed.
  destruct (visitInsts_loop_effect b (map fst (addr2Inst b)) [] b)
    as (b1 & Hloop & Hk1 & Hrel & Hframe & Hmarks).
  - by apply get_keyed_of_index_keyed.
  - apply index_rel_refl. intros k x. split; [|done]. by rewrite decide_False by apply not_elem_of_nil.
  - destruct b. apply handler_rel_refl.
  - intros k inst a Hin. by apply elem_of_nil in Hin.
  - apply Forall_forall. intros k Hk.
    destruct (od_get k (addr2Inst b)) eqn:Hg; [eauto|].
    by apply od_get_None_fst in Hg.
  - assert (Hin : ∀ k inst, od_get k (addr2Inst b) = Some inst →
                   k ∈ reverse (map fst (addr2Inst b)) ++ []).
    { intros k inst Hg. rewrite app_nil_r, elem_of_reverse.
      apply od_get_elem_of in Hg. by apply (list_elem_of_fmap_2 fst) in Hg. }
    destruct Hframe as (_ & Hb & Hr & He & Hbl). simpl in *.
    exists b1. split; [done|]. split; [unfold visitInsts; by rewrite Hloop|].
    do 4 (split; [done|]). split; [done|]. split.
    + intros k inst Hg. destruct (index_rel_get _ _ _ _ _ Hrel Hg) as (i' & Hg' & He' & Hs').
      rewrite decide_True in He' by eauto. eauto.
    + intros k inst a Hg. eapply Hmarks; eauto.
Qed.

End visitor_pass.

Section visitor_properties.
Context `{Imports}.

(** X18. On an index that stores every instruction under its own address,
    [visitInsts] returns (no lookup fails). Every decoded instruction whose
    address gets no auxiliary instruction is still stored under its
    address, with its address, size, operand, category and jump target as
    decoded, and with the raw bytes and the raw strings that the normaliser
    collected for its address, where it collected any. *)
Theorem visitInsts_attaches_bytes (b : Builder) :
  index_keyed (addr2Inst b) →
  ∃ b', visitInsts b = Some b' ∧
    ∀ k inst, od_get k (addr2Inst b) = Some inst → k ∉ (addr2InstAux b').*1 →
      ∃ inst', od_get k (addr2Inst b') = Some inst' ∧
        address inst' = address inst ∧ size inst' = size inst ∧
        operand inst' = operand inst ∧ category inst' = category inst ∧
        target inst' = target inst ∧
        bytes inst' = default (bytes inst) (addr2Bytes b !! k) ∧
        rawStrs inst' = default (rawStrs inst) (addr2RawStr b !! k).
Proof.
  intros Hkeyed.
  destruct (visitInsts_effect b Hkeyed)
    as (b1 & _ & Hvisit & _ & _ & _ & _ & _ & Hinst & _).
  eexists. split; [done|]. simpl. intros k inst Hg Hk.
  destruct (Hinst k inst Hg) as (inst' & Hg' & He & _).
  exists inst'. split; [by rewrite od_update_get_notin|].
  apply erase_static in He as (E1 & E2 & E3 & E4 & E5 & E6 & E7 & _).
  rewrite E1, E2, E3, E4, E5, E6, E7. unfold attach, handler_writes.
  by destruct (addr2Bytes b !! k), (addr2RawStr b !! k), (category inst) eqn:Hc.
Qed.

(** X19. After [visitInsts], a decoded instruction whose address gets no
    auxiliary instruction has [fallThrough] cleared when it is an
    unconditional jump or ends the flow, and as decoded otherwise; it has
    [call] set when it is a call, and as decoded otherwise; and it is still
    marked as a block start when it was. *)
Theorem visitInsts_handler_flags (b b' : Builder) (k : Z) (inst : Instruction) :
  index_keyed (addr2Inst b) →
  visitInsts b = Some b' →
  od_get k (addr2Inst b) = Some inst →
  k ∉ (addr2InstAux b').*1 →
  ∃ inst', od_get k (addr2Inst b') = Some inst' ∧
    fallThrough inst' =
      match category inst with
      | UnconditionalJump | EndHere => false
      | _ => fallThrough inst
      end ∧
    call inst' =
      match category inst with
      | Calling => true
      | _ => call inst
      end ∧
    (start inst = true → start inst' = true).
Proof.
  intros Hkeyed Hv Hg Hk.
  destruct (visitInsts_effect b Hkeyed)
    as (b1 & _ & Hvisit & _ & _ & _ & _ & _ & Hinst & _).
  rewrite Hvisit in Hv. injection Hv as <-. simpl in *.
  destruct (Hinst k inst Hg) as (inst' & Hg' & He & Hs).
  exists inst'. split; [by rewrite od_update_get_notin|].
  apply erase_static in He as (_ & _ & _ & _ & _ & _ & _ & E8 & E9).
  rewrite E8, E9. unfold attach, handler_writes.
  by destruct (addr2Bytes b !! k), (addr2RawStr b !! k), (category inst) eqn:Hc.
Qed.

(** X20. After [visitInsts], every address that the handler of a decoded
    instruction enters (the target of a call, the target and the next
    address of a jump or branch, the next address of an instruction that
    ends the flow when it is not beyond [programEnd]) is marked as a block
    start, when an instruction is decoded there, the address is neither the
    fake callee nor a software interrupt number, and it gets no auxiliary
    instruction. *)
Theorem visitInsts_marks_entered (b b' : Builder) (k a : Z) (inst : Instruction) :
  index_keyed (addr2Inst b) →
  visitInsts b = Some b' →
  od_get k (addr2Inst b) = Some inst →
  a ∈ entered (programEnd b) inst →
  resolved (addr2Inst b) a →
  a ∉ (addr2InstAux b').*1 →
  started (addr2Inst b') a.
Proof.
  intros Hkeyed Hv Hg Ha Hres Haux.
  destruct (visitInsts_effect b Hkeyed)
    as (b1 & _ & Hvisit & _ & _ & _ & _ & _ & _ & Hmarks).
  rewrite Hvisit in Hv. injection Hv as <-. simpl in *.
  unfold started. rewrite od_update_get_notin by done.
  by eapply Hmarks.
Qed.

(** X21. A jump or conditional branch whose operand is neither [call]
    nor [syscall] loses its branch target when the address behind it
    ([address + size]) holds no decoded instruction and is neither
    [FakeCalleeAddr] nor a software interrupt number (in [[0, 256)]): the
    second call of [enter], for the address behind the instruction, takes
    the branch for invalid addresses and overwrites [branchTo] with
    [InvalidAddr], whatever the first call did with the target. *)
Theorem jump_without_successor_targets_invalid (b : Builder) (k : Z)
    (inst : Instruction) :
  index_keyed (addr2Inst b) →
  od_get k (addr2Inst b) = Some inst →
  category inst = ConditionalJump ∨ category inst = UnconditionalJump →
  k + size inst ≠ FakeCalleeAddr →
  ¬ (0 ≤ k + size inst < 256) →
  od_get (k + size inst) (addr2Inst b) = None →
  operand inst ∉ ["call"; "syscall"] →
  ∃ b' inst',
    accept k b = Some b' ∧
    od_get k (addr2Inst b') = Some inst' ∧
    branchTo inst' = Some InvalidAddr ∧
    is_Some (od_get InvalidAddr (addr2InstAux b')).
Proof.
  intros Hkeyed Hk Hcat Hfake Hlow Hnone Hop.
  assert (Hpre : handler_pre k b) by (split; [by apply get_keyed_of_index_keyed | eauto]).
  pose proof (index_keyed_get _ _ _ Hkeyed Hk) as Haddr.
  assert (Hlast : ∀ f b3,
    (∀ i, address (f i) = address i ∧ size (f i) = size i ∧ operand (f i) = operand i) →
    handler_rel k f b b3 →
    ∃ b' inst',
      (a ← next_addr k b3; enter k a b3) = Some b' ∧
      od_get k (addr2Inst b') = Some inst' ∧
      branchTo inst' = Some InvalidAddr ∧
      is_Some (od_get InvalidAddr (addr2InstAux b'))).
  { intros f b3 Hf Hr.
    destruct (handler_rel_keeps_pre k f b b3 (λ i, proj1 (Hf i)) Hr Hpre)
      as [Hkeyed3 [inst3 Hk3]].
    destruct (erase_static _ _ (handler_rel_own _ _ _ _ _ _ Hr Hk Hk3))
      as (Ha & Hs & Ho & _).
    destruct (Hf inst) as (Fa & Fs & Fo). rewrite Fa in Ha. rewrite Fs in Hs.
    rewrite Fo in Ho.
    unfold next_addr. rewrite Hk3. change (Some ?x ≫= ?g) with (g x). cbv beta.
    rewrite Ha, Hs, Haddr. unfold enter. rewrite Hk3.
    repeat (change (Some ?x ≫= ?g) with (g x); cbv beta).
    rewrite bool_decide_false by done.
    replace ((0 <=? k + size inst) && (k + size inst <? 256)) with false
      by (destruct (Z.leb_spec 0 (k + size inst)), (Z.ltb_spec (k + size inst) 256);
          simpl; try done; lia).
    assert (od_mem (k + size inst) (addr2Inst b3) = false) as ->.
    { apply od_mem_false. destruct Hr as (Hi & _). by eapply index_rel_None. }
    change (negb false) with true. cbv iota.
    rewrite bool_decide_false by (by rewrite Ho).
    cbv zeta. rewrite addAuxilaryInst_addr2Inst.
    change (addr2Inst (log_enter ?x ?y ?z b3)) with (addr2Inst b3).
    unfold od_modify. rewrite Ha, Haddr, Hk3.
    change (Some ?x ≫= ?g) with (g x). cbv beta.
    eexists _, _. split; [done|].
    change (addr2Inst (with_addr2Inst ?d ?x)) with d.
    rewrite od_get_set_eq. split; [done|]. split; [done|].
    change (addr2InstAux (with_addr2Inst ?d ?x)) with (addr2InstAux x).
    apply od_mem_true, addAuxilaryInst_mem. }
  unfold accept. rewrite Hk. change (Some ?x ≫= ?g) with (g x). cbv beta.
  destruct Hcat as [-> | ->].
  - unfold branch. rewrite Hk. change (Some ?x ≫= ?g) with (g x). cbv beta zeta.
    destruct (update_own_marks k (Some (target inst)) b Hpre) as (b1 & -> & Hr1).
    change (Some ?x ≫= ?g) with (g x). cbv beta.
    assert (Hp1 : handler_pre k b1) by (by eapply handler_rel_keeps_pre; [|done..]).
    destruct (enter_writes k (target inst) b1 Hp1) as (b2 & -> & Hr2).
    change (Some ?x ≫= ?g) with (g x). cbv beta.
    apply (Hlast id); [done|]. by eapply handler_rel_then_marks.
  - unfold jump. rewrite Hk. change (Some ?x ≫= ?g) with (g x). cbv beta zeta.
    destruct (update_own_writes k (set_fallThrough false) b) as (b1 & -> & Hr1); [done..|].
    change (Some ?x ≫= ?g) with (g x). cbv beta.
    assert (Hp1 : handler_pre k b1) by (by eapply handler_rel_keeps_pre; [|done..]).
    destruct (update_own_marks k (Some (target inst)) b1 Hp1) as (b2 & -> & Hr2).
    change (Some ?x ≫= ?g) with (g x). cbv beta.
    assert (Hr12 : handler_rel k (set_fallThrough false) b b2)
      by (by eapply handler_rel_then_marks).
    assert (Hp2 : handler_pre k b2) by (by eapply handler_rel_keeps_pre; [|done..]).
    destruct (enter_writes k (target inst) b2 Hp2) as (b3 & -> & Hr3).
    change (Some ?x ≫= ?g) with (g x). cbv beta.
    apply (Hlast (set_fallThrough false)); [done|]. by eapply handler_rel_then_marks.
Qed.

End visitor_properties.

(** ** The whole pipeline *)

Section normaliser_fields.
Context `{Imports}.

Lemma indexOfInst_from_fields l a i b j b' :
  indexOfInst_from l a i b = Some (j, b') →
  second_pass_fields b' = second_pass_fields b.
Proof.
  revert i b. induction l as [|x l IH]; intros i b; simpl.
  - by intros [= _ <-].
  - destruct (bytePattern_match x); [|by intros [= _ <-]].
    unfold appendRawBytes. destruct (int16 a) as [addr|]; simpl; [|done].
    intros Hr. by apply IH in Hr.
Qed.

Lemma extractTextSeg_line_fields st line st' :
  extractTextSeg_line st line = Some st' →
  second_pass_fields st'.2 = second_pass_fields st.2.
Proof.
  destruct st as [n b]. unfold extractTextSeg_line.
  destruct (decoded_tokens line) as [|seg elems]; [by intros [= <-]|].
  destruct (addrInCodeSegment seg) as [|addr]; [by intros [= <-]|].
  unfold indexOfInst.
  destruct (indexOfInst_from elems addr 0 b) as [[i b1]|] eqn:Hidx; [|done].
  apply indexOfInst_from_fields in Hidx.
  change (Some (i, b1) ≫= ?f) with (f (i, b1)). cbv beta iota zeta.
  by destruct (i <? indexOfComment elems)%nat; intros [= <-].
Qed.

Lemma extractTextSeg_loop_fields lines st st' :
  extractTextSeg_loop lines st = Some st' →
  second_pass_fields st'.2 = second_pass_fields st.2.
Proof.
  revert st. induction lines as [|line lines IH]; intros st.
  - by intros [= <-].
  - change (extractTextSeg_loop (line :: lines) st)
      with (extractTextSeg_line st line ≫= extractTextSeg_loop lines).
    destruct (extractTextSeg_line st line) as [st1|] eqn:Hline; [|done].
    change (Some st1 ≫= ?f) with (f st1). intros Hloop.
    rewrite (IH _ Hloop). by eapply extractTextSeg_line_fields.
Qed.

Lemma appendRawString_fields a l b :
  second_pass_fields (appendRawString a l b) = second_pass_fields b.
Proof.
  unfold appendRawString. revert b. induction l as [|x l IH]; intros b; [done|].
  simpl. by rewrite IH.
Qed.

Lemma aggregate_fields a l b b' :
  aggregate a l b = Some b' → second_pass_fields b' = second_pass_fields b.
Proof.
  unfold aggregate. destruct (int16 a) as [addr|]; [|done].
  change (Some addr ≫= ?f) with (f addr). cbv beta zeta.
  rewrite <- (appendRawString_fields addr l b).
  destruct (isHeaderInfo l).
  { destruct (last l); [|done]. by intros [= <-]. }
  destruct (foldl aggregate_step ([], "") l) as [valid found].
  destruct valid as [|v [|v' valid]];
    try (by intros [= <-]); by destruct (0 <? _)%nat; intros [= <-].
Qed.

Lemma createProgram_loop_fields es st st' :
  createProgram_loop es st = Some st' →
  second_pass_fields st'.2 = second_pass_fields st.2.
Proof.
  revert st. induction es as [|e es IH]; intros st.
  - by intros [= <-].
  - change (createProgram_loop (e :: es) st)
      with (createProgram_step st e ≫= createProgram_loop es).
    destruct (createProgram_step st e) as [st1|] eqn:Hstep; [|done].
    change (Some st1 ≫= ?f) with (f st1). intros Hloop. rewrite (IH _ Hloop).
    destruct st as [[c s] b]. unfold createProgram_step in Hstep.
    destruct c as [curr|]; [|by injection Hstep as <-].
    destruct (negb (String.eqb _ curr)); [|by injection Hstep as <-].
    destruct (aggregate curr s b) as [b1|] eqn:Hagg; [|done].
    injection Hstep as <-. by eapply aggregate_fields.
Qed.

Lemma createProgram_fields b b' :
  createProgram b = Some b' → second_pass_fields b' = second_pass_fields b.
Proof.
  unfold createProgram.
  destruct (createProgram_loop (text b) (None, [], b)) as [[[c s] b1]|] eqn:Hloop;
    [|done].
  apply createProgram_loop_fields in Hloop. simpl in Hloop.
  change (Some (c, s, b1) ≫= ?f) with (f (c, s, b1)). cbv beta iota.
  rewrite <- Hloop. destruct s as [|x s]; [by intros [= <-]|].
  destruct c as [curr|]; [|done]. apply aggregate_fields.
Qed.

Lemma od_set_keyed k i d :
  address i = k → index_keyed d → index_keyed (od_set k i d).
Proof.
  intros Hi. unfold index_keyed. induction d as [|[k' v'] d IH]; simpl.
  - intros _. by constructor.
  - intros Hd. apply Forall_cons in Hd as [Hv Hd].
    destruct (decide (k = k')); constructor; auto.
Qed.

Lemma od_modify_keyed k f d d' :
  (∀ i, address (f i) = address i) →
  od_modify k f d = Some d' → index_keyed d → index_keyed d'.
Proof.
  intros Hf Hm. apply insts_rel_keyed.
  eapply od_modify_pointwise; [| |done]; unfold same_address; by intros.
Qed.

Lemma buildInsts_loop_returns prog prevAddr b :
  index_keyed (addr2Inst b) →
  (prevAddr ≠ -1 → is_Some (od_get prevAddr (addr2Inst b))) →
  ∃ prevAddr' b',
    buildInsts_loop prog (prevAddr, b) = Some (prevAddr', b') ∧
    index_keyed (addr2Inst b') ∧
    (prevAddr' ≠ -1 → is_Some (od_get prevAddr' (addr2Inst b'))) ∧
    addr2Block b' = addr2Block b.
Proof.
  revert prevAddr b. induction prog as [|e prog IH]; intros prevAddr b Hkeyed Hprev.
  { by exists prevAddr, b. }
  change (buildInsts_loop (e :: prog) (prevAddr, b))
    with (buildInsts_step (prevAddr, b) e ≫= buildInsts_loop prog).
  unfold buildInsts_step.
  destruct (createInst (e.1 +:+ " " +:+ e.2)) as [inst|].
  2:{ change (Some ?x ≫= ?f) with (f x). by apply IH. }
  assert (∃ insts,
    (if negb (prevAddr =? -1)
     then od_modify prevAddr (set_size (address inst - prevAddr)) (addr2Inst b)
     else Some (addr2Inst b)) = Some insts ∧ index_keyed insts) as (insts & -> & Hk1).
  { destruct (Z.eqb_spec prevAddr (-1)) as [->|Hne]; simpl; [eauto|].
    destruct (od_modify_is_Some prevAddr (set_size (address inst - prevAddr))
                (addr2Inst b) (Hprev Hne)) as [insts Hinsts].
    exists insts. split; [done|]. by eapply od_modify_keyed; [|done..]. }
  repeat (change (Some ?x ≫= ?f) with (f x); cbv beta zeta).
  match goal with
  | |- ∃ p b', buildInsts_loop prog (address inst, ?b1) = _ ∧ _ =>
      destruct (IH (address inst) b1) as (p' & b' & Hloop & Hk' & Hp' & Hblk)
  end.
  - simpl. destruct (programStart _ =? -1); simpl; by apply od_set_keyed.
  - intros _. simpl. destruct (programStart _ =? -1); simpl;
      rewrite od_get_set_eq; eauto.
  - exists p', b'. split; [done|]. split; [done|]. split; [done|].
    rewrite Hblk. simpl. by destruct (programStart _ =? -1).
Qed.

Lemma buildInsts_returns b :
  index_keyed (addr2Inst b) →
  ∃ b', buildInsts b = Some b' ∧ index_keyed (addr2Inst b') ∧
        addr2Block b' = addr2Block b.
Proof.
  intros Hkeyed. unfold buildInsts.
  destruct (buildInsts_loop_returns (program b) (-1) b Hkeyed)
    as (p & b1 & -> & Hk1 & Hp1 & Hblk); [done|].
  change (Some ?x ≫= ?f) with (f x). cbv beta iota.
  destruct (Z.ltb_spec 0 p) as [Hpos|Hneg]; [|eauto].
  destruct (od_modify_is_Some p (set_size 2) (addr2Inst b1)) as [d Hd];
    [apply Hp1; lia|].
  rewrite Hd. change (Some ?x ≫= ?f) with (f x). cbv beta.
  eexists. split; [done|]. split; [|done]. simpl. by eapply od_modify_keyed; [|done..].
Qed.

Lemma connectBlocks_addr2Inst b :
  blocks_keyed (addr2Block b) → addr2Inst (connectBlocks b) = addr2Inst b.
Proof.
  intros Hkeyed. unfold connectBlocks.
  assert (Hloop : ∀ entries st, assembly_inv st →
            addr2Inst (foldl connectBlocks_step st entries).2 = addr2Inst st.2).
  { induction entries as [|[a i] entries IH]; intros st Hinv; [done|]. simpl.
    destruct (connectBlocks_step_spec st a i Hinv) as (Hinv1 & _ & Hidx & _).
    rewrite IH by done. exact Hidx. }
  apply (Hloop _ (None, b)). split; [done | intros c [=]].
Qed.

(** X22. Whenever the normaliser returns on a listing (every address it
    keeps parses), the whole of [buildControlFlowGraph] returns on a fresh
    builder: neither decoding, the visitor nor block assembly fails on a
    lookup, whatever the decoder accepts. In the result every block is
    stored under its start address, every edge leads to a stored block, and
    every instruction of the index, auxiliary ones included, is in a
    block. *)
Theorem buildControlFlowGraph_well_formed (lines : list string) :
  is_Some (normalise lines) →
  ∃ b',
    buildControlFlowGraph lines Builder_init = Some b' ∧
    blocks_keyed (addr2Block b') ∧
    edges_closed (addr2Block b') ∧
    ∀ addr inst, (addr, inst) ∈ addr2Inst b' →
      ∃ c blk, addr2Block b' !! c = Some blk ∧ inst ∈ instList blk.
Proof.
  intros [r Hnorm]. unfold normalise in Hnorm.
  unfold buildControlFlowGraph, parseInstructions, parseBlocks.
  destruct (extractTextSeg lines Builder_init) as [b1|] eqn:Hext; [|done].
  change (Some b1 ≫= ?f) with (f b1) in *. cbv beta in *.
  destruct (createProgram b1) as [b2|] eqn:Hprog; [|done].
  change (Some b2 ≫= ?f) with (f b2). cbv beta. clear Hnorm.
  assert (Hfields : second_pass_fields b2 = second_pass_fields Builder_init).
  { rewrite (createProgram_fields _ _ Hprog). unfold extractTextSeg in Hext.
    destruct (extractTextSeg_loop lines (1, Builder_init)) as [st|] eqn:Hloop; [|done].
    injection Hext as <-. by apply extractTextSeg_loop_fields in Hloop. }
  injection Hfields as Hinst _ Hblock _ _.
  destruct (buildInsts_returns b2) as (b3 & -> & Hk3 & Hblk3).
  { rewrite Hinst. constructor. }
  change (Some b3 ≫= ?f) with (f b3). cbv beta.
  destruct (visitInsts_effect b3 Hk3)
    as (b4 & _ & -> & _ & _ & _ & Hblk4 & _).
  change (Some ?x ≫= ?f) with (f x). cbv beta.
  set (b5 := with_addr2Inst _ b4).
  assert (Hempty : addr2Block b5 = ∅) by (subst b5; simpl; congruence).
  eexists. split; [done|].
  destruct (connectBlocks_loop_wf (sorted_items (addr2Inst b5)) (None, b5))
    as (Hkeyed & Hclosed & _).
  { split; [|intros c [=]]. change (blocks_keyed (addr2Block b5)).
    rewrite Hempty. apply blocks_keyed_empty. }
  { change (blocks_wf (addr2Block b5)). rewrite Hempty. apply blocks_wf_empty. }
  fold (connectBlocks b5) in Hkeyed, Hclosed.
  split; [done|]. split; [done|]. intros addr inst Hin.
  rewrite connectBlocks_addr2Inst in Hin by (rewrite Hempty; apply blocks_keyed_empty).
  destruct (connectBlocks_placed b5 addr inst) as (c & blk & Hc & _ & Hi & _);
    [rewrite Hempty; apply blocks_keyed_empty | done | eauto].
Qed.

End normaliser_fields.

(** ** Normaliser: the keys of [text] *)

Lemma indexOfComment_from_spec l i :
  ∃ n, indexOfComment_from l i = (i + n)%nat ∧ (n ≤ length l)%nat ∧
       Forall (λ t, Py.find t ";" = -1) (take n l) ∧
       ∀ t, l !! n = Some t → Py.find t ";" ≠ -1.
Proof.
  revert i. induction l as [|x l IH]; intros i; simpl.
  - exists 0%nat. split; [lia|]. split; [done|]. split; [constructor|]. done.
  - destruct (Z.eqb_spec (Py.find x ";") (-1)) as [Heq|Hne]; simpl.
    + destruct (IH (S i)) as (n & -> & Hn & Hall & Hat).
      exists (S n). split; [lia|]. split; [lia|]. split; [by constructor|]. done.
    + exists 0%nat. split; [lia|]. split; [lia|]. split; [constructor|].
      by intros t [= <-].
Qed.

(** X23. [indexOfComment] returns the index of the first token that
    contains a semicolon, and the number of tokens when there is none. *)
Theorem indexOfComment_first (decodedElems : list string) :
  (indexOfComment decodedElems ≤ length decodedElems)%nat ∧
  Forall (λ t, Py.find t ";" = -1) (take (indexOfComment decodedElems) decodedElems) ∧
  ∀ t, decodedElems !! indexOfComment decodedElems = Some t → Py.find t ";" ≠ -1.
Proof.
  unfold indexOfComment.
  destruct (indexOfComment_from_spec decodedElems 0) as (n & -> & Hn & Hall & Hat).
  done.
Qed.

Section text_keys.
Context `{Imports}.

Lemma extractTextSeg_line_entry n b line n' b' :
  (∀ k, k ∈ (text b).*1 → k < n) →
  extractTextSeg_line (n, b) line = Some (n', b') →
  n' = n + 1 ∧
  (text b' = text b ∨
   ∃ seg elems a rest,
     decoded_tokens line = seg :: elems ∧ addrInCodeSegment seg = InCodeSeg a ∧
     rest ≠ [] ∧ rest `sublist_of` elems ∧
     text b' = text b ++ [(n, Py.join " " (a :: rest))]).
Proof.
  intros Hlt. unfold extractTextSeg_line.
  destruct (decoded_tokens line) as [|seg elems] eqn:Hsplit; [intros [= <- <-]; auto|].
  destruct (addrInCodeSegment seg) as [|a] eqn:Hseg; [intros [= <- <-]; auto|].
  unfold indexOfInst.
  destruct (indexOfInst_from elems a 0 b) as [[i b1]|] eqn:Hidx; [|done].
  pose proof (indexOfInst_from_text _ _ _ _ _ _ Hidx) as Htext.
  change (Some (i, b1) ≫= ?f) with (f (i, b1)). cbv beta iota zeta.
  destruct (Nat.ltb_spec i (indexOfComment elems)) as [Hi|Hi];
    intros [= <- <-]; (split; [done|]); [|by left].
  right. exists seg, elems, a, (take (indexOfComment elems - i) (drop i elems)).
  split; [done|]. split; [done|].
  assert (Hle : (indexOfComment elems ≤ length elems)%nat).
  { unfold indexOfComment.
    destruct (indexOfComment_from_spec elems 0) as (m & -> & Hm & _). lia. }
  split; [|split].
  - intros Hnil. apply (f_equal length) in Hnil.
    rewrite length_take, length_drop in Hnil. simpl in Hnil. lia.
  - etrans; [apply sublist_take | apply sublist_drop].
  - simpl. rewrite Htext. apply od_set_fresh. intros Hin. specialize (Hlt _ Hin). lia.
Qed.

Lemma extractTextSeg_loop_entries all done lines b n' b' :
  all = done ++ lines →
  StronglySorted Z.lt (text b).*1 →
  (∀ k s, (k, s) ∈ text b → k < 1 + Z.of_nat (length done) ∧ text_entry_of all k s) →
  extractTextSeg_loop lines (1 + Z.of_nat (length done), b) = Some (n', b') →
  StronglySorted Z.lt (text b').*1 ∧
  (∀ k s, (k, s) ∈ text b' → k ≤ Z.of_nat (length all) ∧ text_entry_of all k s).
Proof.
  revert done b. induction lines as [|line lines IH]; intros done b Hall Hsorted Hentries.
  - intros [= <- <-]. split; [done|]. intros k s Hin.
    destruct (Hentries k s Hin) as [Hk He]. split; [|done].
    rewrite Hall, app_nil_r. lia.
  - change (extractTextSeg_loop (line :: lines) ?st)
      with (extractTextSeg_line st line ≫= extractTextSeg_loop lines).
    destruct (extractTextSeg_line _ line) as [[n1 b1]|] eqn:Hline; [|done].
    change (Some ?x ≫= ?f) with (f x).
    apply extractTextSeg_line_entry in Hline as [-> Htext].
    2:{ intros k Hk. apply list_elem_of_fmap in Hk as ([k0 s] & -> & Hin).
        by destruct (Hentries k0 s Hin). }
    replace (1 + Z.of_nat (length done) + 1)
      with (1 + Z.of_nat (length (done ++ [line])))
      by (rewrite length_app; simpl; lia).
    apply IH; [by rewrite <- app_assoc | |].
    + destruct Htext as [->|(seg & elems & a & rest & _ & _ & _ & _ & ->)]; [done|].
      rewrite fmap_app. apply StronglySorted_app_2; [| done | repeat constructor].
      intros k1 k2 Hk1 Hk2. apply list_elem_of_singleton in Hk2 as ->. simpl.
      apply list_elem_of_fmap in Hk1 as ([k0 s] & -> & Hin).
      by destruct (Hentries k0 s Hin).
    + assert (Hold : ∀ k s, (k, s) ∈ text b →
                k < 1 + Z.of_nat (length (done ++ [line])) ∧ text_entry_of all k s).
      { intros k s Hin. destruct (Hentries k s Hin). split; [|done].
        rewrite length_app. simpl. lia. }
      destruct Htext as [->|(seg & elems & a & rest & Hs & Ha & Hne & Hsub & ->)];
        [done|].
      intros k s Hin. apply elem_of_app in Hin as [Hin|Hin]; [by apply Hold|].
      apply list_elem_of_singleton in Hin. injection Hin as -> ->.
      split; [rewrite length_app; simpl; lia|].
      exists line, seg, elems, a, rest. split; [lia|]. split; [|done].
      replace (Z.to_nat (1 + Z.of_nat (length done) - 1)) with (length done) by lia.
      rewrite Hall. by rewrite list_lookup_middle.
Qed.

(** X24. From an empty [text], [extractTextSeg] leaves the entries of
    [text] in the order of the listing, keyed by increasing 1-based line
    numbers, and every entry comes from the line with its number: a line
    whose decoded label is of a listed segment, of which the entry keeps the
    address, followed by at least one of the decoded tokens of the line. *)
Theorem extractTextSeg_line_numbers (lines : list string) (b b' : Builder) :
  text b = [] →
  extractTextSeg lines b = Some b' →
  StronglySorted Z.lt (text b').*1 ∧
  ∀ k s, (k, s) ∈ text b' →
    1 ≤ k ≤ Z.of_nat (length lines) ∧ text_entry_of lines k s.
Proof.
  intros Hempty. unfold extractTextSeg.
  destruct (extractTextSeg_loop lines (1, b)) as [[n' b1]|] eqn:Hloop; [|done].
  intros [= <-].
  destruct (extractTextSeg_loop_entries lines [] lines b n' b1) as [Hsorted Hentries].
  - done.
  - rewrite Hempty. constructor.
  - intros k s Hin. rewrite Hempty in Hin. by apply elem_of_nil in Hin.
  - exact Hloop.
  - split; [done|]. intros k s Hin. destruct (Hentries k s Hin) as [Hk He].
    split; [|done]. destruct He as (? & ? & ? & ? & ? & ? & _). lia.
Qed.

End text_keys.

(** ** The further properties on sample inputs *)

Lemma connectBlocks_no_dangling_edge_witness :
  let inst := set_branchTo (Some 4106) (set_call true (decoded 4096 5 "call" Calling 4106)) in
  let b := with_addr2Inst
             [(4096, inst); (4101, decoded 4101 5 "nop" DefaultCat (-2));
              (4106, set_start true (decoded 4106 2 "nop" DefaultCat (-2)))]
             Builder_init in
  blocks_wf (addr2Block b) ∧
  ∃ blk,
    addr2Block (connectBlocks b) !! 4096 = Some blk ∧
    4106 ∈ edgeList blk ∧
    startAddr blk = 4096 ∧
    ∃ blkA, addr2Block (connectBlocks b) !! 4106 = Some blkA ∧ startAddr blkA = 4106.
Proof.
  intros inst b.
  assert (Hwf : blocks_wf (addr2Block b)) by exact blocks_wf_empty.
  assert (Hk : ∃ blk, addr2Block (connectBlocks b) !! 4096 = Some blk ∧
                      4106 ∈ edgeList blk).
  { eexists. split; [vm_compute; reflexivity|]. vm_compute. left. }
  destruct Hk as (blk & Hk & Ha).
  split; [exact Hwf|]. exists blk. split; [exact Hk|]. split; [exact Ha|].
  exact (connectBlocks_no_dangling_edge b 4096 4106 blk Hwf Hk Ha).
Defined.

Lemma connectBlocks_endAddr_bounds_witness :
  let inst := set_branchTo (Some 4106) (set_call true (decoded 4096 5 "call" Calling 4106)) in
  let b := with_addr2Inst
             [(4096, inst); (4101, decoded 4101 5 "nop" DefaultCat (-2));
              (4106, set_start true (decoded 4106 2 "nop" DefaultCat (-2)))]
             Builder_init in
  blocks_wf (addr2Block b) ∧
  ∃ blk,
    addr2Block (connectBlocks b) !! 4096 = Some blk ∧
    startAddr blk ≤ endAddr blk ∧
    ∀ i, i ∈ instList blk → address i ≤ endAddr blk.
Proof.
  intros inst b.
  assert (Hwf : blocks_wf (addr2Block b)) by exact blocks_wf_empty.
  assert (Hk : ∃ blk, addr2Block (connectBlocks b) !! 4096 = Some blk).
  { eexists. vm_compute. reflexivity. }
  destruct Hk as (blk & Hk).
  split; [exact Hwf|]. exists blk. split; [exact Hk|].
  exact (connectBlocks_endAddr_bounds b 4096 blk Hwf Hk).
Defined.

Lemma connectBlocks_places_every_instruction_witness :
  let inst := decoded 4101 5 "nop" DefaultCat (-2) in
  let b := with_addr2Inst
             [(4096, set_branchTo (Some 4106)
                       (set_call true (decoded 4096 5 "call" Calling 4106)));
              (4101, inst);
              (4106, set_start true (decoded 4106 2 "nop" DefaultCat (-2)))]
             Builder_init in
  blocks_keyed (addr2Block b) ∧
  (4101, inst) ∈ addr2Inst b ∧
  ∃ c blk,
    addr2Block (connectBlocks b) !! c = Some blk ∧ startAddr blk = c ∧
    inst ∈ instList blk ∧ (start inst = true → c = 4101).
Proof.
  intros inst b.
  assert (Hkeyed : blocks_keyed (addr2Block b)) by exact blocks_keyed_empty.
  assert (Hin : (4101, inst) ∈ addr2Inst b) by (right; left).
  split; [exact Hkeyed|]. split; [exact Hin|].
  exact (connectBlocks_places_every_instruction b 4101 inst Hkeyed Hin).
Defined.

Lemma connectBlocks_branch_edge_witness :
  let inst := set_branchTo (Some 4106) (set_call true (decoded 4096 5 "call" Calling 4106)) in
  let b := with_addr2Inst
             [(4096, inst); (4101, decoded 4101 5 "nop" DefaultCat (-2));
              (4106, set_start true (decoded 4106 2 "nop" DefaultCat (-2)))]
             Builder_init in
  blocks_keyed (addr2Block b) ∧
  (4096, inst) ∈ addr2Inst b ∧
  branchTo inst = Some 4106 ∧
  ∃ c blk blkT,
    addr2Block (connectBlocks b) !! c = Some blk ∧ inst ∈ instList blk ∧
    4106 ∈ edgeList blk ∧ addr2Block (connectBlocks b) !! 4106 = Some blkT.
Proof.
  intros inst b.
  assert (Hkeyed : blocks_keyed (addr2Block b)) by exact blocks_keyed_empty.
  assert (Hin : (4096, inst) ∈ addr2Inst b) by left.
  split; [exact Hkeyed|]. split; [exact Hin|]. split; [reflexivity|].
  exact (connectBlocks_branch_edge b 4096 4106 inst Hkeyed Hin eq_refl).
Defined.

Lemma connectBlocks_fallthrough_edge_witness :
  let inst := decoded 4101 5 "nop" DefaultCat (-2) in
  let nextInst := set_start true (decoded 4106 2 "nop" DefaultCat (-2)) in
  let b := with_addr2Inst
             [(4096, set_branchTo (Some 4106)
                       (set_call true (decoded 4096 5 "call" Calling 4106)));
              (4101, inst); (4106, nextInst)]
             Builder_init in
  blocks_keyed (addr2Block b) ∧
  (4101, inst) ∈ addr2Inst b ∧
  fallThrough inst = true ∧
  od_get (4101 + size inst) (addr2Inst b) = Some nextInst ∧
  start nextInst = true ∧
  ∃ c blk blkN,
    addr2Block (connectBlocks b) !! c = Some blk ∧ inst ∈ instList blk ∧
    (4101 + size inst) ∈ edgeList blk ∧
    addr2Block (connectBlocks b) !! (4101 + size inst) = Some blkN.
Proof.
  intros inst nextInst b.
  assert (Hkeyed : blocks_keyed (addr2Block b)) by exact blocks_keyed_empty.
  assert (Hin : (4101, inst) ∈ addr2Inst b) by (right; left).
  split; [exact Hkeyed|]. split; [exact Hin|].
  split; [reflexivity|]. split; [reflexivity|]. split; [reflexivity|].
  exact (connectBlocks_fallthrough_edge b 4101 inst nextInst Hkeyed Hin
           eq_refl eq_refl eq_refl).
Defined.

Lemma connectBlocks_edges_nodup_witness :
  let b := with_addr2Inst
             [(4096, set_branchTo (Some 4106) (set_fallThrough false
                       (decoded 4096 5 "jmp" UnconditionalJump 4106)));
              (4101, set_fallThrough false (decoded 4101 5 "retn" EndHere (-2)));
              (4106, set_start true (decoded 4106 2 "nop" DefaultCat (-2)))]
             Builder_init in
  blocks_keyed (addr2Block b) ∧
  edges_nodup (addr2Block b) ∧
  no_fallthrough_edge (addr2Inst b) ∧
  ∃ blk, addr2Block (connectBlocks b) !! 4096 = Some blk ∧ NoDup (edgeList blk).
Proof.
  intros b.
  assert (Hkeyed : blocks_keyed (addr2Block b)) by exact blocks_keyed_empty.
  assert (Hnodup : edges_nodup (addr2Block b)).
  { intros k blk Hk. simpl in Hk. rewrite lookup_empty in Hk. discriminate. }
  assert (Hnofall : no_fallthrough_edge (addr2Inst b)).
  { intros addr inst nextInst Hin Hft Hnext. simpl in Hin.
    repeat (apply elem_of_cons in Hin as [Hin|Hin];
            [injection Hin as -> ->; try discriminate Hft; try discriminate Hnext|]).
    by apply elem_of_nil in Hin. }
  assert (Hk : ∃ blk, addr2Block (connectBlocks b) !! 4096 = Some blk).
  { eexists. vm_compute. reflexivity. }
  destruct Hk as (blk & Hk).
  split; [exact Hkeyed|]. split; [exact Hnodup|]. split; [exact Hnofall|].
  exists blk. split; [exact Hk|].
  exact (connectBlocks_edges_nodup b 4096 blk Hkeyed Hnodup Hnofall Hk).
Defined.

Lemma addrInCodeSegment_round_trip_witness :
  ".text:" ∈ segNames ∧
  Py.find "00401000" ":" = -1 ∧
  addrInCodeSegment (".text:" +:+ "00401000") = InCodeSeg "00401000".
Proof.
  assert (Hin : ".text:" ∈ segNames) by left.
  split; [exact Hin|]. split; [reflexivity|].
  exact (addrInCodeSegment_round_trip ".text:" "00401000" Hin eq_refl).
Defined.

Lemma addrInCodeSegment_after_last_colon_witness :
  addrInCodeSegment "seg000:00001000" = InCodeSeg "00001000" ∧
  (∃ s1, "seg000:00001000" = s1 +:+ String ":" "00001000") ∧
  Py.find "00001000" ":" = -1.
Proof.
  split; [reflexivity|].
  exact (addrInCodeSegment_after_last_colon "seg000:00001000" "00001000" eq_refl).
Defined.

Lemma extractTextSeg_line_code_witness :
  let line := ".text:00401000 55 push ebp ; prologue" in
  decoded_tokens (H := sample_imports) line
    = ".text:00401000" :: ["55"] ++ ["push"; "ebp"] ++ [";"; "prologue"] ∧
  Forall (λ t, no_blank t = true) [".text:00401000"; "push"; "ebp"] ∧
  addrInCodeSegment ".text:00401000" = InCodeSeg "00401000" ∧
  int16 (Imports := sample_imports) "00401000" = Some 4198400 ∧
  extractTextSeg_line (H := sample_imports) (7, Builder_init) line =
    Some (7 + 1,
          with_text (od_set 7 (Py.join " " ["00401000"; "push"; "ebp"]) [])
            (with_addr2Bytes (<[4198400 := ["55"]]> ∅) Builder_init)) ∧
  parse_text_line (Py.join " " ["00401000"; "push"; "ebp"]) =
    ("00401000", Py.join " " ["push"; "ebp"]).
Proof.
  intros line. split; [reflexivity|]. split; [repeat constructor|].
  split; [reflexivity|]. split; [reflexivity|].
  apply (extractTextSeg_line_code (H := sample_imports) 7 Builder_init line
           ".text:00401000" "00401000" 4198400 ["55"] ["push"; "ebp"] [";"; "prologue"]).
  - reflexivity.
  - repeat constructor.
  - reflexivity.
  - reflexivity.
  - repeat constructor.
  - discriminate.
  - reflexivity.
  - repeat constructor.
  - discriminate.
Defined.


Lemma createProgram_last_run_wins_witness :
  let b := with_text [(1, "00401000 push ebp"); (2, "00401001 retn")] Builder_init in
  Forall (λ e, is_Some (int16 (Imports := sample_imports) (parse_text_line e.2).1))
    (text b) ∧
  ∃ b', createProgram (H := sample_imports) b = Some b' ∧
        ∀ a, od_get a (program b') =
             last_run_text a (od_get a (program b))
               (runs (map (λ e, parse_text_line e.2) (text b))).
Proof.
  intros b.
  assert (Hall : Forall (λ e, is_Some (int16 (Imports := sample_imports)
                                         (parse_text_line e.2).1)) (text b)).
  { repeat constructor; eexists; vm_compute; reflexivity. }
  split; [exact Hall|].
  exact (createProgram_last_run_wins (H := sample_imports) b Hall).
Defined.

Lemma buildInsts_sizes_witness :
  let b := with_program [("00401000", "push ebp"); ("00401001", "retn")] Builder_init in
  addr2Inst b = [] ∧
  programStart b = -1 ∧
  NoDup (map address (accepted (H := sample_imports) (program b))) ∧
  Forall (λ i, address i ≠ -1) (accepted (H := sample_imports) (program b)) ∧
  ∃ b',
    buildInsts (H := sample_imports) b = Some b' ∧
    (λ e, (e.1, size e.2)) <$> addr2Inst b' = [(4198400, 1); (4198401, 2)] ∧
    programStart b' = 4198400 ∧
    programEnd b' = 4198401.
Proof.
  intros b.
  assert (Hnd : NoDup (map address (accepted (H := sample_imports) (program b)))).
  { apply (bool_decide_unpack _). vm_compute. exact I. }
  assert (Hall : Forall (λ i, address i ≠ -1) (accepted (H := sample_imports) (program b))).
  { apply (bool_decide_unpack _). vm_compute. exact I. }
  split; [reflexivity|]. split; [reflexivity|]. split; [exact Hnd|]. split; [exact Hall|].
  destruct (buildInsts_sizes (H := sample_imports) b eq_refl eq_refl Hnd Hall)
    as (b' & Hb' & Hidx & Hs & He).
  exists b'. split; [exact Hb'|]. split; [rewrite Hidx; vm_compute; reflexivity|].
  split; [rewrite Hs; vm_compute; reflexivity | rewrite He; vm_compute; reflexivity].
Defined.

Lemma visitInsts_attaches_bytes_witness :
  let b := with_addr2Bytes (<[4096 := ["EB"; "1F"]]> ∅) jump_to_low_address in
  index_keyed (addr2Inst b) ∧
  ∃ b', visitInsts (H := sample_imports) b = Some b' ∧
    ∃ inst', od_get 4096 (addr2Inst b') = Some inst' ∧
      operand inst' = "jmp" ∧ size inst' = 2 ∧ bytes inst' = ["EB"; "1F"].
Proof.
  intros b.
  assert (Hkeyed : index_keyed (addr2Inst b)) by (repeat constructor).
  split; [exact Hkeyed|].
  destruct (visitInsts_attaches_bytes (H := sample_imports) b Hkeyed)
    as (b' & Hvisit & Hinst).
  exists b'. split; [exact Hvisit|].
  assert (Haux : 4096 ∉ (addr2InstAux b').*1).
  { assert (Hb' : Some b' = visitInsts (H := sample_imports) b) by (symmetry; exact Hvisit).
    vm_compute in Hb'. injection Hb' as ->. vm_compute.
    intros Hin. repeat (apply elem_of_cons in Hin as [Hin|Hin]; [discriminate Hin|]).
    by apply elem_of_nil in Hin. }
  destruct (Hinst 4096 (decoded 4096 2 "jmp" UnconditionalJump 33) eq_refl Haux)
    as (inst' & Hget & _ & Hsize & Hop & _ & _ & Hbytes & _).
  exists inst'. split; [exact Hget|]. split; [exact Hop|]. split; [exact Hsize|].
  exact Hbytes.
Defined.

Lemma visitInsts_handler_flags_witness :
  let b := jump_to_low_address in
  let inst := decoded 4096 2 "jmp" UnconditionalJump 33 in
  index_keyed (addr2Inst b) ∧
  od_get 4096 (addr2Inst b) = Some inst ∧
  ∃ b', visitInsts (H := sample_imports) b = Some b' ∧
    (4096 ∉ (addr2InstAux b').*1) ∧
    ∃ inst', od_get 4096 (addr2Inst b') = Some inst' ∧
      fallThrough inst' = false ∧ call inst' = false.
Proof.
  intros b inst.
  assert (Hkeyed : index_keyed (addr2Inst b)) by (repeat constructor).
  assert (Hv : ∃ b', visitInsts (H := sample_imports) b = Some b' ∧
                     4096 ∉ (addr2InstAux b').*1).
  { eexists. split; [vm_compute; reflexivity|]. vm_compute.
    intros Hin. repeat (apply elem_of_cons in Hin as [Hin|Hin]; [discriminate Hin|]).
    by apply elem_of_nil in Hin. }
  destruct Hv as (b' & Hvisit & Haux).
  split; [exact Hkeyed|]. split; [reflexivity|].
  exists b'. split; [exact Hvisit|]. split; [exact Haux|].
  destruct (visitInsts_handler_flags (H := sample_imports) b b' 4096 inst
              Hkeyed Hvisit eq_refl Haux) as (inst' & Hget & Hft & Hcall & _).
  exists inst'. split; [exact Hget|]. split; [exact Hft | exact Hcall].
Defined.

Lemma visitInsts_marks_entered_witness :
  let b := jump_to_low_address in
  let inst := decoded 4096 2 "jmp" UnconditionalJump 33 in
  index_keyed (addr2Inst b) ∧
  od_get 4096 (addr2Inst b) = Some inst ∧
  4098 ∈ entered (programEnd b) inst ∧
  resolved (H := sample_imports) (addr2Inst b) 4098 ∧
  ∃ b', visitInsts (H := sample_imports) b = Some b' ∧
    (4098 ∉ (addr2InstAux b').*1) ∧
    started (addr2Inst b') 4098.
Proof.
  intros b inst.
  assert (Hkeyed : index_keyed (addr2Inst b)) by (repeat constructor).
  assert (Hent : 4098 ∈ entered (programEnd b) inst) by (right; left).
  assert (Hres : resolved (H := sample_imports) (addr2Inst b) 4098).
  { split; [discriminate|]. split; [lia|]. eexists. reflexivity. }
  assert (Hv : ∃ b', visitInsts (H := sample_imports) b = Some b' ∧
                     4098 ∉ (addr2InstAux b').*1).
  { eexists. split; [vm_compute; reflexivity|]. vm_compute.
    intros Hin. repeat (apply elem_of_cons in Hin as [Hin|Hin]; [discriminate Hin|]).
    by apply elem_of_nil in Hin. }
  destruct Hv as (b' & Hvisit & Haux).
  split; [exact Hkeyed|]. split; [reflexivity|]. split; [exact Hent|].
  split; [exact Hres|].
  exists b'. split; [exact Hvisit|]. split; [exact Haux|].
  exact (visitInsts_marks_entered (H := sample_imports) b b' 4096 4098 inst
           Hkeyed Hvisit eq_refl Hent Hres Haux).
Defined.

Lemma jump_without_successor_targets_invalid_witness :
  let inst := decoded 4096 2 "jmp" UnconditionalJump 4200 in
  let b := with_addr2Inst
             [(4096, inst); (4200, decoded 4200 2 "nop" DefaultCat (-2))]
             Builder_init in
  index_keyed (addr2Inst b) ∧
  od_get 4096 (addr2Inst b) = Some inst ∧
  (category inst = ConditionalJump ∨ category inst = UnconditionalJump) ∧
  4096 + size inst ≠ FakeCalleeAddr (Imports := sample_imports) ∧
  ¬ (0 ≤ 4096 + size inst < 256) ∧
  od_get (4096 + size inst) (addr2Inst b) = None ∧
  (operand inst ∉ ["call"; "syscall"]) ∧
  ∃ b' inst',
    accept (H := sample_imports) 4096 b = Some b' ∧
    od_get 4096 (addr2Inst b') = Some inst' ∧
    branchTo inst' = Some (InvalidAddr (Imports := sample_imports)) ∧
    is_Some (od_get (InvalidAddr (Imports := sample_imports)) (addr2InstAux b')).
Proof.
  intros inst b.
  assert (Hkeyed : index_keyed (addr2Inst b)) by (repeat constructor).
  assert (Hcat : category inst = ConditionalJump ∨ category inst = UnconditionalJump)
    by (right; reflexivity).
  assert (Hfake : 4096 + size inst ≠ FakeCalleeAddr (Imports := sample_imports))
    by discriminate.
  assert (Hlow : ¬ (0 ≤ 4096 + size inst < 256)) by (simpl; lia).
  assert (Hop : operand inst ∉ ["call"; "syscall"]).
  { apply (bool_decide_unpack _). vm_compute. exact I. }
  split; [exact Hkeyed|]. split; [reflexivity|]. split; [exact Hcat|].
  split; [exact Hfake|]. split; [exact Hlow|]. split; [reflexivity|].
  split; [exact Hop|].
  exact (jump_without_successor_targets_invalid (H := sample_imports) b 4096 inst
           Hkeyed eq_refl Hcat Hfake Hlow eq_refl Hop).
Defined.

Lemma buildControlFlowGraph_well_formed_witness :
  let lines := ["seg000:00001000 E8 05 00 00 00 call 100A";
                "seg000:00001005 90 nop";
                "seg000:0000100A C3 retn"] in
  is_Some (normalise (H := sample_imports) lines) ∧
  ∃ b',
    buildControlFlowGraph (H := sample_imports) lines Builder_init = Some b' ∧
    blocks_keyed (addr2Block b') ∧
    edges_closed (addr2Block b') ∧
    ∀ addr inst, (addr, inst) ∈ addr2Inst b' →
      ∃ c blk, addr2Block b' !! c = Some blk ∧ inst ∈ instList blk.
Proof.
  intros lines.
  assert (Hnorm : is_Some (normalise (H := sample_imports) lines)).
  { eexists. vm_compute. reflexivity. }
  split; [exact Hnorm|].
  exact (buildControlFlowGraph_well_formed (H := sample_imports) lines Hnorm).
Defined.

Lemma extractTextSeg_line_numbers_witness :
  let lines := ["HEADER:00400000 db 4Dh"; ""; ".text:00401000 C3 retn"] in
  text Builder_init = [] ∧
  ∃ b',
    extractTextSeg (H := sample_imports) lines Builder_init = Some b' ∧
    text b' = [(3, "00401000 retn")] ∧
    StronglySorted Z.lt (text b').*1 ∧
    ∀ k s, (k, s) ∈ text b' →
      1 ≤ k ≤ Z.of_nat (length lines) ∧ text_entry_of (H := sample_imports) lines k s.
Proof.
  intros lines.
  assert (Hv : ∃ b', extractTextSeg (H := sample_imports) lines Builder_init = Some b' ∧
                     text b' = [(3, "00401000 retn")]).
  { eexists. split; [vm_compute; reflexivity|]. reflexivity. }
  destruct Hv as (b' & Hext & Htext).
  split; [reflexivity|]. exists b'. split; [exact Hext|]. split; [exact Htext|].
  exact (extractTextSeg_line_numbers (H := sample_imports) lines Builder_init b'
           eq_refl Hext).
Defined.
